(** * bg_setenv: the environment tool of EFI Boot Guard

    A shallow embedding of [tools/bg_setenv.c]: the journal of pending
    SET/DELETE actions, the ustate name table, the option parsers of
    [bg_setenv] and [bg_printenv], the session of [bg_setenv] that replays
    the journal on an environment record and hands it to the storage layer
    or to a file, and the session of [bg_printenv] that reads the records.

    Conventions of the embedding.
    - A [char *] argument is the [string] of the characters before its
      terminator; [NULL] is [None] where the code tests for it.
    - A byte buffer ([uint8_t *] with a length) is a [list ascii] that holds
      the terminator when the C buffer does.
    - C integers are [Z]; a narrowing conversion or an unsigned addition is
      written out with [mod].  The ABI is LP64: [int] has 32 bits and [long]
      has 64.
    - Global state of the process (the journal [head], [errno], strtok's
      position, the allocator, what was printed on [stderr] and what was
      asked of the storage layer) is threaded through the monad [M].
    - [errno] is what the calls that the tool reads it behind leave in it:
      [strtol], and [fopen] and [fwrite] in [dumpenv_to_file]; a refused
      allocation, a failed [stat] and a failed [fclose] leave their error
      in it as well.  The calls of the storage layer are taken to leave it
      as it is.
    - What the tool prints on [stdout], and what it prints through the
      macro [VERBOSE], is left out; so are [dump_env] and [dump_uservars],
      which do nothing but print, and [journal_free_action], which gives
      memory back. *)

From Stdlib Require Import ZArith List String Ascii Bool Lia.
Import ListNotations.
Local Open Scope string_scope.
Local Open Scope list_scope.
Local Open Scope Z_scope.

(** ** The C library, as far as the tool uses it *)

Module Libc.

Definition ENOENT : Z := 2.
Definition EIO : Z := 5.
Definition ENOMEM : Z := 12.
Definition EACCES : Z := 13.
Definition EINVAL : Z := 22.
Definition ENOSPC : Z := 28.
Definition ERANGE : Z := 34.
(** argp's "this key is not mine" answer, [E2BIG] in glibc. *)
Definition ARGP_ERR_UNKNOWN : Z := 7.
Definition ARGP_KEY_ARG : Z := 0.

Definition INT_MAX : Z := 2 ^ 31 - 1.
Definition INT_MIN : Z := - 2 ^ 31.
Definition LONG_MAX : Z := 2 ^ 63 - 1.
Definition LONG_MIN : Z := - 2 ^ 63.
Definition ULONG_WIDTH : Z := 2 ^ 64.
#[global] Arguments INT_MAX : simpl never.
#[global] Arguments INT_MIN : simpl never.
#[global] Arguments LONG_MAX : simpl never.
#[global] Arguments LONG_MIN : simpl never.
#[global] Arguments ULONG_WIDTH : simpl never.

(** A character as an [unsigned char]. *)
Definition code (c : ascii) : Z := Z.of_N (N_of_ascii c).
(** A character literal used as an [int] option key. *)
Definition chr (c : ascii) : Z := code c.

Definition NUL : ascii := zero.

Definition isspace (c : ascii) : bool :=
  (code c =? 32) || ((9 <=? code c) && (code c <=? 13)).

Definition isdigit (c : ascii) : bool :=
  (48 <=? code c) && (code c <=? 57).

Definition tolower (c : ascii) : Z :=
  if (65 <=? code c) && (code c <=? 90) then code c + 32 else code c.

Definition strlen (s : string) : nat := String.length s.

(** [strncmp]: at most [n] characters are compared, and the comparison
    stops behind a terminator. *)
Fixpoint strncmp (s1 s2 : string) (n : nat) {struct n} : Z :=
  match n with
  | O => 0
  | S n' =>
      match s1, s2 with
      | EmptyString, EmptyString => 0
      | EmptyString, String c2 _ => 0 - code c2
      | String c1 _, EmptyString => code c1 - 0
      | String c1 r1, String c2 r2 =>
          if code c1 =? code c2 then strncmp r1 r2 n' else code c1 - code c2
      end
  end.

(** [strncasecmp]: as [strncmp], on the lower-cased characters. *)
Fixpoint strncasecmp (s1 s2 : string) (n : nat) {struct n} : Z :=
  match n with
  | O => 0
  | S n' =>
      match s1, s2 with
      | EmptyString, EmptyString => 0
      | EmptyString, String c2 _ => 0 - tolower c2
      | String c1 _, EmptyString => tolower c1 - 0
      | String c1 r1, String c2 r2 =>
          if tolower c1 =? tolower c2 then strncasecmp r1 r2 n'
          else tolower c1 - tolower c2
      end
  end.

(** [strcmp]: the difference of the first characters that differ, 0 for
    equal strings. *)
Fixpoint strcmp (s1 s2 : string) : Z :=
  match s1, s2 with
  | EmptyString, EmptyString => 0
  | EmptyString, String c2 _ => 0 - code c2
  | String c1 _, EmptyString => code c1 - 0
  | String c1 r1, String c2 r2 =>
      if code c1 =? code c2 then strcmp r1 r2 else code c1 - code c2
  end.

(** Membership of a character in a delimiter set. *)
Fixpoint is_delim (delim : string) (c : ascii) : bool :=
  match delim with
  | EmptyString => false
  | String d r => Ascii.eqb c d || is_delim r c
  end.

Fixpoint skip_delims (delim s : string) : string :=
  match s with
  | EmptyString => EmptyString
  | String c r => if is_delim delim c then skip_delims delim r else s
  end.

(** The token at the front of [s] and what follows the delimiter that ends
    it (the delimiter itself is overwritten by a terminator). *)
Fixpoint split_token (delim s : string) : string * string :=
  match s with
  | EmptyString => (EmptyString, EmptyString)
  | String c r =>
      if is_delim delim c then (EmptyString, r)
      else let (tok, rest) := split_token delim r in (String c tok, rest)
  end.

(** [strtok (Some s) delim save] starts on [s]; [strtok None delim save]
    goes on at the saved position.  The answer is the token ([None] for
    [NULL]) and the new saved position. *)
Definition strtok (str : option string) (delim : string) (save : string)
  : option string * string :=
  let s := match str with Some s => s | None => save end in
  match skip_delims delim s with
  | EmptyString => (None, EmptyString)
  | s1 => let (tok, rest) := split_token delim s1 in (Some tok, rest)
  end.

(** The token in front of the first delimiter of [s] and what follows the
    delimiter; [None] when [s] holds no delimiter. *)
Fixpoint sep_token (delim s : string) : string * option string :=
  match s with
  | EmptyString => (EmptyString, None)
  | String c r =>
      if is_delim delim c then (EmptyString, Some r)
      else let (tok, rest) := sep_token delim r in (String c tok, rest)
  end.

(** [strsep (&stringp, delim)]: the token and the new [stringp]. *)
Definition strsep (stringp : option string) (delim : string)
  : option string * option string :=
  match stringp with
  | None => (None, None)
  | Some s => let (tok, rest) := sep_token delim s in (Some tok, rest)
  end.

(** [needle] stands at the front of [s]. *)
Fixpoint starts_with (needle s : string) : bool :=
  match needle, s with
  | EmptyString, _ => true
  | String a n', String b s' => Ascii.eqb a b && starts_with n' s'
  | String _ _, EmptyString => false
  end.

(** [strstr (s, needle) != NULL]. *)
Fixpoint strstr (s needle : string) : bool :=
  starts_with needle s
  || match s with
     | EmptyString => false
     | String _ r => strstr r needle
     end.

(** What [strtol (s, &end, 10)] gives: the value, the offset of [end] from
    [s], and whether it reported [ERANGE].  Without a digit to read the
    value is 0, [end] is [s], and [errno] is left alone. *)
Record strtol_result := mk_strtol {
  value : Z;
  endp : nat;
  erange : bool
}.

Fixpoint count_space (s : string) : nat :=
  match s with
  | String c r => if isspace c then S (count_space r) else O
  | EmptyString => O
  end.

Fixpoint drop (n : nat) (s : string) : string :=
  match n, s with
  | S n', String _ r => drop n' r
  | _, _ => s
  end.

(** The decimal digits at the front of [s]: how many, and their value on
    top of the accumulator. *)
Fixpoint digits (s : string) (acc : Z) : nat * Z :=
  match s with
  | String c r =>
      if isdigit c then
        let (n, v) := digits r (10 * acc + (code c - 48)) in (S n, v)
      else (O, acc)
  | EmptyString => (O, acc)
  end.

Definition strtol (s : string) : strtol_result :=
  let ws := count_space s in
  let s1 := drop ws s in
  let '(neg, sl, s2) :=
    match s1 with
    | String "-" r => (true, 1%nat, r)
    | String "+" r => (false, 1%nat, r)
    | _ => (false, 0%nat, s1)
    end in
  let (n, v) := digits s2 0 in
  match n with
  | O => mk_strtol 0 0 false
  | _ =>
      let sv := if neg then - v else v in
      let e := (ws + sl + n)%nat in
      if sv >? LONG_MAX then mk_strtol LONG_MAX e true
      else if sv <? LONG_MIN then mk_strtol LONG_MIN e true
      else mk_strtol sv e false
  end.

(** The character [end] points at: the terminator when the whole string was
    consumed. *)
Definition char_at (s : string) (n : nat) : ascii :=
  match String.get n s with Some c => c | None => NUL end.

(** The buffer that holds the string [s]: its characters and the
    terminator. *)
Definition bytes_of (s : string) : list ascii :=
  list_ascii_of_string s ++ [NUL].

(** [memcpy] of [n] bytes out of the buffer that holds [s]. *)
Definition memcpy (s : string) (n : nat) : list ascii :=
  firstn n (bytes_of s).

(** Reading a buffer as a string: the characters before the first
    terminator, and nothing when the buffer holds none (the read would
    leave the buffer). *)
Fixpoint cstr (buf : list ascii) : option string :=
  match buf with
  | [] => None
  | c :: r =>
      if Ascii.eqb c NUL then Some EmptyString
      else match cstr r with
           | Some s => Some (String c s)
           | None => None
           end
  end.

(** [asprintf (&tmp, "%u", i)] for a value that is not negative. *)
Fixpoint utoa_aux (fuel : nat) (n : Z) (acc : string) : string :=
  match fuel with
  | O => acc
  | S f =>
      let d := ascii_of_N (Z.to_N (48 + n mod 10)) in
      if n <? 10 then String d acc else utoa_aux f (n / 10) (String d acc)
  end.

Definition utoa (n : Z) : string := utoa_aux 20 n EmptyString.

End Libc.

Import Libc.

(** ** Constants and types of the headers *)

(** The constants that [bg_setenv.c] takes from [envdata.h], [ebgenv.h] and
    the build configuration.  The tool is compiled against one choice of
    them; the functions below are written for any. *)
Class Config := {
  USTATE_MIN : Z;
  USTATE_MAX : Z;
  USTATE_UNKNOWN : Z;
  ENV_NUM_CONFIG_PARTS : Z;
  ENV_STRING_LENGTH : Z;
  USERVAR_TYPE_DEFAULT : Z;
  USERVAR_TYPE_DELETED : Z;
  USERVAR_TYPE_STRING_ASCII : Z;
  FAT_ENV_FILENAME : string
}.

(** Modelled from the spec: one entry of the user-variable area (spec §3,
    UserVariable: key, 64-bit type word, value bytes); the layout of the
    area is declared in a header that is not among the sources. *)
Record uservar := mk_uservar {
  uv_key : string;
  uv_type : Z;
  uv_value : list ascii
}.

(** Modelled from the spec: [BG_ENVDATA], declared in [envdata.h].  The
    members are the ones [dump_env] prints and [update_environment] writes;
    the two text members hold UTF-16 in the C struct and are kept as text
    here, and [userdata] is the sequence of entries before the sentinel. *)
Record BG_ENVDATA := mk_envdata {
  kernelfile : string;
  kernelparams : string;
  in_progress : Z;
  ustate : Z;
  watchdog_timeout_sec : Z;
  revision : Z;
  userdata : list uservar;
  crc32 : Z
}.

(** [memset (&data, 0, sizeof (BG_ENVDATA))]. *)
Definition zero_envdata : BG_ENVDATA :=
  mk_envdata "" "" 0 0 0 0 [] 0.

Definition set_revision (d : BG_ENVDATA) (r : Z) : BG_ENVDATA :=
  mk_envdata (kernelfile d) (kernelparams d) (in_progress d) (ustate d)
             (watchdog_timeout_sec d) r (userdata d) (crc32 d).

Definition set_crc32 (d : BG_ENVDATA) (c : Z) : BG_ENVDATA :=
  mk_envdata (kernelfile d) (kernelparams d) (in_progress d) (ustate d)
             (watchdog_timeout_sec d) (revision d) (userdata d) c.

(** Modelled from the spec: the handle [BGENV] of the storage layer (spec
    §6, a "readable+writable record handle"), declared in a header that is
    not among the sources: what it keeps about the slot it was opened on
    ([desc], never touched by the tool) and the pointer [data] to the
    record, which may be [NULL]. *)
Record BGENV := mk_bgenv {
  desc : Z;
  edata : option BG_ENVDATA
}.

Definition UINT32_WIDTH : Z := 2 ^ 32.
Definition UINT16_WIDTH : Z := 2 ^ 16.
#[global] Arguments UINT32_WIDTH : simpl never.
#[global] Arguments UINT16_WIDTH : simpl never.

(** ** The journal *)

Inductive BGENV_TASK := ENV_TASK_SET | ENV_TASK_DEL.

Record env_action := mk_action {
  key : option string;
  type : Z;
  data : option (list ascii);
  task : BGENV_TASK
}.

(** ** The process *)

(** What the tool prints on [stderr] and what it asks of its collaborators,
    in the order in which it happens. *)
Inductive event :=
| Stderr (msg : string)
| SetGlobalState (u : Z)
| BgenvSet (k : option string) (ty : Z) (v : string) (len : Z)
| BeVerbose
| Stat (path : string)
| Init
| Finalize
| OpenLatest
| OpenOldest
| OpenByIndex (i : Z)
| Close (env : option BGENV)
| Write (env : BGENV)
| FileRead (path : string)
| FileWrite (path : string) (d : BG_ENVDATA).

Record proc := mk_proc {
  head : list env_action;
  errno : Z;
  strtok_save : string;
  (** the answers of the allocator to the requests to come, oldest first;
      a request beyond the list succeeds *)
  heap : list bool;
  trace : list event
}.

Inductive outcome (A : Type) :=
| Val (a : A) (s : proc)
| Exit (status : Z) (s : proc)
| Fault (s : proc).
Arguments Val {A} a s.
Arguments Exit {A} status s.
Arguments Fault {A} s.

Definition M (A : Type) := proc -> outcome A.

Definition ret {A} (a : A) : M A := fun s => Val a s.

Definition bind {A B} (m : M A) (f : A -> M B) : M B :=
  fun s =>
    match m s with
    | Val a s' => f a s'
    | Exit c s' => Exit c s'
    | Fault s' => Fault s'
    end.

Notation "x <- m ;; k" := (bind m (fun x => k))
  (at level 61, m at next level, right associativity).
Notation "m ;;; k" := (bind m (fun _ => k))
  (at level 61, right associativity).

Definition final {A} (o : outcome A) : proc :=
  match o with Val _ s => s | Exit _ s => s | Fault s => s end.

Definition exit {A} (status : Z) : M A := fun s => Exit status s.
Definition fault {A} : M A := fun s => Fault s.

Definition get_errno : M Z := fun s => Val (errno s) s.
Definition set_errno (e : Z) : M unit :=
  fun s => Val tt (mk_proc (head s) e (strtok_save s) (heap s) (trace s)).
Definition get_head : M (list env_action) := fun s => Val (head s) s.
Definition set_head (q : list env_action) : M unit :=
  fun s => Val tt (mk_proc q (errno s) (strtok_save s) (heap s) (trace s)).
Definition get_save : M string := fun s => Val (strtok_save s) s.
Definition set_save (p : string) : M unit :=
  fun s => Val tt (mk_proc (head s) (errno s) p (heap s) (trace s)).
Definition emit (e : event) : M unit :=
  fun s => Val tt (mk_proc (head s) (errno s) (strtok_save s) (heap s)
                           (trace s ++ [e])).
(** One request to the allocator ([calloc], [malloc], [asprintf],
    [strdup]): whether it is served.  A request that is refused leaves
    [ENOMEM] in [errno]. *)
Definition alloc : M bool :=
  fun s =>
    match heap s with
    | [] => Val true s
    | b :: h =>
        Val b (mk_proc (head s) (if b then errno s else Libc.ENOMEM)
                       (strtok_save s) h (trace s))
    end.

(** ** The collaborators *)

(** The functions of [libebgenv], zlib and stdio that the tool calls.  Their
    code is outside [bg_setenv.c]; what they answer is an input of the
    model, and every call of one that acts on the environment is recorded
    in the trace.  [bgenv_set] and [ebg_env_setglobalstate] get the handle
    and change the record behind it in place: their answer is the handle
    with the record as the call left it (and, for the setter, the return
    value). *)
Class Collaborators := {
  bgenv_set : BGENV -> option string -> Z -> string -> Z -> BGENV;
  ebg_env_setglobalstate : BGENV -> Z -> BGENV * Z;
  zlib_crc32 : Z -> list ascii -> Z;
  bgenv_init : bool;
  bgenv_open_latest : option BGENV;
  bgenv_open_oldest : option BGENV;
  bgenv_open_by_index : Z -> option BGENV;
  bgenv_write : BGENV -> bool;
  (** [stat] on a path: the error number it leaves in [errno] when it
      fails, and whether a call that succeeds finds a directory *)
  stat_errno : string -> option Z;
  stat_is_dir : string -> bool;
  open_config_file : string -> bool;
  fread_envdata : string -> option BG_ENVDATA;
  (** [fopen (path, "wb")], [fwrite] of the record and [fclose]: whether
      the call succeeds, and the error number it leaves in [errno] when it
      does not *)
  fopen_wb : string -> bool;
  fopen_errno : string -> Z;
  fwrite_envdata : string -> BG_ENVDATA -> bool;
  fwrite_errno : string -> BG_ENVDATA -> Z;
  fclose_ok : string -> bool;
  fclose_errno : string -> Z;
  strerror : Z -> string
}.

(** The object representation of [BG_ENVDATA]: the bytes of the struct,
    its size and the size of its [crc32] member. *)
Class Layout := {
  envdata_image : BG_ENVDATA -> list ascii;
  sizeof_BG_ENVDATA : nat;
  sizeof_crc32 : nat
}.

Section Tool.

Context {cfg : Config} {col : Collaborators} {lay : Layout}.

(** *** journal_add_action, journal_process_action *)

(** [STAILQ_INSERT_TAIL (&head, new_action, journal)]. *)
Definition STAILQ_INSERT_TAIL (a : env_action) : M unit :=
  q <- get_head ;; set_head (q ++ [a]).

Definition journal_add_action (task : BGENV_TASK) (key : option string)
    (type : Z) (data : option string) (datalen : nat) : M Z :=
  new_action <- alloc ;;
  if negb new_action then ret ENOMEM
  else
    copied <- match key with Some _ => alloc | None => ret true end ;;
    if negb copied then ret ENOMEM
    else
      match data, datalen with
      | Some d, S _ =>
          buf <- alloc ;;
          if negb buf then ret ENOMEM
          else
            STAILQ_INSERT_TAIL
              (mk_action key type (Some (memcpy d datalen)) task) ;;;
            ret 0
      | _, _ =>
          STAILQ_INSERT_TAIL (mk_action key type None task) ;;;
          ret 0
      end.

(** The branch of [journal_process_action] for the key "ustate". *)
Definition process_ustate (env : BGENV) (arg : string) : M BGENV :=
  set_errno 0 ;;;
  let r := strtol arg in
  (if erange r then set_errno ERANGE else ret tt) ;;;
  e <- get_errno ;;
  let t := value r mod ULONG_WIDTH in
  if ((e =? ERANGE) && ((t =? LONG_MAX mod ULONG_WIDTH)
                        || (t =? LONG_MIN mod ULONG_WIDTH)))
     || (negb (e =? 0) && (t =? 0))
     || (endp r =? 0)%nat
  then
    emit (Stderr ("Invalid value for ustate: " ++ arg)) ;;;
    ret env
  else
    let ustate := t mod UINT16_WIDTH in
    emit (SetGlobalState ustate) ;;;
    let (env', res) := ebg_env_setglobalstate env ustate in
    (if negb (res =? 0) then emit (Stderr "Error setting global state")
     else ret tt) ;;;
    ret env'.

Definition journal_process_action (env : BGENV) (action : env_action)
  : M BGENV :=
  match task action with
  | ENV_TASK_SET =>
      match key action with
      | None => fault
      | Some k =>
          if strncmp k "ustate" (strlen "ustate" + 1) =? 0 then
            match data action with
            | None => fault
            | Some buf =>
                match cstr buf with
                | None => fault
                | Some arg => process_ustate env arg
                end
            end
          else
            match data action with
            | None => fault
            | Some buf =>
                match cstr buf with
                | None => fault
                | Some v =>
                    let len := Z.of_nat (strlen v) + 1 in
                    emit (BgenvSet (Some k) (type action) v len) ;;;
                    ret (bgenv_set env (Some k) (type action) v len)
                end
            end
      end
  | ENV_TASK_DEL =>
      emit (BgenvSet (key action) (type action) "" 1) ;;;
      ret (bgenv_set env (key action) (type action) "" 1)
  end.

(** *** ustatemap, str2ustate, ustate2str *)

Definition ustatemap : list string :=
  ["OK"; "INSTALLED"; "TESTING"; "FAILED"; "UNKNOWN"].

Definition UINT8_WIDTH : Z := 2 ^ 8.

(** The loop of [str2ustate] from [i] on, for at most [n] rounds; [None]
    is a read behind the end of [ustatemap]. *)
Fixpoint str2ustate_from (n : nat) (i : Z) (str : string) : option Z :=
  match n with
  | O => Some (USTATE_UNKNOWN mod UINT8_WIDTH)
  | S n' =>
      if i <? USTATE_MAX then
        match nth_error ustatemap (Z.to_nat i) with
        | None => None
        | Some name =>
            if strncasecmp str name (strlen name) =? 0 then Some i
            else str2ustate_from n' ((i + 1) mod UINT8_WIDTH) str
        end
      else Some (USTATE_UNKNOWN mod UINT8_WIDTH)
  end.

(** [i] runs from [USTATE_MIN] up to [USTATE_MAX], so
    [USTATE_MAX - USTATE_MIN] rounds and the closing test are all the loop
    takes (for constants in the range of [uint8_t]). *)
Definition str2ustate (str : option string) : option Z :=
  match str with
  | None => Some (USTATE_UNKNOWN mod UINT8_WIDTH)
  | Some s =>
      str2ustate_from (S (Z.to_nat (USTATE_MAX - USTATE_MIN)))
                      (USTATE_MIN mod UINT8_WIDTH) s
  end.

(** The parameter is a [uint8_t]: the value of the argument is narrowed to
    eight bits at the call.  [None] is a read behind the end of
    [ustatemap]. *)
Definition ustate2str (ustate : Z) : option string :=
  let ustate := ustate mod UINT8_WIDTH in
  let ustate :=
    if ustate >? USTATE_MAX then USTATE_MAX mod UINT8_WIDTH else ustate in
  nth_error ustatemap (Z.to_nat ustate).

(** *** set_uservars, parse_int *)

Definition set_uservars (arg : string) : M Z :=
  save <- get_save ;;
  let (key, save1) := strtok (Some arg) "=" save in
  set_save save1 ;;;
  match key with
  | None => ret 0
  | Some k =>
      let (value, save2) := strtok None "=" save1 in
      set_save save2 ;;;
      match value with
      | None =>
          journal_add_action ENV_TASK_DEL (Some k)
            (Z.lor USERVAR_TYPE_DEFAULT USERVAR_TYPE_DELETED) None 0
      | Some v =>
          journal_add_action ENV_TASK_SET (Some k)
            (Z.lor USERVAR_TYPE_DEFAULT USERVAR_TYPE_STRING_ASCII)
            (Some v) (strlen v + 1)
      end
  end.

Definition parse_int (arg : string) : M Z :=
  set_errno 0 ;;;
  let r := strtol arg in
  (if erange r then set_errno ERANGE else ret tt) ;;;
  e <- get_errno ;;
  let i := value r in
  if (e =? ERANGE)
     || (negb (e =? 0) && (i =? 0))
     || (endp r =? 0)%nat
     || negb (Ascii.eqb (char_at arg (endp r)) NUL)
     || (i <? INT_MIN) || (i >? INT_MAX)
  then set_errno EINVAL ;;; ret (-1)
  else ret i.

(** *** The option parsers *)

Record arguments_common := mk_common {
  envfilepath : option string;
  verbosity : bool;
  which_part : Z;
  part_specified : bool
}.

Record arguments_setenv := mk_setenv {
  common : arguments_common;
  auto_update : bool;
  preserve_env : bool
}.

(** [memset (&arguments, 0, sizeof (struct arguments_setenv))]. *)
Definition zero_arguments : arguments_setenv :=
  mk_setenv (mk_common None false 0 false) false false.

Definition parse_common_opt (key : Z) (arg : string) (compat_mode : bool)
    (arguments : arguments_common) : M (Z * arguments_common) :=
  let a := arguments in
  if key =? chr "f" then
    let a := mk_common None (verbosity a) (which_part a) (part_specified a) in
    dir <- (if compat_mode then
              emit (Stat arg) ;;;
              match stat_errno arg with
              | Some e => set_errno e ;;; ret false
              | None => ret (stat_is_dir arg)
              end
            else ret false) ;;
    if dir then
      emit (Stderr "WARNING: Using -f to specify only the ouptut directory is deprecated.") ;;;
      ok <- alloc ;;
      if negb ok then ret (ENOMEM, a)
      else
        ret (0, mk_common (Some (arg ++ "/" ++ FAT_ENV_FILENAME)%string)
                          (verbosity a) (which_part a) (part_specified a))
    else
      ok <- alloc ;;
      if negb ok then ret (ENOMEM, a)
      else
        ret (0, mk_common (Some arg) (verbosity a) (which_part a)
                          (part_specified a))
  else if key =? chr "p" then
    i <- parse_int arg ;;
    e <- get_errno ;;
    if negb (e =? 0) then
      emit (Stderr "Invalid number specified for -p.") ;;; ret (1, a)
    else if (i >=? 0) && (i <? ENV_NUM_CONFIG_PARTS) then
      ret (0, mk_common (envfilepath a) (verbosity a) i true)
    else
      emit (Stderr "Selected partition out of range.") ;;; ret (1, a)
  else if key =? chr "v" then
    emit BeVerbose ;;;
    ret (0, mk_common (envfilepath a) true (which_part a) (part_specified a))
  else if key =? chr "V" then
    exit 0
  else ret (ARGP_ERR_UNKNOWN, a).

(** [argp_usage] prints the usage message and leaves the program with
    [EX_USAGE]. *)
Definition argp_usage {A} : M A := exit 64.

(** The tail of [parse_setenv_opt], behind the switch. *)
Definition journal_error (e : Z) (arguments : arguments_setenv)
  : M (Z * arguments_setenv) :=
  (if negb (e =? 0) then emit (Stderr "Error creating journal")
   else ret tt) ;;;
  ret (e, arguments).

Definition parse_setenv_opt (key : Z) (arg : string)
    (arguments : arguments_setenv) : M (Z * arguments_setenv) :=
  let a := arguments in
  if key =? chr "k" then
    if Z.of_nat (strlen arg) >? ENV_STRING_LENGTH then
      emit (Stderr "Error, kernel filename is too long.") ;;; ret (1, a)
    else
      e <- journal_add_action ENV_TASK_SET (Some "kernelfile") 0
             (Some arg) (strlen arg + 1) ;;
      journal_error e a
  else if key =? chr "a" then
    if Z.of_nat (strlen arg) >? ENV_STRING_LENGTH then
      emit (Stderr "Error, kernel arguments string is too long.") ;;;
      ret (1, a)
    else
      e <- journal_add_action ENV_TASK_SET (Some "kernelparams") 0
             (Some arg) (strlen arg + 1) ;;
      journal_error e a
  else if key =? chr "s" then
    i <- parse_int arg ;;
    e <- get_errno ;;
    r <- (if negb (e =? 0) then
            match str2ustate (Some arg) with
            | None => fault
            | Some i =>
                if i =? USTATE_UNKNOWN then
                  emit (Stderr "Invalid state specified.") ;;; ret None
                else ret (Some i)
            end
          else ret (Some i)) ;;
    match r with
    | None => ret (1, a)
    | Some i =>
        if (i <? 0) || (i >? 3) then
          emit (Stderr "Invalid ustate value specified. Possible values: 0 (OK), 1 (INSTALLED), 2 (TESTING), 3 (FAILED)") ;;;
          ret (1, a)
        else
          ok <- alloc ;;
          if negb ok then ret (ENOMEM, a)
          else
            let tmp := utoa i in
            e <- journal_add_action ENV_TASK_SET (Some "ustate") 0
                   (Some tmp) (strlen tmp + 1) ;;
            journal_error e a
    end
  else if key =? chr "i" then
    i <- parse_int arg ;;
    e <- get_errno ;;
    if negb (e =? 0) then
      emit (Stderr "Invalid value specified.") ;;; ret (1, a)
    else if (i <? 0) || (i >? 1) then
      emit (Stderr "Invalid value specified. Possible values: 0 (no), 1 (yes)") ;;;
      ret (1, a)
    else
      ok <- alloc ;;
      if negb ok then ret (ENOMEM, a)
      else
        let tmp := utoa i in
        e <- journal_add_action ENV_TASK_SET (Some "in_progress") 0
               (Some tmp) (strlen tmp + 1) ;;
        journal_error e a
  else if key =? chr "r" then
    i <- parse_int arg ;;
    e <- get_errno ;;
    if negb (e =? 0) then
      emit (Stderr "Invalid revision specified.") ;;; ret (1, a)
    else
      e <- journal_add_action ENV_TASK_SET (Some "revision") 0
             (Some arg) (strlen arg + 1) ;;
      journal_error e a
  else if key =? chr "w" then
    i <- parse_int arg ;;
    e <- get_errno ;;
    if negb (e =? 0) || (i <? 0) then
      emit (Stderr "Invalid watchdog timeout specified.") ;;; ret (1, a)
    else
      e <- journal_add_action ENV_TASK_SET (Some "watchdog_timeout_sec") 0
             (Some arg) (strlen arg + 1) ;;
      journal_error e a
  else if key =? chr "c" then
    e <- journal_add_action ENV_TASK_SET (Some "ustate") 0 (Some "0") 2 ;;
    journal_error e a
  else if key =? chr "u" then
    journal_error 0 (mk_setenv (common a) true (preserve_env a))
  else if key =? chr "x" then
    e <- set_uservars arg ;;
    journal_error e a
  else if key =? chr "P" then
    journal_error 0 (mk_setenv (common a) (auto_update a) true)
  else if key =? ARGP_KEY_ARG then
    argp_usage
  else
    r <- parse_common_opt key arg true (common a) ;;
    ret (fst r, mk_setenv (snd r) (auto_update a) (preserve_env a)).

(** The bits of [struct fields]. *)
Record fields := mk_fields {
  f_in_progress : bool;
  f_revision : bool;
  f_kernel : bool;
  f_kernelargs : bool;
  f_wdog_timeout : bool;
  f_ustate : bool;
  f_user : bool
}.

Definition ALL_FIELDS : fields :=
  mk_fields true true true true true true true.

Record arguments_printenv := mk_printenv {
  pcommon : arguments_common;
  current : bool;
  output_fields : fields
}.

(** The loop of [parse_output_fields], for at most [n] tokens. *)
Fixpoint parse_output_fields_from (n : nat) (rest : option string)
    (o : fields) : M (Z * fields) :=
  match n with
  | O => ret (0, o)
  | S n' =>
      match strsep rest "," with
      | (None, _) => ret (0, o)
      | (Some token, rest') =>
          if Ascii.eqb (char_at token 0) NUL then
            parse_output_fields_from n' rest' o
          else if strcmp token "in_progress" =? 0 then
            parse_output_fields_from n' rest'
              (mk_fields true (f_revision o) (f_kernel o) (f_kernelargs o)
                         (f_wdog_timeout o) (f_ustate o) (f_user o))
          else if strcmp token "revision" =? 0 then
            parse_output_fields_from n' rest'
              (mk_fields (f_in_progress o) true (f_kernel o) (f_kernelargs o)
                         (f_wdog_timeout o) (f_ustate o) (f_user o))
          else if strcmp token "kernel" =? 0 then
            parse_output_fields_from n' rest'
              (mk_fields (f_in_progress o) (f_revision o) true
                         (f_kernelargs o) (f_wdog_timeout o) (f_ustate o)
                         (f_user o))
          else if strcmp token "kernelargs" =? 0 then
            parse_output_fields_from n' rest'
              (mk_fields (f_in_progress o) (f_revision o) (f_kernel o) true
                         (f_wdog_timeout o) (f_ustate o) (f_user o))
          else if strcmp token "watchdog_timeout" =? 0 then
            parse_output_fields_from n' rest'
              (mk_fields (f_in_progress o) (f_revision o) (f_kernel o)
                         (f_kernelargs o) true (f_ustate o) (f_user o))
          else if strcmp token "ustate" =? 0 then
            parse_output_fields_from n' rest'
              (mk_fields (f_in_progress o) (f_revision o) (f_kernel o)
                         (f_kernelargs o) (f_wdog_timeout o) true (f_user o))
          else if strcmp token "user" =? 0 then
            parse_output_fields_from n' rest'
              (mk_fields (f_in_progress o) (f_revision o) (f_kernel o)
                         (f_kernelargs o) (f_wdog_timeout o) (f_ustate o) true)
          else
            emit (Stderr ("Unknown output field: " ++ token)) ;;;
            ret (1, o)
      end
  end.

(** A text of [n] characters holds at most [n + 1] tokens, and one more
    round sees [strsep] answer [NULL]. *)
Definition parse_output_fields (arg : string) : M (Z * fields) :=
  parse_output_fields_from (strlen arg + 2) (Some arg)
    (mk_fields false false false false false false false).

Definition parse_printenv_opt (key : Z) (arg : string)
    (arguments : arguments_printenv) : M (Z * arguments_printenv) :=
  let a := arguments in
  if key =? chr "c" then
    ret (0, mk_printenv (pcommon a) true (output_fields a))
  else if key =? chr "o" then
    r <- parse_output_fields arg ;;
    ret (fst r, mk_printenv (pcommon a) (current a) (snd r))
  else if key =? ARGP_KEY_ARG then
    argp_usage
  else
    r <- parse_common_opt key arg false (pcommon a) ;;
    ret (fst r, mk_printenv (snd r) (current a) (output_fields a)).

(** glibc's [argp_parse], as far as the two tools rely on it: the parser is
    called on the options of the command line in their order; an answer
    other than 0 and [ARGP_ERR_UNKNOWN] ends the parse and is what
    [argp_parse] returns. *)
Fixpoint argp_parse {A} (parser : Z -> string -> A -> M (Z * A))
    (opts : list (Z * string)) (arguments : A) : M (Z * A) :=
  match opts with
  | [] => ret (0, arguments)
  | (key, arg) :: rest =>
      r <- parser key arg arguments ;;
      if (fst r =? 0) || (fst r =? ARGP_ERR_UNKNOWN) then
        argp_parse parser rest (snd r)
      else ret r
  end.

(** *** update_environment *)

(** The [while] loop of [update_environment]: as long as the queue is not
    empty, its first action is processed, taken off the queue and freed.
    [n] bounds the number of rounds. *)
Fixpoint drain (n : nat) (env : BGENV) : M BGENV :=
  match n with
  | O => ret env
  | S n' =>
      q <- get_head ;;
      match q with
      | [] => ret env
      | action :: _ =>
          env' <- journal_process_action env action ;;
          q' <- get_head ;;
          set_head (tl q') ;;;
          drain n' env'
      end
  end.

(** zlib's [crc32], started at 0, over the bytes of the record at
    [env->data] that come before its last
    [sizeof (env->data->crc32)] ones. *)
Definition checksum (d : BG_ENVDATA) : Z :=
  zlib_crc32 0 (firstn (sizeof_BG_ENVDATA - sizeof_crc32) (envdata_image d)).

(** Processing takes nothing from the queue and adds nothing to it, so the
    loop ends after as many rounds as the queue is long. *)
Definition update_environment (env : BGENV) (verbosity : bool) : M BGENV :=
  q <- get_head ;;
  env' <- drain (List.length q) env ;;
  match edata env' with
  | None => fault
  | Some d => ret (mk_bgenv (desc env') (Some (set_crc32 d (checksum d))))
  end.

(** *** The session *)

Fixpoint dump_envs_from (n : nat) (i : Z) : M unit :=
  match n with
  | O => ret tt
  | S n' =>
      emit (OpenByIndex i) ;;;
      match bgenv_open_by_index i with
      | None =>
          emit (Stderr "Error, could not read environment for index")
      | Some env =>
          match edata env with
          | None => fault
          | Some _ => emit (Close (Some env)) ;;; dump_envs_from n' (i + 1)
          end
      end
  end.

Definition dump_envs : M unit :=
  dump_envs_from (Z.to_nat ENV_NUM_CONFIG_PARTS) 0.

(** [get_env]: the record read from the file, or [None] for [false]. *)
Definition get_env (configfilepath : string) : M (option BG_ENVDATA) :=
  emit (FileRead configfilepath) ;;;
  if negb (open_config_file configfilepath) then ret None
  else ret (fread_envdata configfilepath).

Definition dumpenv_to_file (envfilepath : string) (verbosity : bool)
    (preserve_env : bool) : M Z :=
  r <- (if preserve_env then get_env envfilepath
        else ret (Some zero_envdata)) ;;
  match r with
  | None => ret 1
  | Some data =>
      env <- update_environment (mk_bgenv 0 (Some data)) verbosity ;;
      match edata env with
      | None => fault
      | Some data =>
          if fopen_wb envfilepath then
            emit (FileWrite envfilepath data) ;;;
            result <- (if negb (fwrite_envdata envfilepath data) then
                         set_errno (fwrite_errno envfilepath data) ;;;
                         e <- get_errno ;;
                         emit (Stderr ("Error writing to output file: "
                                       ++ strerror e)) ;;;
                         ret 1
                       else ret 0) ;;
            if negb (fclose_ok envfilepath) then
              set_errno (fclose_errno envfilepath) ;;;
              emit (Stderr "Error closing output file.") ;;; ret 1
            else ret result
          else
            set_errno (fopen_errno envfilepath) ;;;
            e <- get_errno ;;
            emit (Stderr ("Error opening output file " ++ envfilepath
                          ++ " (" ++ strerror e ++ ").")) ;;;
            ret 1
      end
  end.

(** The label [cleanup] of [bg_setenv]. *)
Definition cleanup (env_new : option BGENV) (result : Z) : M Z :=
  emit (Close env_new) ;;; emit Finalize ;;; ret result.

(** [bg_setenv] from [update_environment (env_new, ...)] on. *)
Definition store (env_new : BGENV) (verbosity : bool) : M Z :=
  env_new <- update_environment env_new verbosity ;;
  emit (Write env_new) ;;;
  if negb (bgenv_write env_new) then
    emit (Stderr "Error storing environment.") ;;;
    cleanup (Some env_new) 1
  else cleanup (Some env_new) 0.

(** The branch [if (arguments.auto_update)] of [bg_setenv]. *)
Definition clone_latest (verbosity : bool) : M Z :=
  emit OpenLatest ;;;
  match bgenv_open_latest with
  | None =>
      emit (Stderr "Failed to retrieve latest environment.") ;;;
      cleanup None 1
  | Some env_current =>
      emit OpenOldest ;;;
      match bgenv_open_oldest with
      | None =>
          emit (Stderr "Failed to retrieve oldest environment.") ;;;
          emit (Close (Some env_current)) ;;;
          cleanup None 1
      | Some env_new =>
          (if verbosity then
             match edata env_new with None => fault | Some _ => ret tt end
           else ret tt) ;;;
          match edata env_current, edata env_new with
          | Some current, Some _ =>
              let copy := current in
              let copy :=
                set_revision copy ((revision current + 1) mod UINT32_WIDTH) in
              emit (Close (Some env_current)) ;;;
              store (mk_bgenv (desc env_new) (Some copy)) verbosity
          | _, _ =>
              emit (Stderr "Invalid environment data pointer.") ;;;
              emit (Close (Some env_current)) ;;;
              cleanup (Some env_new) 1
          end
      end
  end.

(** [bg_setenv]; [opts] is the command line as argp reads it. *)
Definition bg_setenv (argc : Z) (opts : list (Z * string)) : M Z :=
  if argc <? 2 then ret 1
  else
    set_head [] ;;;
    r <- argp_parse parse_setenv_opt opts zero_arguments ;;
    let (e, arguments) := r in
    if negb (e =? 0) then ret e
    else if auto_update arguments && part_specified (common arguments) then
      emit (Stderr "Error, both automatic and manual partition selection. Cannot use -p and -u simultaneously.") ;;;
      ret 1
    else
      match envfilepath (common arguments) with
      | Some path =>
          dumpenv_to_file path (verbosity (common arguments))
                          (preserve_env arguments)
      | None =>
          emit Init ;;;
          if negb bgenv_init then
            emit (Stderr "Error initializing FAT environment.") ;;; ret 1
          else
            (if verbosity (common arguments) then dump_envs else ret tt) ;;;
            if auto_update arguments then
              clone_latest (verbosity (common arguments))
            else
              env_new <-
                (if part_specified (common arguments) then
                   emit (OpenByIndex (which_part (common arguments))) ;;;
                   ret (bgenv_open_by_index (which_part (common arguments)))
                 else emit OpenLatest ;;; ret bgenv_open_latest) ;;
              match env_new with
              | None =>
                  emit (Stderr "Failed to retrieve environment by index.") ;;;
                  cleanup None 1
              | Some env_new => store env_new (verbosity (common arguments))
              end
      end.

Definition dump_latest_env : M unit :=
  emit OpenLatest ;;;
  match bgenv_open_latest with
  | None => emit (Stderr "Failed to retrieve latest environment.")
  | Some env =>
      match edata env with
      | None => fault
      | Some _ => emit (Close (Some env))
      end
  end.

Definition dump_env_by_index (index : Z) : M unit :=
  emit (OpenByIndex index) ;;;
  match bgenv_open_by_index index with
  | None => emit (Stderr "Failed to retrieve latest environment.")
  | Some env =>
      match edata env with
      | None => fault
      | Some _ => emit (Close (Some env))
      end
  end.

Definition printenv_from_file (envfilepath : string) : M Z :=
  success <- get_env envfilepath ;;
  match success with
  | Some _ => ret 0
  | None => emit (Stderr "Error reading environment file.") ;;; ret 1
  end.

(** [bg_printenv]; [opts] is the command line as argp reads it. *)
Definition bg_printenv (argc : Z) (opts : list (Z * string)) : M Z :=
  r <- argp_parse parse_printenv_opt opts
         (mk_printenv (mk_common None false 0 false) false ALL_FIELDS) ;;
  let (e, arguments) := r in
  if negb (e =? 0) then ret e
  else
    let c := pcommon arguments in
    let counter :=
      (match envfilepath c with Some _ => 1 | None => 0 end)
      + (if part_specified c then 1 else 0)
      + (if current arguments then 1 else 0) in
    if counter >? 1 then
      emit (Stderr "Error, only one of -c/-f/-p can be set.") ;;; ret 1
    else
      match envfilepath c with
      | Some path => printenv_from_file path
      | None =>
          emit Init ;;;
          if negb bgenv_init then
            emit (Stderr "Error initializing FAT environment.") ;;; ret 1
          else
            (if current arguments then dump_latest_env
             else if part_specified c then dump_env_by_index (which_part c)
             else dump_envs) ;;;
            emit Finalize ;;;
            ret 0
      end.

(** [main]: the name the program was called under picks the tool. *)
Definition main (argv0 : string) (argc : Z) (opts : list (Z * string))
  : M Z :=
  if strstr argv0 "bg_setenv" then bg_setenv argc opts
  else bg_printenv argc opts.

End Tool.

(** ** A configuration and a world to run the tool in *)

(** Modelled from the spec: the constants of [envdata.h] and [ebgenv.h],
    which are not among the sources.  Spec §3 numbers the states OK = 0,
    INSTALLED = 1, TESTING = 2, FAILED = 3 and adds the sentinel UNKNOWN,
    the fifth name of [ustatemap]; [USTATE_MIN] and [USTATE_MAX] bound the
    loop of [str2ustate], which has to reach FAILED, and [ustate2str] reads
    [ustatemap] at [USTATE_MAX] (see [USTATE_MAX_forced] below).  The
    store has two slots; the flag values of the user-variable type word are
    the ones of the upstream header. *)
Definition envdata_h : Config := {|
  USTATE_MIN := 0;
  USTATE_MAX := 4;
  USTATE_UNKNOWN := 4;
  ENV_NUM_CONFIG_PARTS := 2;
  ENV_STRING_LENGTH := 255;
  USERVAR_TYPE_DEFAULT := 0;
  USERVAR_TYPE_DELETED := 2 ^ 63;
  USERVAR_TYPE_STRING_ASCII := 32;
  FAT_ENV_FILENAME := "BGENV.DAT"
|}.

Module Model.

(** Modelled from the spec: the user-variable part of [bgenv_set]
    ([libebgenv], not among the sources).  Spec §4.3: a Set "writes/overwrites
    the corresponding record field or user variable with data", and "later
    application simply overwrites the same field/variable in place"; a
    variable that is not there yet is added behind the others. *)
Fixpoint set_uservar (udata : list uservar) (k : string) (ty : Z)
    (v : list ascii) : list uservar :=
  match udata with
  | [] => [mk_uservar k ty v]
  | u :: rest =>
      if String.eqb (uv_key u) k then mk_uservar k ty v :: rest
      else u :: set_uservar rest k ty v
  end.

(** The entry of the area for the key [k], found by walking the area from
    its start (spec §3). *)
Fixpoint find_uservar (udata : list uservar) (k : string) : option uservar :=
  match udata with
  | [] => None
  | u :: rest =>
      if String.eqb (uv_key u) k then Some u else find_uservar rest k
  end.

(** The keys that name a member of the record; they are the keys under
    which the option parser files its actions. *)
Definition is_member_key (k : string) : bool :=
  String.eqb k "kernelfile" || String.eqb k "kernelparams"
  || String.eqb k "watchdog_timeout_sec" || String.eqb k "revision"
  || String.eqb k "ustate" || String.eqb k "in_progress".

(** Modelled from the spec: [bgenv_set] on the record.  A key that names a
    member overwrites the member (a number is read in decimal and cut to the
    width spec §3 gives the member), every other key overwrites or adds the
    user variable; [len] bytes of the value are stored. *)
Definition envdata_set (d : BG_ENVDATA) (k : string) (ty : Z) (v : string)
    (len : Z) : BG_ENVDATA :=
  let num := value (strtol v) in
  if String.eqb k "kernelfile" then
    mk_envdata v (kernelparams d) (in_progress d) (ustate d)
               (watchdog_timeout_sec d) (revision d) (userdata d) (crc32 d)
  else if String.eqb k "kernelparams" then
    mk_envdata (kernelfile d) v (in_progress d) (ustate d)
               (watchdog_timeout_sec d) (revision d) (userdata d) (crc32 d)
  else if String.eqb k "watchdog_timeout_sec" then
    mk_envdata (kernelfile d) (kernelparams d) (in_progress d) (ustate d)
               (num mod UINT32_WIDTH) (revision d) (userdata d) (crc32 d)
  else if String.eqb k "revision" then
    mk_envdata (kernelfile d) (kernelparams d) (in_progress d) (ustate d)
               (watchdog_timeout_sec d) (num mod UINT32_WIDTH) (userdata d)
               (crc32 d)
  else if String.eqb k "ustate" then
    mk_envdata (kernelfile d) (kernelparams d) (in_progress d)
               (num mod UINT16_WIDTH) (watchdog_timeout_sec d) (revision d)
               (userdata d) (crc32 d)
  else if String.eqb k "in_progress" then
    mk_envdata (kernelfile d) (kernelparams d) (num mod 2)
               (ustate d) (watchdog_timeout_sec d) (revision d)
               (userdata d) (crc32 d)
  else
    mk_envdata (kernelfile d) (kernelparams d) (in_progress d) (ustate d)
               (watchdog_timeout_sec d) (revision d)
               (set_uservar (userdata d) k ty (memcpy v (Z.to_nat len)))
               (crc32 d).

(** [bgenv_set] on the handle: without a key or without a record nothing is
    written. *)
Definition bgenv_set (env : BGENV) (k : option string) (ty : Z) (v : string)
    (len : Z) : BGENV :=
  match k, edata env with
  | Some k, Some d => mk_bgenv (desc env) (Some (envdata_set d k ty v len))
  | _, _ => env
  end.

(** Modelled from the spec: the global-state setter (spec §6), "a side
    channel ... distinct from writing the field directly into the in-memory
    record": the call is what the trace records, the handle is left as it
    is, and the answer is Ok. *)
Definition ebg_env_setglobalstate (env : BGENV) (u : Z) : BGENV * Z :=
  (env, 0).

(** A checksum to run examples with: the sum of the bytes. *)
Definition byte_sum (init : Z) (buf : list ascii) : Z :=
  fold_left (fun acc c => (acc + code c) mod UINT32_WIDTH) buf init.

Definition le32 (n : Z) : list ascii :=
  map (fun k => ascii_of_N (Z.to_N ((n / 2 ^ (8 * k)) mod 256))) [0; 1; 2; 3].

Definition uservar_bytes (u : uservar) : list ascii :=
  bytes_of (uv_key u) ++ le32 (uv_type u) ++ uv_value u.

(** A layout to run examples with: the members in the order of the record,
    cut or filled up to 60 bytes, and the checksum in the last four. *)
Definition body_image (d : BG_ENVDATA) : list ascii :=
  let b := bytes_of (kernelfile d) ++ bytes_of (kernelparams d)
           ++ le32 (in_progress d) ++ le32 (ustate d)
           ++ le32 (watchdog_timeout_sec d) ++ le32 (revision d)
           ++ flat_map uservar_bytes (userdata d) in
  firstn 60 (b ++ repeat NUL 60).

Definition layout : Layout := {|
  envdata_image := fun d => body_image d ++ le32 (crc32 d);
  sizeof_BG_ENVDATA := 64;
  sizeof_crc32 := 4
|}.

(** A store of two slots: slot 0 holds revision 2, slot 1 holds revision 5
    and is the latest. *)
Definition slot0 : BGENV :=
  mk_bgenv 0 (Some (mk_envdata "vmlinuz-2" "root=/dev/sda2" 0 0 30 2
                               [mk_uservar "owner" 32 (bytes_of "ann")] 17)).
Definition slot1 : BGENV :=
  mk_bgenv 1 (Some (mk_envdata "vmlinuz-4" "root=/dev/sda3" 0 0 60 5
                               [mk_uservar "owner" 32 (bytes_of "bob")] 99)).

Definition world : Collaborators :=
  Build_Collaborators
    bgenv_set ebg_env_setglobalstate byte_sum
    (* bgenv_init *) true
    (* bgenv_open_latest *) (Some slot1)
    (* bgenv_open_oldest *) (Some slot0)
    (* bgenv_open_by_index *)
    (fun i => if i =? 0 then Some slot0
              else if i =? 1 then Some slot1 else None)
    (* bgenv_write *) (fun _ => true)
    (* stat_errno *) (fun _ => Some Libc.ENOENT)
    (* stat_is_dir *) (fun _ => false)
    (* open_config_file *) (fun _ => true)
    (* fread_envdata *) (fun _ => edata slot0)
    (* fopen_wb *) (fun _ => true)
    (* fopen_errno *) (fun _ => Libc.EACCES)
    (* fwrite_envdata *) (fun _ _ => true)
    (* fwrite_errno *) (fun _ _ => Libc.ENOSPC)
    (* fclose_ok *) (fun _ => true)
    (* fclose_errno *) (fun _ => Libc.EIO)
    (* strerror *) (fun e => ("error " ++ utoa e)%string).

(** The store of [world] when its latest slot has reached the greatest
    revision of a [uint32_t]. *)
Definition slot_last : BGENV :=
  mk_bgenv 1 (Some (mk_envdata "vmlinuz-4" "root=/dev/sda3" 0 0 60 4294967295
                               [mk_uservar "owner" 32 (bytes_of "bob")] 99)).

Definition world_last : Collaborators :=
  Build_Collaborators
    bgenv_set ebg_env_setglobalstate byte_sum
    (* bgenv_init *) true
    (* bgenv_open_latest *) (Some slot_last)
    (* bgenv_open_oldest *) (Some slot0)
    (* bgenv_open_by_index *)
    (fun i => if i =? 0 then Some slot0
              else if i =? 1 then Some slot_last else None)
    (* bgenv_write *) (fun _ => true)
    (* stat_errno *) (fun _ => Some Libc.ENOENT)
    (* stat_is_dir *) (fun _ => false)
    (* open_config_file *) (fun _ => true)
    (* fread_envdata *) (fun _ => edata slot0)
    (* fopen_wb *) (fun _ => true)
    (* fopen_errno *) (fun _ => Libc.EACCES)
    (* fwrite_envdata *) (fun _ _ => true)
    (* fwrite_errno *) (fun _ _ => Libc.ENOSPC)
    (* fclose_ok *) (fun _ => true)
    (* fclose_errno *) (fun _ => Libc.EIO)
    (* strerror *) (fun e => ("error " ++ utoa e)%string).

(** The variable that the record of a handle keeps under the key [k]. *)
Definition variable (k : string) (env : BGENV) : option uservar :=
  match edata env with
  | Some d => find_uservar (userdata d) k
  | None => None
  end.

(** The process at its start. *)
Definition start : proc := mk_proc [] 0 "" [] [].

End Model.

(** * Vocabulary of the properties *)

Section Vocabulary.

Context {cfg : Config} {col : Collaborators} {lay : Layout}.

(** A string of the embedding holds no terminator. *)
Fixpoint is_cstring (s : string) : bool :=
  match s with
  | EmptyString => true
  | String c r => negb (Ascii.eqb c NUL) && is_cstring r
  end.

(** [s] with [evs] printed or called behind what is in its trace. *)
Definition log (s : proc) (evs : list event) : proc :=
  mk_proc (head s) (errno s) (strtok_save s) (heap s) (trace s ++ evs).

Definition with_errno (s : proc) (e : Z) : proc :=
  mk_proc (head s) e (strtok_save s) (heap s) (trace s).

Definition with_head (s : proc) (q : list env_action) : proc :=
  mk_proc q (errno s) (strtok_save s) (heap s) (trace s).

Definition with_heap (s : proc) (h : list bool) : proc :=
  mk_proc (head s) (errno s) (strtok_save s) h (trace s).

Definition with_save (s : proc) (p : string) : proc :=
  mk_proc (head s) (errno s) p (heap s) (trace s).

(** When [process_ustate] refuses a payload: [strtol] ran out of the range
    of [long], or it found no digit. *)
Definition refused (arg : string) : bool :=
  erange (strtol arg) || (endp (strtol arg) =? 0)%nat.

Definition set_action (k : string) (ty : Z) (buf : list ascii) : env_action :=
  mk_action (Some k) ty (Some buf) ENV_TASK_SET.

Definition del_action (k : string) (ty : Z) : env_action :=
  mk_action (Some k) ty None ENV_TASK_DEL.

(** The two ways through [journal_process_action], told apart by what they
    leave in the trace.  On the global-state path the payload is refused
    with a message and the handle stays as it is, or the global-state
    setter is called; [bgenv_set] is not called. *)
Definition global_state_path (env env' : BGENV) (evs : list event) : Prop :=
  (exists arg,
      evs = [Stderr ("Invalid value for ustate: " ++ arg)] /\ env' = env)
  \/ (exists u rest,
         evs = SetGlobalState u :: rest
         /\ env' = fst (ebg_env_setglobalstate env u)
         /\ Forall (fun e => exists msg, e = Stderr msg) rest).

(** On the ordinary path the action is handed to [bgenv_set], once, under
    its key and with its type word, and nothing else happens. *)
Definition ordinary_path (a : env_action) (env env' : BGENV)
    (evs : list event) : Prop :=
  exists v len,
    evs = [BgenvSet (key a) (type a) v len]
    /\ env' = bgenv_set env (key a) (type a) v len.

(** What one action does, as a function: the handle behind it, [errno]
    behind it and what it leaves in the trace; [None] when the action
    cannot be processed (a [NULL] key or payload of a Set, a payload
    without terminator). *)
Definition apply_action (env : BGENV) (a : env_action) (e0 : Z)
  : option (BGENV * Z * list event) :=
  match task a with
  | ENV_TASK_SET =>
      match key a, data a with
      | Some k, Some buf =>
          match cstr buf with
          | None => None
          | Some v =>
              if strncmp k "ustate" (strlen "ustate" + 1) =? 0 then
                if refused v then
                  Some (env, if erange (strtol v) then ERANGE else 0,
                        [Stderr ("Invalid value for ustate: " ++ v)])
                else
                  let u := (value (strtol v) mod ULONG_WIDTH) mod UINT16_WIDTH in
                  Some (fst (ebg_env_setglobalstate env u), 0,
                        SetGlobalState u ::
                        if negb (snd (ebg_env_setglobalstate env u) =? 0)
                        then [Stderr "Error setting global state"] else [])
              else
                let len := Z.of_nat (strlen v) + 1 in
                Some (bgenv_set env (Some k) (type a) v len, e0,
                      [BgenvSet (Some k) (type a) v len])
          end
      | _, _ => None
      end
  | ENV_TASK_DEL =>
      Some (bgenv_set env (key a) (type a) "" 1, e0,
            [BgenvSet (key a) (type a) "" 1])
  end.

(** The actions of a queue one after the other, oldest first. *)
Fixpoint apply_all (q : list env_action) (env : BGENV) (e0 : Z)
  : option (BGENV * Z * list event) :=
  match q with
  | [] => Some (env, e0, [])
  | a :: rest =>
      match apply_action env a e0 with
      | None => None
      | Some (env1, e1, evs1) =>
          match apply_all rest env1 e1 with
          | None => None
          | Some (env2, e2, evs2) => Some (env2, e2, evs1 ++ evs2)
          end
      end
  end.

(** The handle with the checksum of its record stored, as
    [update_environment] returns it. *)
Definition seal (env : BGENV) : option BGENV :=
  match edata env with
  | None => None
  | Some d => Some (mk_bgenv (desc env) (Some (set_crc32 d (checksum d))))
  end.

(** [emits P Q m]: whatever [m] adds to the trace satisfies [P], however
    [m] ends, and the value it returns satisfies [Q]. *)
Definition emits {A} (P : event -> Prop) (Q : A -> Prop) (m : M A) : Prop :=
  forall s,
    (exists evs, trace (final (m s)) = trace s ++ evs /\ Forall P evs)
    /\ (forall a s', m s = Val a s' -> Q a).

Definition any {A} : A -> Prop := fun _ => True.

(** The events of the option parser: messages, the switch to verbose
    output, and the look at the path given with -f. *)
Definition parser_event (e : event) : Prop :=
  match e with
  | Stderr _ | BeVerbose | Stat _ => True
  | _ => False
  end.

(** The events of a replay: messages and the calls that change the
    record. *)
Definition replay_event (e : event) : Prop :=
  match e with
  | Stderr _ | SetGlobalState _ | BgenvSet _ _ _ _ => True
  | _ => False
  end.

(** The calls of the storage layer: the environment is set up or shut
    down, a slot or a file is opened, read, written or closed. *)
Definition storage_event (e : event) : Prop :=
  match e with
  | Init | Finalize | OpenLatest | OpenOldest | OpenByIndex _ | Close _
  | Write _ | FileRead _ | FileWrite _ _ => True
  | _ => False
  end.

(** A record as [update_environment] leaves it: the checksum of the record
    is stored in its [crc32] member. *)
Definition sealed_record (d : BG_ENVDATA) : Prop :=
  exists d0, d = set_crc32 d0 (checksum d0).

Definition sealed_handle (env : BGENV) : Prop :=
  exists d, edata env = Some d /\ sealed_record d.

(** A record that reaches the storage layer or a file is sealed. *)
Definition sealed (e : event) : Prop :=
  match e with
  | Write env => sealed_handle env
  | FileWrite _ d => sealed_record d
  | _ => True
  end.

(** [crc32] is the last member of [BG_ENVDATA]: the bytes in front of it do
    not change when it is written. *)
Definition crc32_is_last_member : Prop :=
  forall d c,
    firstn (sizeof_BG_ENVDATA - sizeof_crc32) (envdata_image (set_crc32 d c))
    = firstn (sizeof_BG_ENVDATA - sizeof_crc32) (envdata_image d).

(** The words of the spec on the checksum, for comparison with what
    [update_environment] stores: it is taken "over the serialized bytes
    (record minus crc field)".  [fields_image d] stands for these bytes: the
    record is serialized as [fields_image d] followed by the bytes of its
    [crc32] field, and [fields_image d] does not depend on that field. *)
Definition serializes (fields_image : BG_ENVDATA -> list ascii) : Prop :=
  (forall d, exists crc_image,
      envdata_image d = fields_image d ++ crc_image
      /\ List.length crc_image = sizeof_crc32)
  /\ (forall d, List.length (envdata_image d) = sizeof_BG_ENVDATA)
  /\ (forall d c, fields_image (set_crc32 d c) = fields_image d).

(** The checksum as the spec defines it: the CRC-32, started at 0, of the
    serialized record without its crc field. *)
Definition spec_crc (fields_image : BG_ENVDATA -> list ascii)
    (d : BG_ENVDATA) : Z :=
  zlib_crc32 0 (fields_image d).

(** The stored checksum is the one of the record it is stored in. *)
Definition crc_valid (fields_image : BG_ENVDATA -> list ascii)
    (d : BG_ENVDATA) : Prop :=
  crc32 d = spec_crc fields_image d.

Definition persisted_valid (fields_image : BG_ENVDATA -> list ascii)
    (e : event) : Prop :=
  match e with
  | Write env => exists d, edata env = Some d /\ crc_valid fields_image d
  | FileWrite _ d => crc_valid fields_image d
  | _ => True
  end.

(** [arg] is the text of an [int]: digits behind optional blanks and a
    sign, nothing behind them, and a value in the range of [int]. *)
Definition int_text (arg : string) : bool :=
  let r := strtol arg in
  negb (erange r) && negb (endp r =? 0)%nat
  && Ascii.eqb (char_at arg (endp r)) NUL
  && (INT_MIN <=? value r) && (value r <=? INT_MAX).

(** The next [n] requests to the allocator are served. *)
Definition serves (n : nat) (s : proc) : Prop :=
  forallb (fun b => b) (firstn n (heap s)) = true.

(** [s] behind [n] requests. *)
Definition served (n : nat) (s : proc) : proc :=
  with_heap s (skipn n (heap s)).

(** [name] is a prefix of [s], letters compared without regard to case. *)
Fixpoint ci_prefix (name s : string) : bool :=
  match name with
  | EmptyString => true
  | String a name' =>
      match s with
      | EmptyString => false
      | String b s' => (tolower b =? tolower a) && ci_prefix name' s'
      end
  end.

(** The values that the headers give the three constants of the name
    table. *)
Definition header_ustates (cfg : Config) : Prop :=
  USTATE_MIN = 0 /\ USTATE_MAX = 4 /\ USTATE_UNKNOWN = 4.

(** The index of the first of the four state names that [s] begins with,
    and 4, the index of "UNKNOWN", when it begins with none. *)
Definition first_match (s : string) : Z :=
  if ci_prefix "OK" s then 0
  else if ci_prefix "INSTALLED" s then 1
  else if ci_prefix "TESTING" s then 2
  else if ci_prefix "FAILED" s then 3
  else 4.

Definition invalid_ustate_msg : string :=
  "Invalid ustate value specified. Possible values: 0 (OK), 1 (INSTALLED), 2 (TESTING), 3 (FAILED)".

(** The index that -p names is taken: it is the text of an [int] and lies
    in [0, ENV_NUM_CONFIG_PARTS). *)
Definition part_index_ok (arg : string) : bool :=
  int_text arg && (value (strtol arg) >=? 0)
  && (value (strtol arg) <? ENV_NUM_CONFIG_PARTS).

(** [n] times the character '='. *)
Fixpoint eqs (n : nat) : string :=
  match n with
  | O => EmptyString
  | S n' => String "=" (eqs n')
  end.

(** [s] holds one of the characters of [delim]. *)
Fixpoint has_delim (delim s : string) : bool :=
  match s with
  | EmptyString => false
  | String c r => is_delim delim c || has_delim delim r
  end.

(** The values that the global-state setter was called with, oldest
    first. *)
Definition global_states (tr : list event) : list Z :=
  flat_map (fun e => match e with SetGlobalState u => [u] | _ => [] end) tr.

(** [bgenv_set] overwrites what an earlier call stored under the key. *)
Definition overwrites (k : string) : Prop :=
  forall env t1 x1 l1 t2 x2 l2,
    bgenv_set (bgenv_set env (Some k) t1 x1 l1) (Some k) t2 x2 l2
    = bgenv_set env (Some k) t2 x2 l2.

(** [f] shows what is stored under the key [k]: a call of [bgenv_set]
    under [k] on a handle with a record decides what [f] shows, whatever
    was stored before, and nothing else that the replay does changes it: a
    call of [bgenv_set] under another key or without one, the global-state
    setter, the checksum.  The calls leave a handle its record. *)
Definition stored_under {X} (k : string) (f : BGENV -> X) : Prop :=
  (forall env ko ty v len,
      edata env <> None -> edata (bgenv_set env ko ty v len) <> None)
  /\ (forall env u,
         edata env <> None -> edata (fst (ebg_env_setglobalstate env u)) <> None)
  /\ (forall env env' ty v len,
         edata env <> None -> edata env' <> None ->
         f (bgenv_set env (Some k) ty v len)
         = f (bgenv_set env' (Some k) ty v len))
  /\ (forall env ko ty v len,
         ko <> Some k -> f (bgenv_set env ko ty v len) = f env)
  /\ (forall env u, f (fst (ebg_env_setglobalstate env u)) = f env)
  /\ (forall dsc d c,
         f (mk_bgenv dsc (Some (set_crc32 d c))) = f (mk_bgenv dsc (Some d))).

(** The event is no call of [bgenv_set] under the key [k]. *)
Definition not_set_of (k : string) (e : event) : Prop :=
  forall ty v len, e <> BgenvSet (Some k) ty v len.

(** The record of the new slot before the journal is replayed: the copy of
    the latest record with the revision counted up. *)
Definition baseline (current : BG_ENVDATA) : BG_ENVDATA :=
  set_revision current ((revision current + 1) mod UINT32_WIDTH).

(** A view of the handle that replaying [q] leaves alone: no action of [q]
    changes it, and storing the checksum does not. *)
Definition untouched {X} (f : BGENV -> X) (q : list env_action) : Prop :=
  (forall a env0 e0 env1 e1 evs,
      In a q -> apply_action env0 a e0 = Some (env1, e1, evs) ->
      f env1 = f env0)
  /\ (forall env0 env1, seal env0 = Some env1 -> f env1 = f env0).

(** A run of the program stops on its command line: it does not end with
    0, and it leaves no call of the storage layer in the trace. *)
Definition stops_before_io (run : M Z) (st : proc) : Prop :=
  (forall st', run st <> Val 0 st')
  /\ exists evs,
       trace (final (run st)) = trace st ++ evs
       /\ Forall (fun e => ~ storage_event e) evs.

(** ** Invariants

    [hoare P m Q]: when [m] starts in a state that has [P] and returns, the
    value and the state that it returns have [Q]. *)
Definition hoare {A} (P : proc -> Prop) (m : M A) (Q : A -> proc -> Prop)
  : Prop :=
  forall s, P s -> forall a s', m s = Val a s' -> Q a s'.

(** The queue of the journal is [q]. *)
Definition head_is (q : list env_action) : proc -> Prop :=
  fun s => head s = q.

(** An action that [journal_process_action] can work on: a Set has a key
    and a payload that holds a terminator. *)
Definition replayable (a : env_action) : Prop :=
  match task a with
  | ENV_TASK_SET =>
      key a <> None /\ exists buf v, data a = Some buf /\ cstr buf = Some v
  | ENV_TASK_DEL => True
  end.

(** The steps that leave the queue alone. *)
Definition keeps_head {A} (m : M A) : Prop :=
  forall q, hoare (head_is q) m (fun _ => head_is q).

(** The action that [journal_add_action] files for its arguments. *)
Definition filed (task : BGENV_TASK) (key : option string) (ty : Z)
    (data : option string) (datalen : nat) : env_action :=
  mk_action key ty
    match data, datalen with
    | Some d, S _ => Some (memcpy d datalen)
    | _, _ => None
    end task.

(** What an option does to the queue: nothing, or, with the answer 0, one
    action behind the others. *)
Definition files_one {A} (q : list env_action) (r : Z * A) (s' : proc)
  : Prop :=
  head s' = q
  \/ (fst r = 0 /\ exists act, head s' = q ++ [act] /\ replayable act).

(** ** The arguments behind an option

    The answers of the parser on which [argp_parse] goes on. *)
Definition goes_on (e : Z) : Prop := e = 0 \/ e = ARGP_ERR_UNKNOWN.

(** What [parse_setenv_opt] does to the arguments: no option takes back
    [auto_update] or [part_specified], -u and -p set them, and the path of
    -f is there as long as the parse goes on. *)
Definition setenv_args_step (key : Z) (a : arguments_setenv)
    (r : Z * arguments_setenv) : Prop :=
  (auto_update a = true -> auto_update (snd r) = true)
  /\ (key = chr "u" -> auto_update (snd r) = true)
  /\ (part_specified (common a) = true ->
      part_specified (common (snd r)) = true)
  /\ (key = chr "p" -> fst r = 0 -> part_specified (common (snd r)) = true)
  /\ (envfilepath (common a) <> None -> goes_on (fst r) ->
      envfilepath (common (snd r)) <> None)
  /\ (key = chr "f" -> goes_on (fst r) ->
      envfilepath (common (snd r)) <> None).

(** What [parse_printenv_opt] does to the arguments. *)
Definition printenv_args_step (key : Z) (a : arguments_printenv)
    (r : Z * arguments_printenv) : Prop :=
  (current a = true -> current (snd r) = true)
  /\ (key = chr "c" -> current (snd r) = true)
  /\ (part_specified (pcommon a) = true ->
      part_specified (pcommon (snd r)) = true)
  /\ (key = chr "p" -> fst r = 0 -> part_specified (pcommon (snd r)) = true)
  /\ (envfilepath (pcommon a) <> None -> goes_on (fst r) ->
      envfilepath (pcommon (snd r)) <> None)
  /\ (key = chr "f" -> goes_on (fst r) ->
      envfilepath (pcommon (snd r)) <> None).

(** ** Kinds of events

    The calls of the FAT environment: it is set up or shut down, a slot is
    opened, closed or written. *)
Definition fat_event (e : event) : Prop :=
  match e with
  | Init | Finalize | OpenLatest | OpenOldest | OpenByIndex _ | Close _
  | Write _ => True
  | _ => False
  end.

(** An action that the replay hands to [bgenv_set]: it can be replayed,
    and its key is a text other than "ustate". *)
Definition ordinary (a : env_action) : Prop :=
  replayable a
  /\ exists k, key a = Some k /\ is_cstring k = true /\ k <> "ustate".

(** The event is no call of the global-state setter. *)
Definition no_global_state (e : event) : Prop :=
  match e with
  | SetGlobalState _ => False
  | _ => True
  end.

(** The event is no call of the FAT environment, the global-state setter
    among them. *)
Definition off_environment (e : event) : Prop :=
  ~ fat_event e /\ no_global_state e.

(** The options that file a Set on "ustate", or an action under a key of
    the user's choice. *)
Definition files_ustate (key : Z) : Prop :=
  key = chr "c" \/ key = chr "s" \/ key = chr "x".

(** The calls that change a record, a slot or a file. *)
Definition mutating (e : event) : Prop :=
  match e with
  | SetGlobalState _ | BgenvSet _ _ _ _ | Write _ | FileWrite _ _ => True
  | _ => False
  end.

(** A write that the storage layer or stdio reported as done. *)
Definition written (e : event) : Prop :=
  match e with
  | Write env => bgenv_write env = true
  | FileWrite path d => fwrite_envdata path d = true
  | _ => False
  end.

(** The trace of [s] goes on from [t0]. *)
Definition since (t0 : list event) (s : proc) : Prop :=
  exists evs, trace s = t0 ++ evs.

(** The trace of [s] goes on from [t0], and a write was done on the
    way. *)
Definition wrote_since (t0 : list event) (s : proc) : Prop :=
  exists evs, trace s = t0 ++ evs /\ Exists written evs.

(** ** The list of -o

    The names that -o knows. *)
Definition field_names : list string :=
  ["in_progress"; "revision"; "kernel"; "kernelargs"; "watchdog_timeout";
   "ustate"; "user"].

(** The texts between the commas of [s]. *)
Fixpoint tokens (s : string) : list string :=
  match s with
  | EmptyString => [EmptyString]
  | String c r =>
      if Ascii.eqb c "," then EmptyString :: tokens r
      else match tokens r with
           | t :: l => String c t :: l
           | [] => [String c EmptyString]
           end
  end.

(** The name is one of the texts of [l]. *)
Definition named (name : string) (l : list string) : bool :=
  existsb (String.eqb name) l.

(** The fields whose names are in [l]. *)
Definition selects (l : list string) : fields :=
  mk_fields (named "in_progress" l) (named "revision" l) (named "kernel" l)
            (named "kernelargs" l) (named "watchdog_timeout" l)
            (named "ustate" l) (named "user" l).

(** A text between two commas that -o takes: nothing, or a name. *)
Definition known (t : string) : Prop := t = "" \/ In t field_names.

(** The field that a name stands for is set. *)
Definition set_field (t : string) (o : fields) : fields :=
  mk_fields (f_in_progress o || String.eqb t "in_progress")
            (f_revision o || String.eqb t "revision")
            (f_kernel o || String.eqb t "kernel")
            (f_kernelargs o || String.eqb t "kernelargs")
            (f_wdog_timeout o || String.eqb t "watchdog_timeout")
            (f_ustate o || String.eqb t "ustate")
            (f_user o || String.eqb t "user").

(** The loop of [parse_output_fields], token by token. *)
Fixpoint scan (l : list string) (o : fields) (s : proc)
  : outcome (Z * fields) :=
  match l with
  | [] => Val (0, o) s
  | t :: l' =>
      if String.eqb t "" then scan l' o s
      else if existsb (String.eqb t) field_names then scan l' (set_field t o) s
      else Val (1, o) (log s [Stderr ("Unknown output field: " ++ t)])
  end.

(** The fields of [o] and the ones named in [l]. *)
Definition merge (o : fields) (l : list string) : fields :=
  mk_fields (f_in_progress o || named "in_progress" l)
            (f_revision o || named "revision" l)
            (f_kernel o || named "kernel" l)
            (f_kernelargs o || named "kernelargs" l)
            (f_wdog_timeout o || named "watchdog_timeout" l)
            (f_ustate o || named "ustate" l)
            (f_user o || named "user" l).

(** The pointer is not [NULL]. *)
Definition is_some {A} (x : option A) : bool :=
  match x with Some _ => true | None => false end.

(** ** Handles

    A call that opened a slot: the storage layer answered with a handle. *)
Definition opened (e : event) : bool :=
  match e with
  | OpenLatest => is_some bgenv_open_latest
  | OpenOldest => is_some bgenv_open_oldest
  | OpenByIndex i => is_some (bgenv_open_by_index i)
  | _ => false
  end.

(** A call that closed a handle. *)
Definition closed (e : event) : bool :=
  match e with
  | Close (Some _) => true
  | _ => false
  end.

(** The trace of [s] goes on from [t0] with [k] more handles opened than
    closed. *)
Definition open_handles (t0 : list event) (k : nat) (s : proc) : Prop :=
  exists evs,
    trace s = t0 ++ evs
    /\ List.length (filter opened evs)
       = (List.length (filter closed evs) + k)%nat.

(** An event that neither opens nor closes a handle. *)
Definition neutral (e : event) : Prop := opened e = false /\ closed e = false.

(** The slot [j] can be opened and has a record. *)
Definition readable (j : Z) : Prop :=
  exists env d, bgenv_open_by_index j = Some env /\ edata env = Some d.

(** The slots [i], [i + 1], ... [i + k - 1], each opened and closed. *)
Definition listed (i : Z) (k : nat) : list event :=
  flat_map (fun j => [OpenByIndex j; Close (bgenv_open_by_index j)])
           (map (fun j => i + Z.of_nat j) (seq 0 k)).

(** ** The file of -f

    What [dumpenv_to_file] leaves in the trace behind the replay, for the
    record [d] that it has to write to [path]. *)
Definition file_written (path : string) (d : BG_ENVDATA) : list event :=
  if fopen_wb path then
    FileWrite path d
    :: (if fwrite_envdata path d then []
        else [Stderr ("Error writing to output file: "
                      ++ strerror (fwrite_errno path d))])
    ++ (if fclose_ok path then [] else [Stderr "Error closing output file."])
  else [Stderr ("Error opening output file " ++ path
                ++ " (" ++ strerror (fopen_errno path) ++ ").")].

(** The file was opened, written and closed without an error. *)
Definition file_done (path : string) (d : BG_ENVDATA) : bool :=
  fopen_wb path && fwrite_envdata path d && fclose_ok path.

End Vocabulary.

(** * Properties *)

(** ** Strings *)

Lemma code_inj (a b : ascii) : code a = code b -> a = b.
Proof.
  unfold code. intros H. apply N2Z.inj in H.
  rewrite <- (ascii_N_embedding a), <- (ascii_N_embedding b). now rewrite H.
Qed.

Lemma code_range (c : ascii) : 0 <= code c < 256.
Proof.
  unfold code. pose proof (N_ascii_bounded c) as H. lia.
Qed.

Lemma code_NUL (c : ascii) : code c = 0 -> c = NUL.
Proof. intros H. apply code_inj. exact H. Qed.

Lemma eqb_NUL_code (c : ascii) : Ascii.eqb c NUL = false -> code c <> 0.
Proof.
  intros H E. apply code_NUL in E. subst c. discriminate H.
Qed.

(** Comparing one character more than [t] is long is comparing for
    equality. *)
Lemma strncmp_exact (t s : string) :
  is_cstring t = true -> is_cstring s = true ->
  strncmp s t (S (String.length t)) = 0 <-> s = t.
Proof.
  revert s. induction t as [|c t IH]; intros s Ht Hs.
  - destruct s as [|a s]; simpl.
    + tauto.
    + simpl in Hs. apply andb_prop in Hs as [Ha _].
      apply negb_true_iff, eqb_NUL_code in Ha.
      split; [lia | discriminate].
  - simpl in Ht. apply andb_prop in Ht as [Hc Ht].
    apply negb_true_iff, eqb_NUL_code in Hc.
    destruct s as [|a s].
    + simpl. split; [lia | discriminate].
    + simpl in Hs. apply andb_prop in Hs as [_ Hs].
      change (strncmp (String a s) (String c t) (S (String.length (String c t))))
        with (if code a =? code c then strncmp s t (S (String.length t))
              else code a - code c).
      destruct (code a =? code c) eqn:E.
      * apply Z.eqb_eq, code_inj in E. subst c.
        rewrite (IH s Ht Hs). split; [congruence | now inversion 1].
      * apply Z.eqb_neq in E. split; [lia |].
        inversion 1; subst. now elim E.
Qed.

(** ** The process state *)

Lemma log_nil (s : proc) : log s [] = s.
Proof. destruct s; unfold log; simpl. now rewrite app_nil_r. Qed.

Lemma log_log (s : proc) (e1 e2 : list event) :
  log (log s e1) e2 = log s (e1 ++ e2).
Proof. unfold log; simpl. now rewrite app_assoc. Qed.

Ltac run :=
  unfold bind, ret, emit, exit, fault, get_errno, set_errno, get_head,
    set_head, get_save, set_save; cbn [fst snd].

(** ** The key "ustate" *)

Section Journal.

Context {cfg : Config} {col : Collaborators} {lay : Layout}.

Lemma strtol_erange (arg : string) :
  erange (strtol arg) = true ->
  value (strtol arg) = LONG_MAX \/ value (strtol arg) = LONG_MIN.
Proof.
  unfold strtol.
  destruct (drop (count_space arg) arg) as [|c r] eqn:E.
  - simpl. discriminate.
  - set (x := match String c r with
              | String "-" r0 => (true, 1%nat, r0)
              | String "+" r0 => (false, 1%nat, r0)
              | _ => (false, 0%nat, String c r)
              end).
    destruct x as [[neg sl] s2].
    destruct (digits s2 0) as [n v]. destruct n; [discriminate|].
    destruct (_ >? _); simpl; [auto|].
    destruct (_ <? _); simpl; [auto | discriminate].
Qed.

Lemma process_ustate_refused (env : BGENV) (arg : string) (s : proc) :
  refused arg = true ->
  process_ustate env arg s =
    Val env (log (with_errno s (if erange (strtol arg) then ERANGE else 0))
                 [Stderr ("Invalid value for ustate: " ++ arg)]).
Proof.
  unfold refused, process_ustate. intros H. run.
  destruct (erange (strtol arg)) eqn:E; cbn.
  - destruct (strtol_erange arg E) as [-> | ->]; reflexivity.
  - simpl in H. rewrite H. reflexivity.
Qed.

Lemma process_ustate_accepted (env : BGENV) (arg : string) (s : proc) :
  refused arg = false ->
  let u := (value (strtol arg) mod ULONG_WIDTH) mod UINT16_WIDTH in
  process_ustate env arg s =
    Val (fst (ebg_env_setglobalstate env u))
        (log (with_errno s 0)
             (SetGlobalState u ::
              if negb (snd (ebg_env_setglobalstate env u) =? 0)
              then [Stderr "Error setting global state"] else [])).
Proof.
  intros H u. unfold refused in H. unfold process_ustate. run.
  apply orb_false_elim in H as [E N]. rewrite E, N. cbn.
  fold u. destruct (ebg_env_setglobalstate env u) as [env' res]. cbn.
  destruct (res =? 0); cbn; unfold log, with_errno; cbn;
    rewrite <- ?app_assoc; reflexivity.
Qed.

End Journal.

Section Process.

Context {cfg : Config} {col : Collaborators} {lay : Layout}.

Lemma process_set_ustate (env : BGENV) (ty : Z) (buf : list ascii)
    (v : string) (s : proc) :
  cstr buf = Some v ->
  journal_process_action env (set_action "ustate" ty buf) s =
    process_ustate env v s.
Proof.
  intros Hv. unfold journal_process_action, set_action. cbn.
  now rewrite Hv.
Qed.

Lemma process_set_ordinary (env : BGENV) (k : string) (ty : Z)
    (buf : list ascii) (v : string) (s : proc) :
  is_cstring k = true -> k <> "ustate" -> cstr buf = Some v ->
  let len := Z.of_nat (strlen v) + 1 in
  journal_process_action env (set_action k ty buf) s =
    Val (bgenv_set env (Some k) ty v len) (log s [BgenvSet (Some k) ty v len]).
Proof.
  intros Hk Hne Hv len.
  unfold journal_process_action, set_action.
  cbn [task key data type].
  destruct (strncmp k "ustate" (strlen "ustate" + 1) =? 0) eqn:E.
  - apply Z.eqb_eq in E. apply (strncmp_exact "ustate" k eq_refl Hk) in E.
    contradiction.
  - rewrite Hv. reflexivity.
Qed.

Lemma process_del (env : BGENV) (a : env_action) (s : proc) :
  task a = ENV_TASK_DEL ->
  journal_process_action env a s =
    Val (bgenv_set env (key a) (type a) "" 1)
        (log s [BgenvSet (key a) (type a) "" 1]).
Proof.
  intros H. unfold journal_process_action. rewrite H. reflexivity.
Qed.

(** What [process_ustate] leaves in the trace is an error message or the
    call of the global-state setter, never a call of [bgenv_set]. *)
Lemma process_ustate_trace (env : BGENV) (arg : string) (s : proc) :
  exists env' e ev evs,
    process_ustate env arg s = Val env' (log (with_errno s e) (ev :: evs))
    /\ (forall k ty v len, ev <> BgenvSet k ty v len).
Proof.
  destruct (refused arg) eqn:R.
  - rewrite (process_ustate_refused env arg s R).
    do 4 eexists. split; [reflexivity | discriminate].
  - rewrite (process_ustate_accepted env arg s R).
    do 4 eexists. split; [reflexivity | discriminate].
Qed.

(** C9, as the code has it.  An action that is replayed takes the
    global-state path exactly when it is a Set and its key is the string
    "ustate", the terminator included in the comparison.  Every other
    action is handed to [bgenv_set]: a Set under another key, one that only
    begins with "ustate" among them, with its payload, and a Delete under
    any key, "ustate" among them, with the empty string. *)
Theorem ustate_key_is_exact (env : BGENV) (a : env_action) (k : string)
    (s : proc) :
  key a = Some k -> is_cstring k = true -> replayable a ->
  exists env' s' evs,
    journal_process_action env a s = Val env' s'
    /\ trace s' = trace s ++ evs
    /\ (global_state_path env env' evs
        <-> task a = ENV_TASK_SET /\ k = "ustate")
    /\ (ordinary_path a env env' evs
        <-> ~ (task a = ENV_TASK_SET /\ k = "ustate"))
    /\ (task a = ENV_TASK_SET -> k <> "ustate" ->
        forall buf v, data a = Some buf -> cstr buf = Some v ->
        env' = bgenv_set env (Some k) (type a) v (Z.of_nat (strlen v) + 1)
        /\ evs = [BgenvSet (Some k) (type a) v (Z.of_nat (strlen v) + 1)])
    /\ (task a = ENV_TASK_DEL ->
        env' = bgenv_set env (Some k) (type a) "" 1
        /\ evs = [BgenvSet (Some k) (type a) "" 1]).
Proof.
  intros Hkey Hk Hr. destruct a as [ky ty dt tk]. cbn [key] in Hkey.
  subst ky. unfold replayable in Hr. cbn [task key data type] in *.
  destruct tk.
  - destruct Hr as (_ & buf & v & -> & Hv).
    destruct (string_dec k "ustate") as [-> | Hne].
    + change (mk_action (Some "ustate") ty (Some buf) ENV_TASK_SET)
        with (set_action "ustate" ty buf).
      rewrite (process_set_ustate env ty buf v s Hv).
      destruct (refused v) eqn:R.
      * rewrite (process_ustate_refused env v s R).
        do 3 eexists. split; [reflexivity|]. split; [reflexivity|].
        split; [|split; [|split]].
        -- split; [now split|]. intros _. left. now exists v.
        -- split; [|intros H; now elim H].
           intros (v0 & len & [=] & _).
        -- intros _ H. now elim H.
        -- discriminate.
      * rewrite (process_ustate_accepted env v s R).
        do 3 eexists. split; [reflexivity|]. split; [reflexivity|].
        split; [|split; [|split]].
        -- split; [now split|]. intros _. right. do 2 eexists.
           split; [reflexivity|]. split; [reflexivity|].
           destruct (negb _); repeat constructor. now eexists.
        -- split; [|intros H; now elim H].
           intros (v0 & len & [=] & _).
        -- intros _ H. now elim H.
        -- discriminate.
    + change (mk_action (Some k) ty (Some buf) ENV_TASK_SET)
        with (set_action k ty buf).
      rewrite (process_set_ordinary env k ty buf v s Hk Hne Hv).
      do 3 eexists. split; [reflexivity|]. split; [reflexivity|].
      split; [|split; [|split]].
      -- split; [|intros [_ H]; contradiction].
         intros [(arg & [=] & _) | (u & rest & [=] & _)].
      -- split; [intros _ [_ H]; contradiction|]. intros _.
         do 2 eexists. split; reflexivity.
      -- intros _ _ buf0 v0 [= <-] Hv0. rewrite Hv in Hv0.
         injection Hv0 as <-. split; reflexivity.
      -- discriminate.
  - rewrite (process_del env (mk_action (Some k) ty dt ENV_TASK_DEL) s
               eq_refl).
    cbn [key type].
    do 3 eexists. split; [reflexivity|]. split; [reflexivity|].
    split; [|split; [|split]].
    + split; [|intros [H _]; discriminate].
      intros [(arg & [=] & _) | (u & rest & [=] & _)].
    + split; [intros _ [H _]; discriminate|]. intros _.
      do 2 eexists. split; reflexivity.
    + discriminate.
    + intros _. split; reflexivity.
Qed.

(** An action under the key "ustate2" is written as a variable of that
    name. *)
Lemma ustate2_is_ordinary (env : BGENV) (ty : Z) (s : proc) :
  journal_process_action env (set_action "ustate2" ty (bytes_of "x")) s =
    Val (bgenv_set env (Some "ustate2") ty "x" 2)
        (log s [BgenvSet (Some "ustate2") ty "x" 2]).
Proof. reflexivity. Qed.

End Process.

(** The witness of [ustate_key_is_exact]: a Set under the key "ustate2"
    goes to [bgenv_set]. *)
Lemma ustate_key_is_exact_witness :
  exists env' s' evs,
    @journal_process_action Model.world Model.slot0
      (set_action "ustate2" 32 (bytes_of "x")) Model.start = Val env' s'
    /\ trace s' = trace Model.start ++ evs
    /\ env' = Model.bgenv_set Model.slot0 (Some "ustate2") 32 "x" 2
    /\ evs = [BgenvSet (Some "ustate2") 32 "x" 2]
    /\ ~ @global_state_path Model.world Model.slot0 env' evs.
Proof.
  assert (R : replayable (set_action "ustate2" 32 (bytes_of "x"))).
  { split; [discriminate|]. exists (bytes_of "x"), "x". now split. }
  assert (N : "ustate2" <> "ustate") by discriminate.
  destruct (@ustate_key_is_exact Model.world Model.slot0
              (set_action "ustate2" 32 (bytes_of "x")) "ustate2" Model.start
              eq_refl eq_refl R)
    as (env' & s' & evs & H & Ht & Hg & _ & Hset & _).
  exists env', s', evs. split; [exact H|]. split; [exact Ht|].
  destruct (Hset eq_refl N (bytes_of "x") "x" eq_refl eq_refl) as [He Hv].
  split; [exact He|]. split; [exact Hv|].
  intros G. apply Hg in G as [_ G]. exact (N G).
Defined.

(** C9, as the spec has it, fails for a Delete: the key "ustate" alone
    does not take an action to the global-state path.  The command line
    -x ustate files a Delete under exactly that key, and the replay hands
    it to [bgenv_set] with the empty string; the global-state setter is
    not called. *)
Lemma delete_of_ustate_goes_to_bgenv_set :
  head (final (argp_parse (@parse_setenv_opt envdata_h Model.world)
                 [(chr "x", "ustate")] zero_arguments Model.start))
  = [del_action "ustate" (Z.lor 0 (2 ^ 63))]
  /\ @journal_process_action Model.world Model.slot0
       (del_action "ustate" (Z.lor 0 (2 ^ 63))) Model.start
     = Val (Model.bgenv_set Model.slot0 (Some "ustate") (Z.lor 0 (2 ^ 63))
              "" 1)
           (log Model.start
              [BgenvSet (Some "ustate") (Z.lor 0 (2 ^ 63)) "" 1])
  /\ trace (final (@bg_setenv envdata_h Model.world Model.layout 3
                     [(chr "x", "ustate")] Model.start))
     = [Init; OpenLatest;
        BgenvSet (Some "ustate") (Z.lor 0 (2 ^ 63)) "" 1;
        Write (mk_bgenv 1
                 (option_map
                    (fun d => set_crc32 d
                                (@checksum Model.world Model.layout d))
                    (edata (Model.bgenv_set Model.slot1 (Some "ustate")
                              (Z.lor 0 (2 ^ 63)) "" 1))));
        Close (Some (mk_bgenv 1
                 (option_map
                    (fun d => set_crc32 d
                                (@checksum Model.world Model.layout d))
                    (edata (Model.bgenv_set Model.slot1 (Some "ustate")
                              (Z.lor 0 (2 ^ 63)) "" 1)))));
        Finalize]
  /\ global_states
       (trace (final (@bg_setenv envdata_h Model.world Model.layout 3
                        [(chr "x", "ustate")] Model.start)))
     = [].
Proof.
  split; [vm_compute; reflexivity|]. split; [vm_compute; reflexivity|].
  split; vm_compute; reflexivity.
Qed.

(** ** Replay *)

Section Replay.

Context {cfg : Config} {col : Collaborators} {lay : Layout}.

Lemma with_errno_same (s : proc) : with_errno s (errno s) = s.
Proof. now destruct s. Qed.

Lemma process_apply (env : BGENV) (a : env_action) (s : proc) :
  journal_process_action env a s =
    match apply_action env a (errno s) with
    | Some (env', e, evs) => Val env' (log (with_errno s e) evs)
    | None => Fault s
    end.
Proof.
  unfold journal_process_action, apply_action.
  destruct (task a).
  - destruct (key a) as [k|]; [|reflexivity].
    destruct (strncmp k "ustate" (strlen "ustate" + 1) =? 0).
    + destruct (data a) as [buf|]; [|reflexivity].
      destruct (cstr buf) as [v|]; [|reflexivity].
      destruct (refused v) eqn:R.
      * apply process_ustate_refused, R.
      * apply process_ustate_accepted, R.
    + destruct (data a) as [buf|]; [|reflexivity].
      destruct (cstr buf) as [v|]; [|reflexivity].
      run. now rewrite with_errno_same.
  - run. now rewrite with_errno_same.
Qed.

Lemma apply_all_app (q1 q2 : list env_action) (env : BGENV) (e0 : Z) :
  apply_all (q1 ++ q2) env e0 =
    match apply_all q1 env e0 with
    | None => None
    | Some (env1, e1, evs1) =>
        match apply_all q2 env1 e1 with
        | None => None
        | Some (env2, e2, evs2) => Some (env2, e2, evs1 ++ evs2)
        end
    end.
Proof.
  revert env e0. induction q1 as [|a q1 IH]; intros env e0; simpl.
  - destruct (apply_all q2 env e0) as [[[? ?] ?]|]; reflexivity.
  - destruct (apply_action env a e0) as [[[env1 e1] evs1]|]; [|reflexivity].
    rewrite IH.
    destruct (apply_all q1 env1 e1) as [[[env2 e2] evs2]|]; [|reflexivity].
    destruct (apply_all q2 env2 e2) as [[[env3 e3] evs3]|]; [|reflexivity].
    now rewrite app_assoc.
Qed.

(** One round of the loop. *)
Lemma drain_round (n : nat) (env : BGENV) (s : proc) :
  drain (S n) env s =
    match head s with
    | [] => Val env s
    | a :: _ =>
        match journal_process_action env a s with
        | Val env' s' => drain n env' (with_head s' (tl (head s')))
        | Exit c s' => Exit c s'
        | Fault s' => Fault s'
        end
    end.
Proof.
  cbn [drain]. unfold bind, get_head, set_head, ret.
  destruct (head s) as [|a q]; [reflexivity|].
  destruct (journal_process_action env a s); reflexivity.
Qed.

(** The loop of [update_environment] with enough rounds for the queue works
    through the queue from its head and leaves it empty. *)
Lemma drain_apply_all (n : nat) (env : BGENV) (s : proc) :
  (List.length (head s) <= n)%nat ->
  match apply_all (head s) env (errno s) with
  | Some (env', e, evs) =>
      drain n env s = Val env' (with_head (log (with_errno s e) evs) [])
  | None => exists s', drain n env s = Fault s'
  end.
Proof.
  revert env s. induction n as [|n IH]; intros env s Hn.
  - destruct (head s) as [|a q] eqn:Hq; [|simpl in Hn; lia].
    simpl. unfold ret. f_equal.
    destruct s; unfold with_head, log, with_errno; simpl in *.
    now rewrite app_nil_r, Hq.
  - rewrite drain_round.
    destruct (head s) as [|a q] eqn:Hq.
    + simpl. f_equal.
      destruct s; unfold with_head, log, with_errno; simpl in *.
      now rewrite app_nil_r, Hq.
    + rewrite process_apply. cbn [apply_all].
      destruct (apply_action env a (errno s)) as [[[env1 e1] evs1]|];
        [|eexists; reflexivity].
      set (s1 := with_head (log (with_errno s e1) evs1)
                           (tl (head (log (with_errno s e1) evs1)))).
      assert (Hs1 : head s1 = q) by (unfold s1; simpl; now rewrite Hq).
      assert (H1 : (List.length (head s1) <= n)%nat)
        by (rewrite Hs1; simpl in Hn; lia).
      specialize (IH env1 s1 H1). rewrite Hs1 in IH.
      change (errno s1) with e1 in IH.
      destruct (apply_all q env1 e1) as [[[env2 e2] evs2]|].
      * rewrite IH. f_equal. unfold with_head, log, with_errno, s1; simpl.
        now rewrite app_assoc.
      * exact IH.
Qed.

Lemma update_environment_apply_all (env : BGENV) (verbose : bool) (s : proc) :
  match apply_all (head s) env (errno s) with
  | Some (env', e, evs) =>
      update_environment env verbose s =
        match edata env' with
        | None => Fault (with_head (log (with_errno s e) evs) [])
        | Some d =>
            Val (mk_bgenv (desc env') (Some (set_crc32 d (checksum d))))
                (with_head (log (with_errno s e) evs) [])
        end
  | None => exists s', update_environment env verbose s = Fault s'
  end.
Proof.
  pose proof (drain_apply_all (List.length (head s)) env s (le_n _)) as H.
  assert (U : update_environment env verbose s =
              match drain (List.length (head s)) env s with
              | Val env' s' =>
                  match edata env' with
                  | None => Fault s'
                  | Some d =>
                      Val (mk_bgenv (desc env')
                                    (Some (set_crc32 d (checksum d)))) s'
                  end
              | Exit c s' => Exit c s'
              | Fault s' => Fault s'
              end).
  { unfold update_environment, bind, get_head, fault, ret.
    destruct (drain (List.length (head s)) env s) as [env' s'| |];
      try reflexivity.
    destruct (edata env'); reflexivity. }
  destruct (apply_all (head s) env (errno s)) as [[[env' e] evs]|].
  - rewrite U, H. reflexivity.
  - destruct H as [s' H]. exists s'. now rewrite U, H.
Qed.

End Replay.

(** ** What a computation leaves in the trace *)

Lemma emits_ret {A} (P : event -> Prop) (Q : A -> Prop) (a : A) :
  Q a -> emits P Q (ret a).
Proof.
  intros H s. split.
  - exists []. simpl. now rewrite app_nil_r.
  - unfold ret. now intros ? ? [= <- _].
Qed.

Lemma emits_bind {A B} (P : event -> Prop) (Q : A -> Prop) (R : B -> Prop)
    (m : M A) (f : A -> M B) :
  emits P Q m -> (forall a, Q a -> emits P R (f a)) -> emits P R (bind m f).
Proof.
  intros Hm Hf s. destruct (Hm s) as [(evs & Ht & Hp) Hq]. unfold bind.
  destruct (m s) as [a s1|c s1|s1] eqn:E; simpl in Ht.
  - destruct (Hf a (Hq a s1 eq_refl) s1) as [(evs' & Ht' & Hp') Hq'].
    split; [|exact Hq'].
    exists (evs ++ evs'). rewrite Ht', Ht, app_assoc. split; [reflexivity|].
    apply Forall_app. now split.
  - split; [|discriminate]. now exists evs.
  - split; [|discriminate]. now exists evs.
Qed.

Lemma emits_emit (P : event -> Prop) (e : event) :
  P e -> emits P any (emit e).
Proof.
  intros H s. split; [|now unfold any].
  exists [e]. split; [reflexivity | now constructor].
Qed.

Lemma emits_weaken {A} (P P' : event -> Prop) (Q Q' : A -> Prop) (m : M A) :
  emits P Q m -> (forall e, P e -> P' e) -> (forall a, Q a -> Q' a) ->
  emits P' Q' m.
Proof.
  intros Hm HP HQ s. destruct (Hm s) as [(evs & Ht & Hp) Hq]. split.
  - exists evs. split; [exact Ht|]. eapply Forall_impl; eauto.
  - intros a s' E. eauto.
Qed.

(** A computation that leaves the trace alone. *)
Lemma emits_silent {A} (P : event -> Prop) (m : M A) :
  (forall s, trace (final (m s)) = trace s) -> emits P any m.
Proof.
  intros H s. split; [|now unfold any].
  exists []. rewrite H, app_nil_r. now split.
Qed.

Lemma emits_alloc P : emits P any alloc.
Proof. apply emits_silent. intros s. unfold alloc. now destruct (heap s). Qed.

Lemma emits_get_errno P : emits P any get_errno.
Proof. now apply emits_silent. Qed.

Lemma emits_set_errno P e : emits P any (set_errno e).
Proof. now apply emits_silent. Qed.

Lemma emits_get_head P : emits P any get_head.
Proof. now apply emits_silent. Qed.

Lemma emits_set_head P q : emits P any (set_head q).
Proof. now apply emits_silent. Qed.

Lemma emits_get_save P : emits P any get_save.
Proof. now apply emits_silent. Qed.

Lemma emits_set_save P p : emits P any (set_save p).
Proof. now apply emits_silent. Qed.

Lemma emits_exit {A} P (Q : A -> Prop) c : emits P Q (exit c).
Proof.
  intros s. split; [|discriminate]. exists []. simpl.
  now rewrite app_nil_r.
Qed.

Lemma emits_fault {A} P (Q : A -> Prop) : emits P Q fault.
Proof.
  intros s. split; [|discriminate]. exists []. simpl.
  now rewrite app_nil_r.
Qed.

Lemma emits_any {A} P (Q : A -> Prop) (m : M A) : emits P Q m -> emits P any m.
Proof. intros H. eapply emits_weaken; eauto. now unfold any. Qed.

Create HintDb emits discriminated.
#[global] Hint Resolve emits_alloc emits_get_errno emits_set_errno
  emits_get_head emits_set_head emits_get_save emits_set_save
  emits_exit emits_fault : emits.

(** Walks through a computation: a bind is split, a branch is taken apart,
    and the leaves are closed from the hint database. *)
Ltac emits_step :=
  match goal with
  | |- emits _ _ (bind _ _) => apply (emits_bind _ any); [|intros ? _]
  | |- emits _ any (ret _) => apply emits_ret; exact I
  | |- emits _ _ (emit _) => apply emits_emit
  | |- emits _ _ (if ?b then _ else _) => destruct b
  | |- emits _ _ (match ?x with _ => _ end) => destruct x
  | |- emits _ _ (let (_, _) := ?x in _) => destruct x
  | |- emits _ any _ => solve [eauto with emits]
  | |- emits _ _ _ => solve [eauto with emits]
  end.

Ltac emits_walk := repeat (emits_step; cbn beta iota).

(** ** What the option parser leaves in the trace *)

Section Parser.

Context {cfg : Config} {col : Collaborators} {lay : Layout}.

Lemma emits_parse_int P arg : emits P any (parse_int arg).
Proof. unfold parse_int. emits_walk. Qed.

Lemma emits_journal_add_action P task key type data datalen :
  emits P any (journal_add_action task key type data datalen).
Proof. unfold journal_add_action, STAILQ_INSERT_TAIL. emits_walk. Qed.

Lemma emits_set_uservars P arg : emits P any (set_uservars arg).
Proof.
  unfold set_uservars. emits_walk; apply emits_journal_add_action.
Qed.

Lemma emits_parse_common_opt key arg compat a :
  emits parser_event any (parse_common_opt key arg compat a).
Proof.
  unfold parse_common_opt.
  emits_walk; try exact I; apply emits_parse_int.
Qed.

Lemma emits_parse_setenv_opt key arg a :
  emits parser_event any (parse_setenv_opt key arg a).
Proof.
  unfold parse_setenv_opt, journal_error, argp_usage.
  emits_walk; try exact I;
    first [ apply emits_parse_int | apply emits_journal_add_action
          | apply emits_set_uservars | apply emits_parse_common_opt ].
Qed.

Lemma emits_parse_output_fields_from n rest o :
  emits parser_event any (parse_output_fields_from n rest o).
Proof.
  revert rest o. induction n as [|n IH]; intros rest o;
    cbn [parse_output_fields_from].
  - now apply emits_ret.
  - destruct (strsep rest ",") as [[token|] rest']; [|now apply emits_ret].
    repeat match goal with
           | |- emits _ _ (if ?b then _ else _) => destruct b; [apply IH|]
           end.
    emits_walk. exact I.
Qed.

Lemma emits_parse_printenv_opt key arg a :
  emits parser_event any (parse_printenv_opt key arg a).
Proof.
  unfold parse_printenv_opt, parse_output_fields, argp_usage.
  emits_walk; try exact I;
    first [ apply emits_parse_output_fields_from
          | apply emits_parse_common_opt ].
Qed.

Lemma emits_argp_parse {A} (parser : Z -> string -> A -> M (Z * A)) opts a :
  (forall key arg a, emits parser_event any (parser key arg a)) ->
  emits parser_event any (argp_parse parser opts a).
Proof.
  intros Hp. revert a.
  induction opts as [|[key arg] rest IH]; intros a; cbn [argp_parse].
  - now apply emits_ret.
  - eapply emits_bind; [apply Hp|].
    intros r _. destruct (_ || _); [apply IH | now apply emits_ret].
Qed.

End Parser.

(** ** What a session leaves in the trace *)

Section Session.

Context {cfg : Config} {col : Collaborators} {lay : Layout}.

Lemma replay_event_sealed (e : event) : replay_event e -> sealed e.
Proof. now destruct e. Qed.

Lemma parser_event_sealed (e : event) : parser_event e -> sealed e.
Proof. now destruct e. Qed.

Lemma emits_process env a :
  emits replay_event any (journal_process_action env a).
Proof.
  intros s. split; [|now unfold any]. rewrite process_apply.
  unfold apply_action.
  destruct (task a).
  - destruct (key a) as [k|], (data a) as [buf|];
      try (exists []; simpl; now rewrite app_nil_r).
    destruct (cstr buf) as [v|];
      [|exists []; simpl; now rewrite app_nil_r].
    destruct (_ =? 0).
    + destruct (refused v).
      * eexists. split; [reflexivity|]. now repeat constructor.
      * eexists. split; [reflexivity|].
        destruct (negb _); now repeat constructor.
    + eexists. split; [reflexivity|]. now repeat constructor.
  - eexists. split; [reflexivity|]. now repeat constructor.
Qed.

Lemma emits_drain n env : emits replay_event any (drain n env).
Proof.
  revert env. induction n as [|n IH]; intros env; cbn [drain].
  - now apply emits_ret.
  - apply (emits_bind _ any); [auto with emits|]. intros q _.
    destruct q as [|a q]; [now apply emits_ret|].
    apply (emits_bind _ any); [apply emits_process|]. intros env' _.
    apply (emits_bind _ any); [auto with emits|]. intros q' _.
    apply (emits_bind _ any); [auto with emits|]. intros _ _.
    apply IH.
Qed.

Lemma emits_update_environment env verbose :
  emits replay_event sealed_handle (update_environment env verbose).
Proof.
  unfold update_environment.
  apply (emits_bind _ any); [auto with emits|]. intros q _.
  apply (emits_bind _ any); [apply emits_drain|]. intros env' _.
  destruct (edata env') as [d|]; [|apply emits_fault].
  apply emits_ret. exists (set_crc32 d (checksum d)).
  split; [reflexivity | now exists d].
Qed.

Lemma emits_dump_envs_from n i : emits sealed any (dump_envs_from n i).
Proof.
  revert i. induction n as [|n IH]; intros i; cbn [dump_envs_from].
  - now apply emits_ret.
  - emits_walk; exact I.
Qed.

Lemma emits_cleanup env_new result : emits sealed any (cleanup env_new result).
Proof. unfold cleanup. emits_walk; exact I. Qed.

Lemma emits_store env_new verbose : emits sealed any (store env_new verbose).
Proof.
  unfold store.
  apply (emits_bind _ sealed_handle).
  - eapply emits_weaken; [apply emits_update_environment| |auto].
    apply replay_event_sealed.
  - intros env' Henv'.
    apply (emits_bind _ any); [now apply emits_emit|]. intros _ _.
    emits_walk; try exact I; apply emits_cleanup.
Qed.

Lemma emits_clone_latest verbose : emits sealed any (clone_latest verbose).
Proof.
  unfold clone_latest.
  emits_walk; try exact I;
    first [apply emits_cleanup | apply emits_store].
Qed.

Lemma emits_get_env path :
  emits sealed any (get_env path).
Proof. unfold get_env. emits_walk; exact I. Qed.

Lemma emits_dumpenv_to_file path verbose preserve :
  emits sealed any (dumpenv_to_file path verbose preserve).
Proof.
  unfold dumpenv_to_file.
  apply (emits_bind _ any).
  { destruct preserve; [apply emits_get_env | now apply emits_ret]. }
  intros [data|] _; [|now apply emits_ret].
  apply (emits_bind _ sealed_handle).
  - eapply emits_weaken; [apply emits_update_environment| |auto].
    apply replay_event_sealed.
  - intros env (d & Hd & Hs). rewrite Hd.
    destruct (fopen_wb path).
    + apply (emits_bind _ any); [now apply emits_emit|]. intros _ _.
      emits_walk; exact I.
    + emits_walk; exact I.
Qed.

Lemma emits_bg_setenv argc opts : emits sealed any (bg_setenv argc opts).
Proof.
  unfold bg_setenv.
  destruct (argc <? 2); [now apply emits_ret|].
  apply (emits_bind _ any); [auto with emits|]. intros _ _.
  apply (emits_bind _ any).
  { eapply emits_weaken;
      [apply emits_argp_parse, emits_parse_setenv_opt| |auto].
    apply parser_event_sealed. }
  intros [e a] _.
  destruct (negb (e =? 0)); [now apply emits_ret|].
  destruct (_ && _); [emits_walk; exact I|].
  destruct (envfilepath (common a)) as [path|].
  - apply emits_dumpenv_to_file.
  - unfold dump_envs.
    emits_walk; try exact I;
      first [ apply emits_dump_envs_from | apply emits_clone_latest
            | apply emits_cleanup | apply emits_store ].
Qed.

End Session.

(** ** The checksum *)

Section Checksum.

Context {cfg : Config} {col : Collaborators} {lay : Layout}.

(** What [update_environment] computes is the checksum of the spec. *)
Lemma checksum_spec_crc (fields_image : BG_ENVDATA -> list ascii)
    (d : BG_ENVDATA) :
  serializes fields_image -> checksum d = spec_crc fields_image d.
Proof.
  intros (Himg & Hlen & _). unfold checksum, spec_crc. f_equal.
  destruct (Himg d) as (ci & E & Hci). specialize (Hlen d).
  rewrite E in Hlen |- *. rewrite length_app in Hlen.
  replace (sizeof_BG_ENVDATA - sizeof_crc32)%nat
    with (List.length (fields_image d) + 0)%nat by lia.
  rewrite firstn_app_2. cbn [firstn]. apply app_nil_r.
Qed.

Lemma serializes_last_member (fields_image : BG_ENVDATA -> list ascii) :
  serializes fields_image -> crc32_is_last_member.
Proof.
  intros S d c.
  assert (F : forall d', firstn (sizeof_BG_ENVDATA - sizeof_crc32)
                           (envdata_image d') = fields_image d').
  { intros d'. destruct S as (Himg & Hlen & _).
    destruct (Himg d') as (ci & E & Hci). specialize (Hlen d').
    rewrite E in Hlen |- *. rewrite length_app in Hlen.
    replace (sizeof_BG_ENVDATA - sizeof_crc32)%nat
      with (List.length (fields_image d') + 0)%nat by lia.
    rewrite firstn_app_2. cbn [firstn]. apply app_nil_r. }
  rewrite !F. apply S.
Qed.

Lemma sealed_record_valid (fields_image : BG_ENVDATA -> list ascii)
    (d : BG_ENVDATA) :
  serializes fields_image -> sealed_record d -> crc_valid fields_image d.
Proof.
  intros S [d0 ->]. unfold crc_valid, spec_crc. cbn [crc32 set_crc32].
  rewrite (checksum_spec_crc fields_image d0 S). unfold spec_crc.
  f_equal. symmetry. apply S.
Qed.

Lemma sealed_valid (fields_image : BG_ENVDATA -> list ascii) (e : event) :
  serializes fields_image -> sealed e -> persisted_valid fields_image e.
Proof.
  intros S. destruct e; simpl; auto.
  - intros (d & Hd & Hs). exists d. split; [exact Hd|].
    now apply sealed_record_valid.
  - now apply sealed_record_valid.
Qed.


End Checksum.

Lemma model_body_image_length (d : BG_ENVDATA) :
  List.length (Model.body_image d) = 60%nat.
Proof.
  unfold Model.body_image. rewrite firstn_length_le; [reflexivity|].
  rewrite length_app, repeat_length. lia.
Qed.

(** The layout of the examples serializes a record as its body followed by
    its checksum. *)
Lemma model_serializes : @serializes Model.layout Model.body_image.
Proof.
  split; [|split].
  - intros d. exists (Model.le32 (crc32 d)). split; reflexivity.
  - intros d. cbn [envdata_image sizeof_BG_ENVDATA Model.layout].
    rewrite length_app, model_body_image_length. reflexivity.
  - intros d c. destruct d; reflexivity.
Qed.

Lemma model_crc32_is_last_member :
  @crc32_is_last_member Model.layout.
Proof. exact (@serializes_last_member Model.layout _ model_serializes). Qed.


(** ** Numbers on the command line *)

Lemma parse_int_spec (arg : string) (s : proc) :
  parse_int arg s =
    if int_text arg then Val (value (strtol arg)) (with_errno s 0)
    else Val (-1) (with_errno s EINVAL).
Proof.
  unfold parse_int, int_text. run.
  destruct (erange (strtol arg)); cbn; [reflexivity|].
  destruct (endp (strtol arg) =? 0)%nat; cbn; [reflexivity|].
  destruct (Ascii.eqb (char_at arg (endp (strtol arg))) NUL); cbn;
    [|reflexivity].
  rewrite Z.ltb_antisym, Z.gtb_ltb, Z.ltb_antisym.
  destruct (INT_MIN <=? value (strtol arg)); cbn; [|reflexivity].
  destruct (value (strtol arg) <=? INT_MAX); reflexivity.
Qed.

(** ** The allocator *)

Lemma served_0 (s : proc) : served 0 s = s.
Proof. now destruct s. Qed.

Lemma alloc_served (n : nat) (s : proc) :
  serves (S n) s -> alloc s = Val true (served 1 s) /\ serves n (served 1 s).
Proof.
  unfold serves, served, alloc, with_heap.
  destruct (heap s) as [|b h] eqn:E; simpl.
  - intros _. split; [|now destruct n]. destruct s; simpl in *. now subst.
  - intros H. apply andb_prop in H as [-> H]. now split.
Qed.

Lemma served_served (n m : nat) (s : proc) :
  served n (served m s) = served (m + n) s.
Proof.
  unfold served, with_heap; simpl. f_equal.
  rewrite Nat.add_comm. apply skipn_skipn.
Qed.

Section Enqueue.

Context {cfg : Config} {col : Collaborators} {lay : Layout}.

(** With its three requests served, [journal_add_action] puts the action
    with a copy of the payload behind the last one of the queue and
    returns 0. *)
Lemma journal_add_action_payload task (k d : string) ty (n : nat) (s : proc) :
  serves 3 s ->
  journal_add_action task (Some k) ty (Some d) (S n) s =
    Val 0 (with_head (served 3 s)
             (head s ++ [mk_action (Some k) ty (Some (memcpy d (S n))) task])).
Proof.
  intros H. unfold journal_add_action, STAILQ_INSERT_TAIL.
  destruct (alloc_served 2 s H) as [E1 H1].
  destruct (alloc_served 1 _ H1) as [E2 H2].
  destruct (alloc_served 0 _ H2) as [E3 _].
  unfold bind at 1. rewrite E1. cbn [negb].
  unfold bind at 1. rewrite E2. cbn [negb].
  unfold bind at 1. rewrite E3. cbn [negb].
  rewrite !served_served. reflexivity.
Qed.

(** Without a payload there are two requests. *)
Lemma journal_add_action_bare task (k : string) ty (s : proc) :
  serves 2 s ->
  journal_add_action task (Some k) ty None 0 s =
    Val 0 (with_head (served 2 s)
             (head s ++ [mk_action (Some k) ty None task])).
Proof.
  intros H. unfold journal_add_action, STAILQ_INSERT_TAIL.
  destruct (alloc_served 1 s H) as [E1 H1].
  destruct (alloc_served 0 _ H1) as [E2 _].
  unfold bind at 1. rewrite E1. cbn [negb].
  unfold bind at 1. rewrite E2. cbn [negb].
  rewrite !served_served. reflexivity.
Qed.

(** X2.  The answer is 0 or [ENOMEM], and on [ENOMEM] the queue is as it
    was. *)
Lemma journal_add_action_result task key ty data datalen (s : proc) :
  exists e s',
    journal_add_action task key ty data datalen s = Val e s'
    /\ trace s' = trace s
    /\ ((e = 0 /\ exists a, head s' = head s ++ [a])
        \/ (e = ENOMEM /\ head s' = head s)).
Proof.
  unfold journal_add_action, STAILQ_INSERT_TAIL, bind, alloc, ret,
    get_head, set_head.
  destruct (heap s) as [|[|] h]; cbn;
    destruct key, data as [d|], datalen; cbn;
    repeat match goal with
           | |- context [match ?h with [] => _ | _ :: _ => _ end] =>
               destruct h as [|[|] ?]; cbn
           end;
    do 2 eexists; (split; [reflexivity|]); (split; [reflexivity|]);
    first [ left; split; [reflexivity|]; eexists; reflexivity
          | right; split; reflexivity ].
Qed.

End Enqueue.

(** ** The names of the update states *)

Lemma tolower_not_0 (c : ascii) : Ascii.eqb c NUL = false -> tolower c <> 0.
Proof.
  intros H. apply eqb_NUL_code in H. pose proof (code_range c).
  unfold tolower. destruct (_ && _); lia.
Qed.

Lemma strncasecmp_prefix (name s : string) :
  is_cstring name = true ->
  (strncasecmp s name (strlen name) =? 0) = ci_prefix name s.
Proof.
  revert s. induction name as [|a name IH]; intros s Hn.
  - reflexivity.
  - simpl in Hn. apply andb_prop in Hn as [Ha Hn].
    apply negb_true_iff, tolower_not_0 in Ha.
    destruct s as [|b s]; cbn [strlen String.length strncasecmp ci_prefix].
    + apply Z.eqb_neq. lia.
    + destruct (tolower b =? tolower a) eqn:E.
      * apply (IH s Hn).
      * apply Z.eqb_neq in E. apply Z.eqb_neq. lia.
Qed.

Section Ustate.

Context {cfg : Config}.

Lemma str2ustate_first_match (s : string) :
  header_ustates cfg -> str2ustate (Some s) = Some (first_match s).
Proof.
  intros (Hmin & Hmax & Hunk). unfold str2ustate, first_match.
  rewrite Hmin, Hmax. change (S (Z.to_nat (4 - 0))) with 5%nat.
  unfold str2ustate_from. rewrite Hmax, Hunk.
  cbn -[strncasecmp strlen ci_prefix].
  change (Pos.to_nat 1) with 1%nat. change (Pos.to_nat 2) with 2%nat.
  change (Pos.to_nat 3) with 3%nat. cbn [nth_error ustatemap].
  rewrite (strncasecmp_prefix "OK" s eq_refl),
          (strncasecmp_prefix "INSTALLED" s eq_refl),
          (strncasecmp_prefix "TESTING" s eq_refl),
          (strncasecmp_prefix "FAILED" s eq_refl).
  now destruct (ci_prefix "OK" s), (ci_prefix "INSTALLED" s),
    (ci_prefix "TESTING" s), (ci_prefix "FAILED" s).
Qed.

(** With [USTATE_MAX] = 4, the name is looked up at the value that the
    parameter holds, and at 4 when that value is above 4. *)
Lemma ustate2str_uint8 (u : Z) :
  USTATE_MAX = 4 ->
  ustate2str u = nth_error ustatemap (Z.to_nat (Z.min (u mod UINT8_WIDTH) 4)).
Proof.
  intros Hmax. unfold ustate2str. rewrite Hmax.
  destruct (u mod UINT8_WIDTH >? 4) eqn:E; rewrite Z.gtb_ltb in E.
  - apply Z.ltb_lt in E. now rewrite Z.min_r by lia.
  - apply Z.ltb_ge in E. now rewrite Z.min_l by lia.
Qed.

End Ustate.

Section UstateBounds.

Context {cfg : Config}.

(** Two texts run through the loop of [str2ustate] alike until a name
    matches one of them. *)
Lemma str2ustate_from_cases (s1 s2 : string) (n : nat) (i : Z) :
  str2ustate_from n i s1 = str2ustate_from n i s2
  \/ exists j name,
       (j <? USTATE_MAX) = true
       /\ nth_error ustatemap (Z.to_nat j) = Some name
       /\ (((strncasecmp s1 name (strlen name) =? 0) = true
            /\ str2ustate_from n i s1 = Some j)
           \/ ((strncasecmp s2 name (strlen name) =? 0) = true
               /\ str2ustate_from n i s2 = Some j)).
Proof.
  revert i. induction n as [|n IH]; intros i; cbn [str2ustate_from].
  - now left.
  - destruct (i <? USTATE_MAX) eqn:Hi; [|now left].
    destruct (nth_error ustatemap (Z.to_nat i)) as [name|] eqn:Hn; [|now left].
    destruct (strncasecmp s1 name (strlen name) =? 0) eqn:E1.
    { right. exists i, name. auto. }
    destruct (strncasecmp s2 name (strlen name) =? 0) eqn:E2.
    { right. exists i, name. auto. }
    apply IH.
Qed.

(** X3.  The loop of [str2ustate] tells FAILED from a text that is no state
    name only when it gets as far as the fourth name, and [ustate2str]
    stays inside the table only when it clamps to one of its five indices:
    the table and the two functions leave one value for [USTATE_MAX]. *)
Lemma USTATE_MAX_forced :
  str2ustate (Some "FAILED") = Some 3 ->
  str2ustate (Some "FAILED") <> str2ustate (Some "?") ->
  ustate2str 255 <> None ->
  USTATE_MAX = 4.
Proof.
  intros H1 H2 H3.
  assert (Hlow : 3 < USTATE_MAX).
  { unfold str2ustate in H1, H2.
    destruct (str2ustate_from_cases "FAILED" "?"
                (S (Z.to_nat (USTATE_MAX - USTATE_MIN)))
                (USTATE_MIN mod UINT8_WIDTH))
      as [E | (j & name & Hj & Hn & [[_ E] | [E _]])].
    - contradiction.
    - rewrite H1 in E. injection E as <-. now apply Z.ltb_lt.
    - exfalso. apply nth_error_In in Hn. simpl in Hn.
      destruct Hn as [<- | [<- | [<- | [<- | [<- | []]]]]]; discriminate E. }
  unfold ustate2str in H3. change (255 mod UINT8_WIDTH) with 255 in H3.
  destruct (255 >? USTATE_MAX) eqn:E.
  - assert (Hi : (Z.to_nat (USTATE_MAX mod UINT8_WIDTH) < 5)%nat)
      by (change 5%nat with (List.length ustatemap); now apply nth_error_Some).
    rewrite Z.gtb_ltb in E. apply Z.ltb_lt in E.
    rewrite Z.mod_small in Hi by (unfold UINT8_WIDTH; lia). lia.
  - now elim H3.
Qed.

(** C5, as the code has it.  The parameter of [ustate2str] is a
    [uint8_t]; a value above [USTATE_MAX] is clamped to [USTATE_MAX] before
    [ustatemap] is read.  With the constants of the headers every value of
    the parameter above the persisted range 0..3, that is 4..255, is
    rendered as "UNKNOWN", the fifth name of the table, and no value reads
    behind the table.  A wider value is rendered as its low eight bits
    are. *)
Theorem ustate2str_above_range_is_UNKNOWN (u : Z) :
  header_ustates cfg ->
  3 < u mod UINT8_WIDTH ->
  ustate2str u = Some "UNKNOWN"
  /\ ustate2str u
     = nth_error ustatemap (Z.to_nat (Z.min (u mod UINT8_WIDTH) USTATE_MAX))
  /\ (forall v, exists name, ustate2str v = Some name)
  /\ (forall v, ustate2str v = ustate2str (v mod UINT8_WIDTH)).
Proof.
  intros (_ & Hmax & _) Hu.
  split; [|split; [|split]].
  - rewrite (ustate2str_uint8 u Hmax), Z.min_r by lia. reflexivity.
  - now rewrite (ustate2str_uint8 u Hmax), Hmax.
  - intros v. rewrite (ustate2str_uint8 v Hmax).
    pose proof (Z.mod_pos_bound v UINT8_WIDTH eq_refl) as B.
    destruct (nth_error ustatemap (Z.to_nat (Z.min (v mod UINT8_WIDTH) 4)))
      as [name|] eqn:E; [now exists name|].
    apply nth_error_None in E. cbn [List.length ustatemap] in E. lia.
  - intros v. rewrite !(ustate2str_uint8 _ Hmax).
    now rewrite Z.mod_mod by discriminate.
Qed.

End UstateBounds.

Lemma envdata_h_ustates : header_ustates envdata_h.
Proof. now repeat split. Qed.

(** The witness of [ustate2str_above_range_is_UNKNOWN]: the value 99. *)
Lemma ustate2str_above_range_is_UNKNOWN_witness :
  @ustate2str envdata_h 99 = Some "UNKNOWN"
  /\ @ustate2str envdata_h 99
     = nth_error ustatemap
         (Z.to_nat (Z.min (99 mod UINT8_WIDTH) (@USTATE_MAX envdata_h)))
  /\ (forall v, exists name, @ustate2str envdata_h v = Some name)
  /\ (forall v, @ustate2str envdata_h v
                = @ustate2str envdata_h (v mod UINT8_WIDTH)).
Proof.
  apply (@ustate2str_above_range_is_UNKNOWN envdata_h 99 envdata_h_ustates).
  reflexivity.
Defined.

(** C5, as the spec has it, fails: 99 and 4 are above the range 0..3, and
    their text is "UNKNOWN", not the text "FAILED" of the state 3; and 256,
    a value that the 16-bit member [ustate] of the record can hold, is
    rendered as "OK", the text of the eight bits that reach the
    function. *)
Lemma ustate2str_99_is_not_FAILED :
  @ustate2str envdata_h 99 = Some "UNKNOWN"
  /\ @ustate2str envdata_h 4 = Some "UNKNOWN"
  /\ @ustate2str envdata_h 3 = Some "FAILED"
  /\ @ustate2str envdata_h 256 = Some "OK".
Proof. now repeat split. Qed.

(** The witness of [USTATE_MAX_forced]: the constants of [envdata_h]. *)
Lemma USTATE_MAX_forced_witness : @USTATE_MAX envdata_h = 4.
Proof.
  apply (@USTATE_MAX_forced envdata_h);
    [reflexivity | discriminate | discriminate].
Defined.

(** ** The option -s *)

(** A text that [strtol] reads a number from begins with a blank, a sign or
    a digit, and so with no state name. *)
Lemma number_is_no_state_name (arg : string) :
  endp (strtol arg) <> 0%nat -> first_match arg = 4.
Proof.
  destruct arg as [|c r]; [intros H; now elim H|].
  intros H.
  assert (D : endp (strtol (String c r)) = 0%nat
              \/ first_match (String c r) = 4).
  { clear H. destruct c as [b0 b1 b2 b3 b4 b5 b6 b7].
    destruct b0, b1, b2, b3, b4, b5, b6, b7;
      first [right; reflexivity | left; reflexivity]. }
  destruct D as [D | D]; [contradiction | exact D].
Qed.

Section OptionS.

Context {cfg : Config} {col : Collaborators} {lay : Layout}.

(** The branch of [parse_setenv_opt] for -s, step by step. *)
Lemma parse_setenv_opt_s (arg : string) (a : arguments_setenv) (st : proc) :
  header_ustates cfg ->
  let st1 := with_errno st (if int_text arg then 0 else EINVAL) in
  parse_setenv_opt (chr "s") arg a st =
    match (if int_text arg then Some (value (strtol arg))
           else if first_match arg =? 4 then None
                else Some (first_match arg)) with
    | None => Val (1, a) (log st1 [Stderr "Invalid state specified."])
    | Some i =>
        if (i <? 0) || (i >? 3) then
          Val (1, a) (log st1 [Stderr invalid_ustate_msg])
        else
          (ok <- alloc ;;
           if negb ok then ret (ENOMEM, a)
           else
             e <- journal_add_action ENV_TASK_SET (Some "ustate") 0
                    (Some (utoa i)) (strlen (utoa i) + 1) ;;
             journal_error e a) st1
    end.
Proof.
  intros Hh st1. pose proof Hh as (_ & _ & Hunk).
  unfold parse_setenv_opt.
  change (chr "s" =? chr "k") with false.
  change (chr "s" =? chr "a") with false.
  change (chr "s" =? chr "s") with true. cbv iota.
  unfold bind at 1. rewrite parse_int_spec.
  destruct (int_text arg) eqn:Hi.
  - unfold bind at 1. unfold get_errno at 1. cbn [errno with_errno].
    change (negb (0 =? 0)) with false. cbv iota.
    unfold bind at 1. unfold ret at 1.
    destruct ((value (strtol arg) <? 0) || (value (strtol arg) >? 3));
      reflexivity.
  - unfold bind at 1. unfold get_errno at 1. cbn [errno with_errno].
    change (negb (EINVAL =? 0)) with true. cbv iota.
    rewrite (str2ustate_first_match arg Hh), Hunk.
    unfold bind at 1.
    destruct (first_match arg =? 4); [reflexivity|].
    unfold ret at 1.
    destruct ((first_match arg <? 0) || (first_match arg >? 3));
      reflexivity.
Qed.

(** C6. With the constants of the headers, [str2ustate] answers the index
    of the first of OK, INSTALLED, TESTING and FAILED that the text begins
    with, letters compared without regard to case, and UNKNOWN when it
    begins with none.  At -s the text "testing" and the number 2 both file
    a Set of "ustate" to "2", the index of TESTING; a text that is read as
    a number outside 0..3 is turned down with a message, and the queue is
    as it was. *)
Theorem ustate_option_boundary (s arg : string) (a : arguments_setenv)
    (st : proc) :
  header_ustates cfg ->
  serves 4 st ->
  endp (strtol arg) <> 0%nat ->
  value (strtol arg) < 0 \/ 3 < value (strtol arg) ->
  str2ustate (Some s) = Some (first_match s)
  /\ nth_error ustatemap 2 = Some "TESTING"
  /\ parse_setenv_opt (chr "s") "testing" a st =
       Val (0, a)
           (with_head (served 4 (with_errno st EINVAL))
              (head st ++ [set_action "ustate" 0 (bytes_of "2")]))
  /\ parse_setenv_opt (chr "s") "2" a st =
       Val (0, a)
           (with_head (served 4 (with_errno st 0))
              (head st ++ [set_action "ustate" 0 (bytes_of "2")]))
  /\ exists msg e,
       parse_setenv_opt (chr "s") arg a st =
         Val (1, a) (log (with_errno st e) [Stderr msg])
       /\ head (log (with_errno st e) [Stderr msg]) = head st.
Proof.
  intros Hh Hs Hnum Hout.
  assert (Hfile : forall e0,
      (ok <- alloc ;;
       if negb ok then ret (ENOMEM, a)
       else
         e <- journal_add_action ENV_TASK_SET (Some "ustate") 0
                (Some "2") (strlen "2" + 1) ;;
         journal_error e a) (with_errno st e0)
      = Val (0, a)
            (with_head (served 4 (with_errno st e0))
               (head st ++ [set_action "ustate" 0 (bytes_of "2")]))).
  { intros e0.
    assert (Hs0 : serves 4 (with_errno st e0)) by exact Hs.
    destruct (alloc_served 3 _ Hs0) as [E1 H1].
    unfold bind at 1. rewrite E1. cbn [negb].
    unfold bind at 1. change (strlen "2" + 1)%nat with 2%nat.
    rewrite (journal_add_action_payload ENV_TASK_SET "ustate" "2" 0 1 _ H1).
    unfold journal_error. run. rewrite served_served. reflexivity. }
  split; [now apply str2ustate_first_match|].
  split; [reflexivity|].
  split; [|split].
  - rewrite (parse_setenv_opt_s "testing" a st Hh). apply Hfile.
  - rewrite (parse_setenv_opt_s "2" a st Hh). apply Hfile.
  - rewrite (parse_setenv_opt_s arg a st Hh).
    rewrite (number_is_no_state_name arg Hnum). change (4 =? 4) with true.
    destruct (int_text arg).
    + replace ((value (strtol arg) <? 0) || (value (strtol arg) >? 3))
        with true.
      * do 2 eexists. split; reflexivity.
      * symmetry. apply orb_true_iff. rewrite Z.gtb_ltb.
        destruct Hout; [left | right]; now apply Z.ltb_lt.
    + do 2 eexists. split; reflexivity.
Qed.

End OptionS.

(** The witness of [ustate_option_boundary]: "Fail" for the text, 99 for
    the number. *)
Lemma ustate_option_boundary_witness :
  @str2ustate envdata_h (Some "Fail") = Some (first_match "Fail")
  /\ nth_error ustatemap 2 = Some "TESTING"
  /\ @parse_setenv_opt envdata_h Model.world (chr "s") "testing"
       zero_arguments Model.start =
       Val (0, zero_arguments)
           (with_head (served 4 (with_errno Model.start EINVAL))
              (head Model.start ++ [set_action "ustate" 0 (bytes_of "2")]))
  /\ @parse_setenv_opt envdata_h Model.world (chr "s") "2"
       zero_arguments Model.start =
       Val (0, zero_arguments)
           (with_head (served 4 (with_errno Model.start 0))
              (head Model.start ++ [set_action "ustate" 0 (bytes_of "2")]))
  /\ exists msg e,
       @parse_setenv_opt envdata_h Model.world (chr "s") "99"
         zero_arguments Model.start =
         Val (1, zero_arguments) (log (with_errno Model.start e) [Stderr msg])
       /\ head (log (with_errno Model.start e) [Stderr msg])
          = head Model.start.
Proof.
  apply (@ustate_option_boundary envdata_h Model.world "Fail" "99"
           zero_arguments Model.start envdata_h_ustates).
  - reflexivity.
  - simpl. lia.
  - right. reflexivity.
Defined.

(** ** The option -p *)

Section OptionP.

Context {cfg : Config} {col : Collaborators} {lay : Layout}.

Lemma parse_common_opt_p (arg : string) (compat : bool)
    (a : arguments_common) (st : proc) :
  parse_common_opt (chr "p") arg compat a st =
    if int_text arg then
      if (value (strtol arg) >=? 0)
         && (value (strtol arg) <? ENV_NUM_CONFIG_PARTS)
      then Val (0, mk_common (envfilepath a) (verbosity a)
                             (value (strtol arg)) true)
               (with_errno st 0)
      else Val (1, a) (log (with_errno st 0)
                           [Stderr "Selected partition out of range."])
    else Val (1, a) (log (with_errno st EINVAL)
                         [Stderr "Invalid number specified for -p."]).
Proof.
  unfold parse_common_opt.
  change (chr "p" =? chr "f") with false.
  change (chr "p" =? chr "p") with true. cbv iota.
  unfold bind at 1. rewrite parse_int_spec.
  destruct (int_text arg).
  - unfold bind at 1, get_errno at 1. cbn [errno with_errno].
    change (negb (0 =? 0)) with false. cbv iota.
    destruct (_ && _); reflexivity.
  - reflexivity.
Qed.

Lemma parse_setenv_opt_p (arg : string) (a : arguments_setenv) (st : proc) :
  parse_setenv_opt (chr "p") arg a st =
    match parse_common_opt (chr "p") arg true (common a) st with
    | Val r st' =>
        Val (fst r, mk_setenv (snd r) (auto_update a) (preserve_env a)) st'
    | Exit c st' => Exit c st'
    | Fault st' => Fault st'
    end.
Proof. reflexivity. Qed.

Lemma parse_printenv_opt_p (arg : string) (a : arguments_printenv) (st : proc) :
  parse_printenv_opt (chr "p") arg a st =
    match parse_common_opt (chr "p") arg false (pcommon a) st with
    | Val r st' =>
        Val (fst r, mk_printenv (snd r) (current a) (output_fields a)) st'
    | Exit c st' => Exit c st'
    | Fault st' => Fault st'
    end.
Proof. reflexivity. Qed.

(** An option that the parser answers with 1 ends the parse: [argp_parse]
    does not answer 0. *)
Lemma argp_parse_stops {A} (parser : Z -> string -> A -> M (Z * A))
    (before after : list (Z * string)) (key : Z) (arg : string) (a : A)
    (st : proc) :
  (forall a st, exists a' st', parser key arg a st = Val (1, a') st') ->
  forall r st',
    argp_parse parser (before ++ (key, arg) :: after) a st = Val r st' ->
    fst r <> 0.
Proof.
  intros Hbad. revert a st.
  induction before as [|[key0 arg0] before IH]; intros a st r st' H.
  - cbn [app argp_parse] in H. unfold bind in H.
    destruct (Hbad a st) as (a' & st1 & E). rewrite E in H.
    cbn in H. injection H as <- _. discriminate.
  - cbn [app argp_parse] in H. unfold bind in H.
    destruct (parser key0 arg0 a st) as [r0 st0| |];
      try discriminate.
    destruct ((fst r0 =? 0) || (fst r0 =? ARGP_ERR_UNKNOWN)) eqn:E.
    + exact (IH _ _ _ _ H).
    + injection H as <- _. apply orb_false_elim in E as [E _].
      now apply Z.eqb_neq.
Qed.

(** Both parsers answer an index that is not taken with 1. *)
Lemma parsers_turn_down (arg : string) :
  part_index_ok arg = false ->
  (forall a st, exists a' st',
      parse_setenv_opt (chr "p") arg a st = Val (1, a') st')
  /\ (forall a st, exists a' st',
         parse_printenv_opt (chr "p") arg a st = Val (1, a') st').
Proof.
  intros Hbad.
  assert (H : forall compat a st, exists a' st',
             parse_common_opt (chr "p") arg compat a st = Val (1, a') st').
  { intros compat a st. rewrite parse_common_opt_p.
    unfold part_index_ok in Hbad.
    destruct (int_text arg); cbn [andb] in Hbad.
    - rewrite Hbad. do 2 eexists. reflexivity.
    - do 2 eexists. reflexivity. }
  split; intros a st.
  - rewrite parse_setenv_opt_p.
    destruct (H true (common a) st) as (a' & st' & ->).
    do 2 eexists. reflexivity.
  - rewrite parse_printenv_opt_p.
    destruct (H false (pcommon a) st) as (a' & st' & ->).
    do 2 eexists. reflexivity.
Qed.

(** When the parse does not answer 0, [bg_setenv] returns behind it. *)
Lemma bg_setenv_parse_error (argc : Z) (opts : list (Z * string)) (st : proc) :
  (forall r st',
      argp_parse parse_setenv_opt opts zero_arguments (with_head st [])
      = Val r st' ->
      fst r <> 0) ->
  bg_setenv argc opts st =
    if argc <? 2 then Val 1 st
    else
      match argp_parse parse_setenv_opt opts zero_arguments
                       (with_head st []) with
      | Val r st' => Val (fst r) st'
      | Exit c st' => Exit c st'
      | Fault st' => Fault st'
      end.
Proof.
  intros H. unfold bg_setenv. destruct (argc <? 2); [reflexivity|].
  unfold bind at 1. unfold set_head at 1. unfold bind at 1.
  change (mk_proc [] (errno st) (strtok_save st) (heap st) (trace st))
    with (with_head st []).
  destruct (argp_parse parse_setenv_opt opts zero_arguments (with_head st []))
    as [r st'| |] eqn:E; try reflexivity.
  specialize (H r st' eq_refl). destruct r as [e a]. cbn [fst] in *.
  apply Z.eqb_neq in H. rewrite H. reflexivity.
Qed.

(** And so does [bg_printenv]. *)
Lemma bg_printenv_parse_error (argc : Z) (opts : list (Z * string))
    (st : proc) :
  (forall r st',
      argp_parse parse_printenv_opt opts
        (mk_printenv (mk_common None false 0 false) false ALL_FIELDS) st
      = Val r st' ->
      fst r <> 0) ->
  bg_printenv argc opts st =
    match argp_parse parse_printenv_opt opts
            (mk_printenv (mk_common None false 0 false) false ALL_FIELDS)
            st with
    | Val r st' => Val (fst r) st'
    | Exit c st' => Exit c st'
    | Fault st' => Fault st'
    end.
Proof.
  intros H. unfold bg_printenv. unfold bind at 1.
  destruct (argp_parse parse_printenv_opt opts _ st) as [r st'| |] eqn:E;
    try reflexivity.
  specialize (H r st' eq_refl). destruct r as [e a]. cbn [fst] in *.
  apply Z.eqb_neq in H. rewrite H. reflexivity.
Qed.

Lemma parser_event_no_storage (evs : list event) :
  Forall parser_event evs -> Forall (fun e => ~ storage_event e) evs.
Proof.
  intros H. eapply Forall_impl; [|exact H]. intros e He. now destruct e.
Qed.

Lemma bg_setenv_stops (argc : Z) (before after : list (Z * string))
    (arg : string) (st : proc) :
  part_index_ok arg = false ->
  stops_before_io (bg_setenv argc (before ++ (chr "p", arg) :: after)) st.
Proof.
  intros Hbad.
  pose proof (argp_parse_stops parse_setenv_opt before after (chr "p") arg
                zero_arguments (with_head st [])
                (proj1 (parsers_turn_down arg Hbad))) as Hstop.
  pose proof (bg_setenv_parse_error argc _ st Hstop) as Hrun.
  split.
  - intros st' H. rewrite Hrun in H.
    destruct (argc <? 2); [discriminate|].
    destruct (argp_parse _ _ _ _) as [r s1| |] eqn:E; try discriminate.
    injection H as H _. exact (Hstop r s1 eq_refl H).
  - rewrite Hrun.
    destruct (argc <? 2).
    { exists []. simpl. rewrite app_nil_r. now split. }
    destruct (emits_argp_parse parse_setenv_opt
                (before ++ (chr "p", arg) :: after) zero_arguments
                emits_parse_setenv_opt (with_head st []))
      as [(evs & Ht & Hp) _].
    exists evs. split.
    + destruct (argp_parse _ _ _ _); exact Ht.
    + now apply parser_event_no_storage.
Qed.

Lemma bg_printenv_stops (argc : Z) (before after : list (Z * string))
    (arg : string) (st : proc) :
  part_index_ok arg = false ->
  stops_before_io (bg_printenv argc (before ++ (chr "p", arg) :: after)) st.
Proof.
  intros Hbad.
  pose proof (argp_parse_stops parse_printenv_opt before after (chr "p") arg
                (mk_printenv (mk_common None false 0 false) false ALL_FIELDS)
                st (proj2 (parsers_turn_down arg Hbad))) as Hstop.
  pose proof (bg_printenv_parse_error argc _ st Hstop) as Hrun.
  split.
  - intros st' H. rewrite Hrun in H.
    destruct (argp_parse _ _ _ _) as [r s1| |] eqn:E; try discriminate.
    injection H as H _. exact (Hstop r s1 eq_refl H).
  - rewrite Hrun.
    destruct (emits_argp_parse parse_printenv_opt
                (before ++ (chr "p", arg) :: after)
                (mk_printenv (mk_common None false 0 false) false ALL_FIELDS)
                emits_parse_printenv_opt st)
      as [(evs & Ht & Hp) _].
    exists evs. split.
    + destruct (argp_parse _ _ _ _); exact Ht.
    + now apply parser_event_no_storage.
Qed.

(** C8. The index given with -p is taken exactly when it is the text of an
    [int] and lies in [0, ENV_NUM_CONFIG_PARTS); it is then what
    [which_part] is set to.  An index that is not taken is answered with 1
    and a message, by the option parser; a run of either tool whose command
    line holds such an index does not end with 0, and it neither sets up
    the environment nor opens, reads, writes or closes a slot or a file. *)
Theorem partition_index_checked_before_io (arg : string) (compat : bool)
    (a : arguments_common) (st : proc) (argv0 : string) (argc : Z)
    (before after : list (Z * string)) :
  ((exists a' st',
       parse_common_opt (chr "p") arg compat a st = Val (0, a') st')
   <-> (int_text arg = true
        /\ 0 <= value (strtol arg) < ENV_NUM_CONFIG_PARTS))
  /\ (part_index_ok arg = true ->
      parse_common_opt (chr "p") arg compat a st =
        Val (0, mk_common (envfilepath a) (verbosity a)
                          (value (strtol arg)) true)
            (with_errno st 0))
  /\ (part_index_ok arg = false ->
      (exists msg e,
          parse_common_opt (chr "p") arg compat a st =
            Val (1, a) (log (with_errno st e) [Stderr msg]))
      /\ stops_before_io
           (main argv0 argc (before ++ (chr "p", arg) :: after)) st).
Proof.
  assert (Hok : part_index_ok arg = true <->
                int_text arg = true
                /\ 0 <= value (strtol arg) < ENV_NUM_CONFIG_PARTS).
  { unfold part_index_ok. rewrite !andb_true_iff, Z.geb_le, Z.ltb_lt.
    tauto. }
  split; [|split].
  - rewrite <- Hok. rewrite parse_common_opt_p. unfold part_index_ok.
    destruct (int_text arg); cbn [andb].
    + destruct (_ && _); split; try reflexivity.
      * intros _. do 2 eexists. reflexivity.
      * intros (a' & st' & [=]).
      * discriminate.
    + split; [intros (a' & st' & [=]) | discriminate].
  - intros H. rewrite parse_common_opt_p. unfold part_index_ok in H.
    rewrite <- andb_assoc in H. apply andb_prop in H as [-> ->].
    reflexivity.
  - intros Hbad. split.
    + rewrite parse_common_opt_p. unfold part_index_ok in Hbad.
      destruct (int_text arg); cbn [andb] in Hbad.
      * rewrite Hbad. do 2 eexists. reflexivity.
      * do 2 eexists. reflexivity.
    + unfold main. destruct (strstr argv0 "bg_setenv").
      * now apply bg_setenv_stops.
      * now apply bg_printenv_stops.
Qed.

End OptionP.

(** The witness of [partition_index_checked_before_io]: with two slots,
    -p 1 is taken and -p 7 is not, in bg_setenv and in bg_printenv. *)
Lemma partition_index_checked_before_io_witness :
  @part_index_ok envdata_h "7" = false
  /\ @part_index_ok envdata_h "1" = true
  /\ @parse_common_opt envdata_h Model.world (chr "p") "1" true
       (common zero_arguments) Model.start =
     Val (0, mk_common None false 1 true) (with_errno Model.start 0)
  /\ @stops_before_io
       (@main envdata_h Model.world Model.layout "/usr/bin/bg_setenv" 5
          ([(chr "k", "vmlinuz-5")] ++ (chr "p", "7") :: [])) Model.start
  /\ @stops_before_io
       (@main envdata_h Model.world Model.layout "/usr/bin/bg_printenv" 3
          ([] ++ (chr "p", "7") :: [])) Model.start.
Proof.
  split; [reflexivity|]. split; [reflexivity|]. split; [|split].
  - exact (proj1 (proj2
      (@partition_index_checked_before_io envdata_h Model.world Model.layout
         "1" true (common zero_arguments) Model.start "" 5 [] [])) eq_refl).
  - exact (proj2 (proj2 (proj2
      (@partition_index_checked_before_io envdata_h Model.world Model.layout
         "7" true (common zero_arguments) Model.start "/usr/bin/bg_setenv" 5
         [(chr "k", "vmlinuz-5")] [])) eq_refl)).
  - exact (proj2 (proj2 (proj2
      (@partition_index_checked_before_io envdata_h Model.world Model.layout
         "7" true (common zero_arguments) Model.start "/usr/bin/bg_printenv"
         3 [] [])) eq_refl)).
Defined.

(** ** The option -x *)

Lemma skip_delims_eqs (n : nat) (s : string) :
  skip_delims "=" (eqs n ++ s)%string = skip_delims "=" s.
Proof. induction n as [|n IH]; [reflexivity | exact IH]. Qed.

Lemma skip_delims_eqs_only (n : nat) : skip_delims "=" (eqs n) = "".
Proof. induction n as [|n IH]; [reflexivity | exact IH]. Qed.

Lemma split_token_key (k : string) (m : nat) :
  has_delim "=" k = false ->
  split_token "=" (k ++ eqs m)%string = (k, eqs (pred m)).
Proof.
  induction k as [|c k IH]; intros H.
  - destruct m; reflexivity.
  - cbn [has_delim] in H. apply orb_false_elim in H as [Hc Hk].
    cbn [String.append split_token]. rewrite Hc, (IH Hk). reflexivity.
Qed.

Section OptionX.

Context {cfg : Config} {col : Collaborators} {lay : Layout}.

Lemma strtok_key (n m : nat) (k save : string) :
  k <> "" -> has_delim "=" k = false ->
  strtok (Some (eqs n ++ k ++ eqs m)%string) "=" save = (Some k, eqs (pred m)).
Proof.
  intros Hk Hd. unfold strtok. rewrite skip_delims_eqs.
  destruct k as [|c k]; [now elim Hk|].
  cbn [has_delim] in Hd. apply orb_false_elim in Hd as [Hc Hd].
  cbn [String.append skip_delims]. rewrite Hc.
  change (String c (k ++ eqs m)%string) with (String c k ++ eqs m)%string.
  rewrite split_token_key; [reflexivity|].
  cbn [has_delim]. now rewrite Hc, Hd.
Qed.

Lemma strtok_none (n : nat) (save : string) :
  strtok (Some (eqs n)) "=" save = (None, "")
  /\ strtok None "=" (eqs n) = (None, "").
Proof. unfold strtok. now rewrite skip_delims_eqs_only. Qed.

(** C10. An argument of -x that holds a key and no value, the key with any
    number of '=' before and behind it, files a Delete for the key, its
    type word [USERVAR_TYPE_DEFAULT | USERVAR_TYPE_DELETED] and no payload,
    and the answer is 0; an argument of '=' characters alone, the empty one
    among them, files nothing and the answer is 0 as well. *)
Theorem set_uservars_without_value (k : string) (n m : nat) (s : proc) :
  k <> "" ->
  has_delim "=" k = false ->
  serves 2 s ->
  set_uservars (eqs n ++ k ++ eqs m)%string s =
    Val 0 (with_head (served 2 (with_save s ""))
             (head s ++ [mk_action (Some k)
                           (Z.lor USERVAR_TYPE_DEFAULT USERVAR_TYPE_DELETED)
                           None ENV_TASK_DEL]))
  /\ set_uservars (eqs n) s = Val 0 (with_save s "").
Proof.
  intros Hk Hd Hs. split.
  - unfold set_uservars. unfold bind at 1, get_save at 1.
    rewrite (strtok_key n m k _ Hk Hd).
    unfold bind at 1, set_save at 1.
    rewrite (proj2 (strtok_none (pred m) "")).
    unfold bind at 1, set_save at 1.
    apply (journal_add_action_bare ENV_TASK_DEL k _ (with_save s "")).
    exact Hs.
  - unfold set_uservars. unfold bind at 1, get_save at 1.
    rewrite (proj1 (strtok_none n _)). reflexivity.
Qed.

End OptionX.

(** The witness of [set_uservars_without_value]: the arguments "KEY=" and
    "==". *)
Lemma set_uservars_without_value_witness :
  @set_uservars envdata_h "KEY=" Model.start =
    Val 0 (with_head Model.start
             [mk_action (Some "KEY") (2 ^ 63) None ENV_TASK_DEL])
  /\ @set_uservars envdata_h "==" Model.start = Val 0 Model.start.
Proof.
  exact (@set_uservars_without_value envdata_h "KEY" 0 1 Model.start
           ltac:(discriminate) eq_refl eq_refl).
Defined.

(** More arguments of the kind: a key alone, and the empty argument. *)
Lemma set_uservars_examples :
  @set_uservars envdata_h "KEY" Model.start =
    Val 0 (with_head Model.start
             [mk_action (Some "KEY") (2 ^ 63) None ENV_TASK_DEL])
  /\ @set_uservars envdata_h "" Model.start = Val 0 Model.start
  /\ @set_uservars envdata_h "KEY=VAL" Model.start =
       Val 0 (with_head Model.start
                [mk_action (Some "KEY") 32 (Some (bytes_of "VAL"))
                           ENV_TASK_SET]).
Proof. now repeat split. Qed.

(** ** Single actions, as functions *)

Lemma cstr_bytes_of (x : string) :
  is_cstring x = true -> cstr (bytes_of x) = Some x.
Proof.
  unfold bytes_of. induction x as [|c x IH]; intros H.
  - reflexivity.
  - simpl in H. apply andb_prop in H as [Hc Hx].
    apply negb_true_iff in Hc. cbn [list_ascii_of_string app cstr].
    now rewrite Hc, (IH Hx).
Qed.

Section Actions.

Context {cfg : Config} {col : Collaborators} {lay : Layout}.

Lemma apply_set_ordinary (env : BGENV) (k v : string) (ty e0 : Z) :
  is_cstring k = true -> k <> "ustate" -> is_cstring v = true ->
  apply_action env (set_action k ty (bytes_of v)) e0 =
    Some (bgenv_set env (Some k) ty v (Z.of_nat (strlen v) + 1), e0,
          [BgenvSet (Some k) ty v (Z.of_nat (strlen v) + 1)]).
Proof.
  intros Hk Hne Hv. unfold apply_action, set_action. cbn [task key data type].
  rewrite (cstr_bytes_of v Hv).
  destruct (strncmp k "ustate" (strlen "ustate" + 1) =? 0) eqn:E;
    [|reflexivity].
  apply Z.eqb_eq in E. apply (strncmp_exact "ustate" k eq_refl Hk) in E.
  contradiction.
Qed.

Lemma apply_del (env : BGENV) (k : string) (ty e0 : Z) :
  apply_action env (del_action k ty) e0 =
    Some (bgenv_set env (Some k) ty "" 1, e0, [BgenvSet (Some k) ty "" 1]).
Proof. reflexivity. Qed.

Lemma apply_set_ustate_refused (env : BGENV) (v : string) (ty e0 : Z) :
  is_cstring v = true -> refused v = true ->
  apply_action env (set_action "ustate" ty (bytes_of v)) e0 =
    Some (env, if erange (strtol v) then ERANGE else 0,
          [Stderr ("Invalid value for ustate: " ++ v)]).
Proof.
  intros Hv Hr. unfold apply_action, set_action. cbn [task key data type].
  rewrite (cstr_bytes_of v Hv).
  change (strncmp "ustate" "ustate" (strlen "ustate" + 1) =? 0) with true.
  cbv iota. now rewrite Hr.
Qed.

Lemma apply_set_ustate_accepted (env : BGENV) (v : string) (ty e0 : Z) :
  is_cstring v = true -> refused v = false ->
  let u := (value (strtol v) mod ULONG_WIDTH) mod UINT16_WIDTH in
  apply_action env (set_action "ustate" ty (bytes_of v)) e0 =
    Some (fst (ebg_env_setglobalstate env u), 0,
          SetGlobalState u ::
          if negb (snd (ebg_env_setglobalstate env u) =? 0)
          then [Stderr "Error setting global state"] else []).
Proof.
  intros Hv Hr u. unfold apply_action, set_action. cbn [task key data type].
  rewrite (cstr_bytes_of v Hv).
  change (strncmp "ustate" "ustate" (strlen "ustate" + 1) =? 0) with true.
  cbv iota. now rewrite Hr.
Qed.

End Actions.

(** ** Delete *)

Lemma find_set_uservar (u : list uservar) (k : string) (ty : Z)
    (v : list ascii) :
  Model.find_uservar (Model.set_uservar u k ty v) k = Some (mk_uservar k ty v).
Proof.
  induction u as [|x u IH]; cbn [Model.set_uservar Model.find_uservar uv_key].
  - now rewrite String.eqb_refl.
  - destruct (String.eqb (uv_key x) k) eqn:E;
      cbn [Model.find_uservar uv_key].
    + now rewrite String.eqb_refl.
    + now rewrite E.
Qed.

Lemma set_set_uservar (u : list uservar) (k : string) (ty1 ty2 : Z)
    (v1 v2 : list ascii) :
  Model.set_uservar (Model.set_uservar u k ty1 v1) k ty2 v2
  = Model.set_uservar u k ty2 v2.
Proof.
  induction u as [|x u IH]; cbn [Model.set_uservar uv_key].
  - now rewrite String.eqb_refl.
  - destruct (String.eqb (uv_key x) k) eqn:E; cbn [Model.set_uservar uv_key].
    + now rewrite String.eqb_refl.
    + now rewrite E, IH.
Qed.

Lemma envdata_set_uservar (d : BG_ENVDATA) (k : string) (ty : Z) (v : string)
    (len : Z) :
  Model.is_member_key k = false ->
  Model.envdata_set d k ty v len =
    mk_envdata (kernelfile d) (kernelparams d) (in_progress d) (ustate d)
               (watchdog_timeout_sec d) (revision d)
               (Model.set_uservar (userdata d) k ty (memcpy v (Z.to_nat len)))
               (crc32 d).
Proof.
  unfold Model.is_member_key, Model.envdata_set. intros H.
  repeat (apply orb_false_elim in H as [H ?]).
  now repeat match goal with E : String.eqb _ _ = false |- _ =>
                               rewrite E; clear E end.
Qed.

Lemma member_key_ustate (k : string) :
  Model.is_member_key k = false -> k <> "ustate".
Proof. intros H ->. discriminate H. Qed.

(** C7.  A Delete action hands [bgenv_set] the empty string with the
    length 1 for its key, whatever the collaborators are.  In the store
    modelled from the spec that value overwrites the variable: behind the
    journal [Set (k, x); Delete (k)] the user variable [k] is in the record
    and its value is the empty string, one terminator long. *)
Theorem delete_stores_empty_string (k x : string) (ty1 ty2 dsc : Z)
    (d : BG_ENVDATA) (verbose : bool) (s : proc) :
  is_cstring k = true ->
  Model.is_member_key k = false ->
  is_cstring x = true ->
  head s = [set_action k ty1 (bytes_of x); del_action k ty2] ->
  (forall (col : Collaborators) env st,
      @journal_process_action col env (del_action k ty2) st =
        Val (@bgenv_set col env (Some k) ty2 "" 1)
            (log st [BgenvSet (Some k) ty2 "" 1]))
  /\ exists d',
       @update_environment Model.world Model.layout (mk_bgenv dsc (Some d))
         verbose s =
         Val (mk_bgenv dsc (Some d'))
             (with_head
                (log s [BgenvSet (Some k) ty1 x (Z.of_nat (strlen x) + 1);
                        BgenvSet (Some k) ty2 "" 1]) [])
       /\ Model.find_uservar (userdata d') k = Some (mk_uservar k ty2 [NUL])
       /\ cstr [NUL] = Some "".
Proof.
  intros Hk Hm Hx Hq. split.
  - intros col env st. now apply process_del.
  - pose proof (@update_environment_apply_all Model.world Model.layout
                  (mk_bgenv dsc (Some d)) verbose s) as U.
    rewrite Hq in U. cbn [apply_all] in U.
    rewrite (@apply_set_ordinary Model.world _ k x ty1 _ Hk
               (member_key_ustate k Hm) Hx) in U.
    rewrite (@apply_del Model.world) in U. cbn [app] in U.
    cbn [bgenv_set Model.world Model.bgenv_set edata desc] in U.
    rewrite with_errno_same in U.
    eexists. split; [exact U|]. split; [|reflexivity].
    cbn [userdata set_crc32].
    rewrite (envdata_set_uservar _ k ty2 "" 1 Hm). cbn [userdata].
    apply find_set_uservar.
Qed.

(** The witness of [delete_stores_empty_string]: the variable "owner" of
    slot 0. *)
Lemma delete_stores_empty_string_witness :
  exists d',
    @update_environment Model.world Model.layout Model.slot0 false
      (with_head Model.start
         [set_action "owner" 32 (bytes_of "x"); del_action "owner" (2 ^ 63)])
    = Val (mk_bgenv 0 (Some d'))
          (with_head
             (log (with_head Model.start
                     [set_action "owner" 32 (bytes_of "x");
                      del_action "owner" (2 ^ 63)])
                  [BgenvSet (Some "owner") 32 "x" 2;
                   BgenvSet (Some "owner") (2 ^ 63) "" 1]) [])
    /\ Model.find_uservar (userdata d') "owner"
       = Some (mk_uservar "owner" (2 ^ 63) [NUL])
    /\ cstr [NUL] = Some "".
Proof.
  exact (proj2 (delete_stores_empty_string "owner" "x" 32 (2 ^ 63) 0 _ false
                  (with_head Model.start
                     [set_action "owner" 32 (bytes_of "x");
                      del_action "owner" (2 ^ 63)])
                  eq_refl eq_refl eq_refl eq_refl)).
Defined.

(** ** Order of replay *)

Lemma memcpy_whole (v : string) : memcpy v (strlen v + 1) = bytes_of v.
Proof.
  unfold memcpy. apply firstn_all2. unfold bytes_of.
  rewrite length_app. simpl.
  assert (H : List.length (list_ascii_of_string v) = strlen v).
  { induction v as [|c v IH]; [reflexivity|]. simpl. now rewrite IH. }
  rewrite H. lia.
Qed.

Section Order.

Context {cfg : Config} {col : Collaborators} {lay : Layout}.

Lemma update_environment_val (env env' : BGENV) (verbose : bool)
    (st st' : proc) :
  update_environment env verbose st = Val env' st' <->
  exists env1 e evs,
    apply_all (head st) env (errno st) = Some (env1, e, evs)
    /\ seal env1 = Some env'
    /\ st' = with_head (log (with_errno st e) evs) [].
Proof.
  pose proof (update_environment_apply_all env verbose st) as U.
  unfold seal.
  destruct (apply_all (head st) env (errno st)) as [[[env1 e] evs]|].
  - rewrite U. split.
    + intros H. exists env1, e, evs. split; [reflexivity|].
      destruct (edata env1); [|discriminate]. now injection H as <- <-.
    + intros (env2 & e2 & evs2 & [= <- <- <-] & Hs & ->).
      destruct (edata env1); [|discriminate]. now injection Hs as <-.
  - destruct U as [s0 U]. rewrite U. split; [discriminate|].
    intros (? & ? & ? & [=] & _).
Qed.

(** Filing a Set with its three requests served. *)
Lemma add_set (k v : string) (ty : Z) (s : proc) :
  serves 3 s ->
  journal_add_action ENV_TASK_SET (Some k) ty (Some v) (strlen v + 1) s =
    Val 0 (with_head (served 3 s)
             (head s ++ [set_action k ty (bytes_of v)])).
Proof.
  intros H. rewrite <- (memcpy_whole v).
  replace (strlen v + 1)%nat with (S (strlen v)) by lia.
  now apply journal_add_action_payload.
Qed.

Lemma firstn_plus {A} (n m : nat) (l : list A) :
  firstn (n + m) l = firstn n l ++ firstn m (skipn n l).
Proof.
  revert l. induction n as [|n IH]; intros l; [reflexivity|].
  destruct l as [|x l]; cbn [Nat.add firstn skipn app].
  - now rewrite firstn_nil.
  - now rewrite IH.
Qed.

Lemma serves_le (n m : nat) (s : proc) :
  (n <= m)%nat -> serves m s -> serves n s.
Proof.
  unfold serves. intros Hle H.
  rewrite forallb_forall in *. intros b Hb. apply H.
  replace m with (n + (m - n))%nat by lia.
  rewrite firstn_plus. apply in_or_app. now left.
Qed.

Lemma serves_served (n m : nat) (s : proc) :
  serves (n + m) s -> serves m (served n s).
Proof.
  unfold serves, served, with_heap; cbn [heap].
  rewrite firstn_plus, forallb_app. intros H.
  now apply andb_prop in H as [_ H].
Qed.

End Order.

Section Fifo.

Context {cfg : Config} {col : Collaborators} {lay : Layout}.

Lemma apply_all_snoc (q : list env_action) (a : env_action) (env : BGENV)
    (e0 : Z) :
  apply_all (q ++ [a]) env e0 =
    match apply_all q env e0 with
    | None => None
    | Some (env1, e1, evs1) =>
        match apply_action env1 a e1 with
        | None => None
        | Some (env2, e2, evs2) => Some (env2, e2, evs1 ++ evs2)
        end
    end.
Proof.
  rewrite apply_all_app.
  destruct (apply_all q env e0) as [[[env1 e1] evs1]|]; [|reflexivity].
  cbn [apply_all].
  destruct (apply_action env1 a e1) as [[[env2 e2] evs2]|]; [|reflexivity].
  now rewrite app_nil_r.
Qed.

(** An action leaves a handle its record. *)
Lemma apply_action_record {X} (k : string) (f : BGENV -> X)
    (a : env_action) (env env' : BGENV) (e0 e : Z) (evs : list event) :
  stored_under k f ->
  apply_action env a e0 = Some (env', e, evs) ->
  edata env <> None -> edata env' <> None.
Proof.
  intros (Hset & Hglob & _) H Hd. unfold apply_action in H.
  destruct (task a).
  - destruct (key a) as [k'|]; [|discriminate].
    destruct (data a) as [buf|]; [|discriminate].
    destruct (cstr buf) as [v|]; [|discriminate].
    destruct (_ =? 0).
    + destruct (refused v); injection H as <- _ _; auto.
    + injection H as <- _ _. auto.
  - injection H as <- _ _. auto.
Qed.

Lemma apply_all_record {X} (k : string) (f : BGENV -> X)
    (q : list env_action) (env env' : BGENV) (e0 e : Z) (evs : list event) :
  stored_under k f ->
  apply_all q env e0 = Some (env', e, evs) ->
  edata env <> None -> edata env' <> None.
Proof.
  intros S. revert env e0 e evs.
  induction q as [|a q IH]; intros env e0 e evs H Hd; cbn [apply_all] in H.
  - now injection H as <- _ _.
  - destruct (apply_action env a e0) as [[[env1 e1] evs1]|] eqn:E1;
      [|discriminate].
    destruct (apply_all q env1 e1) as [[[env2 e2] evs2]|] eqn:E2;
      [|discriminate].
    injection H as <- _ _.
    exact (IH _ _ _ _ E2 (apply_action_record k f _ _ _ _ _ _ S E1 Hd)).
Qed.

(** An action under another key changes nothing of what is stored under
    [k]. *)
Lemma apply_action_other {X} (k : string) (f : BGENV -> X)
    (a : env_action) (env env' : BGENV) (e0 e : Z) (evs : list event) :
  stored_under k f ->
  key a <> Some k ->
  apply_action env a e0 = Some (env', e, evs) ->
  f env' = f env /\ Forall (not_set_of k) evs.
Proof.
  intros (_ & _ & _ & Hother & Hglob & _) Hk H. unfold apply_action in H.
  destruct (task a).
  - destruct (key a) as [k'|]; [|discriminate].
    destruct (data a) as [buf|]; [|discriminate].
    destruct (cstr buf) as [v|]; [|discriminate].
    destruct (_ =? 0).
    + destruct (refused v); injection H as <- _ <-.
      * split; [reflexivity|]. repeat constructor. discriminate.
      * split; [apply Hglob|].
        destruct (negb _); repeat constructor; discriminate.
    + injection H as <- _ <-. split; [now apply Hother|].
      repeat constructor. intros ty0 v0 len0 [= -> _ _ _]. now elim Hk.
  - injection H as <- _ <-. split; [now apply Hother|].
    repeat constructor. intros ty0 v0 len0 [= E _]. now elim Hk.
Qed.

Lemma apply_all_other {X} (k : string) (f : BGENV -> X)
    (q : list env_action) (env env' : BGENV) (e0 e : Z) (evs : list event) :
  stored_under k f ->
  (forall a, In a q -> key a <> Some k) ->
  apply_all q env e0 = Some (env', e, evs) ->
  f env' = f env /\ Forall (not_set_of k) evs.
Proof.
  intros S. revert env e0 e evs.
  induction q as [|a q IH]; intros env e0 e evs Hq H; cbn [apply_all] in H.
  - injection H as <- _ <-. now split.
  - destruct (apply_action env a e0) as [[[env1 e1] evs1]|] eqn:E1;
      [|discriminate].
    destruct (apply_all q env1 e1) as [[[env2 e2] evs2]|] eqn:E2;
      [|discriminate].
    injection H as <- _ <-.
    destruct (apply_action_other k f a env env1 e0 e1 evs1 S
                (Hq a (or_introl eq_refl)) E1) as [F1 N1].
    destruct (IH env1 e1 e2 evs2 (fun b Hb => Hq b (or_intror Hb)) E2)
      as [F2 N2].
    split; [congruence | now apply Forall_app].
Qed.

(** The last Set under a key decides what is stored under it. *)
Lemma last_set_wins {X} (k v : string) (ty : Z) (f : BGENV -> X)
    (q1 q2 : list env_action) (env env' : BGENV) (verbose : bool)
    (st st' : proc) :
  is_cstring k = true -> k <> "ustate" -> is_cstring v = true ->
  stored_under k f -> edata env <> None ->
  head st = q1 ++ set_action k ty (bytes_of v) :: q2 ->
  (forall a, In a q2 -> key a <> Some k) ->
  update_environment env verbose st = Val env' st' ->
  f env' = f (bgenv_set env (Some k) ty v (Z.of_nat (strlen v) + 1))
  /\ exists evs1 evs2,
       trace st' = trace st ++ evs1
                   ++ BgenvSet (Some k) ty v (Z.of_nat (strlen v) + 1) :: evs2
       /\ Forall (not_set_of k) evs2.
Proof.
  intros Hk Hne Hv S Hd Hq H2 H.
  apply update_environment_val in H as (envZ & e & evs & Ha & Hseal & ->).
  rewrite Hq, apply_all_app in Ha.
  destruct (apply_all q1 env (errno st)) as [[[envA eA] evsA]|] eqn:EA;
    [|discriminate].
  cbn [apply_all] in Ha.
  rewrite (apply_set_ordinary envA k v ty eA Hk Hne Hv) in Ha.
  destruct (apply_all q2 _ eA) as [[[envB eB] evsB]|] eqn:EB; [|discriminate].
  injection Ha as <- <- <-.
  destruct (apply_all_other k f q2 _ _ _ _ _ S H2 EB) as [FB NB].
  pose proof (apply_all_record k f q1 _ _ _ _ _ S EA Hd) as HdA.
  split.
  - unfold seal in Hseal. destruct envB as [dsc [d|]]; [|discriminate].
    cbn [edata desc] in Hseal. injection Hseal as <-.
    destruct S as (_ & _ & Hdet & _ & _ & Hcrc).
    rewrite Hcrc, FB. now apply Hdet.
  - exists evsA, evsB. split; [|exact NB].
    cbn [trace with_head log with_errno]. reflexivity.
Qed.

(** C3, as the code has it.  [journal_add_action] puts an action behind the
    last one of the queue, so two requests stand in the queue in the order
    in which they were made; [update_environment] applies the actions from
    the head of the queue on and returns with the queue empty.  Of two Sets
    on a key other than "ustate" the later one is handed to [bgenv_set]
    last, and where [bgenv_set] overwrites, the record is the one that the
    later Set alone gives.  Wherever the two Sets stand in the queue and
    whatever stands between them, as long as no action behind the later one
    is filed under the key, what is stored under the key at the end is what
    the later Set stores, and its call of [bgenv_set] is the last one under
    the key.  A Set on "ustate" whose payload is refused leaves the record
    as the actions before it made it. *)
Theorem journal_is_fifo (k v1 v2 x : string) (ty1 ty2 ty : Z) (env : BGENV)
    (verbose : bool) (s : proc) :
  is_cstring k = true -> k <> "ustate" ->
  is_cstring v1 = true -> is_cstring v2 = true ->
  is_cstring x = true -> refused x = true ->
  serves 6 s ->
  overwrites k ->
  let add1 := journal_add_action ENV_TASK_SET (Some k) ty1 (Some v1)
                                 (strlen v1 + 1) in
  let add2 := journal_add_action ENV_TASK_SET (Some k) ty2 (Some v2)
                                 (strlen v2 + 1) in
  (add1 ;;; add2) s =
    Val 0 (with_head (served 6 s)
             (head s ++ [set_action k ty1 (bytes_of v1);
                         set_action k ty2 (bytes_of v2)]))
  /\ (forall st env' st',
         update_environment env verbose st = Val env' st' ->
         head st' = []
         /\ exists env1 e evs,
              apply_all (head st) env (errno st) = Some (env1, e, evs)
              /\ seal env1 = Some env'
              /\ trace st' = trace st ++ evs)
  /\ (forall env' st',
         (add1 ;;; add2 ;;; update_environment env verbose) s = Val env' st' ->
         exists st'',
           (add2 ;;; update_environment env verbose) s = Val env' st'')
  /\ (forall q st env' st',
         head st = q ++ [set_action "ustate" ty (bytes_of x)] ->
         update_environment env verbose st = Val env' st' ->
         exists st'',
           update_environment env verbose (with_head st q) = Val env' st'')
  /\ (forall X (f : BGENV -> X) q0 q1 q2 st env' st',
         stored_under k f -> edata env <> None ->
         head st = q0 ++ set_action k ty1 (bytes_of v1)
                      :: q1 ++ set_action k ty2 (bytes_of v2) :: q2 ->
         (forall a, In a q2 -> key a <> Some k) ->
         update_environment env verbose st = Val env' st' ->
         f env' = f (bgenv_set env (Some k) ty2 v2 (Z.of_nat (strlen v2) + 1))
         /\ exists evs1 evs2,
              trace st' = trace st ++ evs1
                          ++ BgenvSet (Some k) ty2 v2
                               (Z.of_nat (strlen v2) + 1) :: evs2
              /\ Forall (not_set_of k) evs2).
Proof.
  intros Hk Hne Hv1 Hv2 Hx Hr Hs Hover add1 add2.
  assert (H3 : serves 3 s) by (apply (serves_le 3 6); [lia | exact Hs]).
  assert (H3' : serves 3 (with_head (served 3 s)
                            (head s ++ [set_action k ty1 (bytes_of v1)])))
    by (apply (serves_served 3 3 s Hs)).
  assert (E1 : add1 s = Val 0 (with_head (served 3 s)
                                 (head s ++ [set_action k ty1 (bytes_of v1)])))
    by (apply add_set, H3).
  assert (E2 : add2 (with_head (served 3 s)
                      (head s ++ [set_action k ty1 (bytes_of v1)]))
               = Val 0 (with_head (served 6 s)
                          (head s ++ [set_action k ty1 (bytes_of v1);
                                      set_action k ty2 (bytes_of v2)]))).
  { unfold add2. rewrite (add_set k v2 ty2 _ H3').
    unfold with_head, served, with_heap.
    cbn [head errno strtok_save heap trace].
    rewrite <- app_assoc, skipn_skipn. reflexivity. }
  split; [|split; [|split; [|split]]].
  - unfold bind. now rewrite E1, E2.
  - intros st env' st' H. apply update_environment_val in H
      as (env1 & e & evs & Ha & Hseal & ->).
    split; [reflexivity|]. exists env1, e, evs. now repeat split.
  - intros env' st' H.
    assert (H' : update_environment env verbose
                   (with_head (served 6 s)
                      (head s ++ [set_action k ty1 (bytes_of v1);
                                  set_action k ty2 (bytes_of v2)]))
                 = Val env' st').
    { unfold bind in H. now rewrite E1, E2 in H. }
    apply update_environment_val in H' as (env2 & e & evs & Ha & Hseal & _).
    cbn [head errno with_head served with_heap] in Ha.
    change [set_action k ty1 (bytes_of v1); set_action k ty2 (bytes_of v2)]
      with ([set_action k ty1 (bytes_of v1)]
              ++ [set_action k ty2 (bytes_of v2)]) in Ha.
    rewrite app_assoc, apply_all_snoc, apply_all_snoc in Ha.
    destruct (apply_all (head s) env (errno s)) as [[[env0 e0] evs0]|] eqn:E0;
      [|discriminate].
    rewrite (apply_set_ordinary env0 k v1 ty1 e0 Hk Hne Hv1) in Ha.
    rewrite (apply_set_ordinary _ k v2 ty2 e0 Hk Hne Hv2) in Ha.
    rewrite Hover in Ha. injection Ha as <- <- <-.
    unfold bind, add2. rewrite (add_set k v2 ty2 s H3).
    eexists. apply update_environment_val.
    cbn [head errno with_head served with_heap].
    rewrite apply_all_snoc, E0.
    rewrite (apply_set_ordinary env0 k v2 ty2 e0 Hk Hne Hv2).
    do 3 eexists. split; [reflexivity|]. split; [exact Hseal | reflexivity].
  - intros q st env' st' Hq H.
    apply update_environment_val in H as (env1 & e & evs & Ha & Hseal & _).
    rewrite Hq, apply_all_snoc in Ha.
    destruct (apply_all q env (errno st)) as [[[env0 e0] evs0]|] eqn:E0;
      [|discriminate].
    rewrite (apply_set_ustate_refused env0 x ty e0 Hx Hr) in Ha.
    injection Ha as <- <- <-.
    eexists. apply update_environment_val. cbn [head errno with_head].
    rewrite E0.
    do 3 eexists. split; [reflexivity|].
    split; [exact Hseal | reflexivity].
  - intros X f q0 q1 q2 st env' st' S Hd Hq H2 H.
    apply (last_set_wins k v2 ty2 f
             (q0 ++ set_action k ty1 (bytes_of v1) :: q1) q2 env env' verbose
             st st' Hk Hne Hv2 S Hd);
      [|exact H2 | exact H].
    rewrite Hq, <- app_assoc. reflexivity.
Qed.

End Fifo.

Lemma model_overwrites (k : string) : @overwrites Model.world k.
Proof.
  intros env t1 x1 l1 t2 x2 l2.
  cbn [bgenv_set Model.world]. unfold Model.bgenv_set.
  destruct env as [dsc [d|]]; [|reflexivity].
  cbn [edata desc]. do 2 f_equal.
  unfold Model.envdata_set.
  repeat match goal with
         | |- context [String.eqb k ?c] => destruct (String.eqb k c);
                                             [reflexivity|]
         end.
  cbn [kernelfile kernelparams in_progress ustate watchdog_timeout_sec
       revision userdata crc32].
  now rewrite set_set_uservar.
Qed.

Lemma find_set_uservar_other (u : list uservar) (k k' : string) (ty : Z)
    (v : list ascii) :
  k' <> k ->
  Model.find_uservar (Model.set_uservar u k' ty v) k = Model.find_uservar u k.
Proof.
  intros Hne. apply String.eqb_neq in Hne.
  induction u as [|x u IH]; cbn [Model.set_uservar Model.find_uservar uv_key].
  - now rewrite Hne.
  - destruct (String.eqb (uv_key x) k') eqn:E;
      cbn [Model.find_uservar uv_key].
    + apply String.eqb_eq in E. rewrite E, Hne. reflexivity.
    + now rewrite IH.
Qed.

Lemma model_stored_under (k : string) :
  Model.is_member_key k = false ->
  @stored_under Model.world _ k (Model.variable k).
Proof.
  intros Hm. unfold stored_under, Model.variable.
  cbn [bgenv_set ebg_env_setglobalstate Model.world].
  unfold Model.bgenv_set, Model.ebg_env_setglobalstate.
  split; [|split; [|split; [|split; [|split]]]].
  - intros [dsc [d|]] [k'|] ty v len H; cbn [edata] in *;
      first [discriminate | assumption].
  - intros env u H. exact H.
  - intros [dsc [d|]] [dsc' [d'|]] ty v len H H'; cbn [edata] in *;
      try contradiction.
    rewrite !(envdata_set_uservar _ k ty v len Hm). cbn [userdata].
    now rewrite !find_set_uservar.
  - intros [dsc [d|]] [k'|] ty v len H; cbn [edata]; try reflexivity.
    assert (Hne : k' <> k) by congruence.
    unfold Model.envdata_set.
    repeat match goal with
           | |- context [String.eqb k' ?c] =>
               destruct (String.eqb k' c); [reflexivity|]
           end.
    cbn [userdata]. now apply find_set_uservar_other.
  - reflexivity.
  - reflexivity.
Qed.

(** The witness of [journal_is_fifo]: the variable "owner" set twice, and
    "ustate" set to the text "abc"; and the queue that sets "owner", then
    "j", then "owner" again, which leaves the later value under "owner". *)
Lemma journal_is_fifo_witness :
  (@journal_add_action ENV_TASK_SET (Some "owner") 32 (Some "a")
     (strlen "a" + 1) ;;;
   @journal_add_action ENV_TASK_SET (Some "owner") 32 (Some "b")
     (strlen "b" + 1)) Model.start
  = Val 0 (with_head (served 6 Model.start)
             (head Model.start ++ [set_action "owner" 32 (bytes_of "a");
                                   set_action "owner" 32 (bytes_of "b")]))
  /\ (forall env' st',
         (@journal_add_action ENV_TASK_SET (Some "owner") 32 (Some "a")
            (strlen "a" + 1) ;;;
          @journal_add_action ENV_TASK_SET (Some "owner") 32 (Some "b")
            (strlen "b" + 1) ;;;
          @update_environment Model.world Model.layout Model.slot0 false)
           Model.start = Val env' st' ->
         exists st'',
           (@journal_add_action ENV_TASK_SET (Some "owner") 32 (Some "b")
              (strlen "b" + 1) ;;;
            @update_environment Model.world Model.layout Model.slot0 false)
             Model.start = Val env' st'')
  /\ (forall env' st',
         @update_environment Model.world Model.layout Model.slot0 false
           (with_head Model.start
              [set_action "owner" 32 (bytes_of "a");
               set_action "j" 32 (bytes_of "x");
               set_action "owner" 32 (bytes_of "b")])
         = Val env' st' ->
         Model.variable "owner" env'
         = Some (mk_uservar "owner" 32 (bytes_of "b"))).
Proof.
  assert (N : "owner" <> "ustate") by discriminate.
  pose proof (@journal_is_fifo Model.world Model.layout "owner" "a" "b" "abc"
                32 32 32 Model.slot0 false Model.start
                eq_refl N eq_refl eq_refl eq_refl eq_refl
                eq_refl (model_overwrites "owner")) as W.
  split; [exact (proj1 W)|].
  split; [exact (proj1 (proj2 (proj2 W)))|].
  intros env' st' H.
  destruct (proj2 (proj2 (proj2 (proj2 W))) _ (Model.variable "owner")
              [] [set_action "j" 32 (bytes_of "x")] []
              (with_head Model.start
                 [set_action "owner" 32 (bytes_of "a");
                  set_action "j" 32 (bytes_of "x");
                  set_action "owner" 32 (bytes_of "b")])
              env' st' (model_stored_under "owner" eq_refl)
              ltac:(discriminate) eq_refl ltac:(intros a []) H)
    as [E _].
  exact E.
Defined.

(** C3, as the spec has it, fails for the key "ustate".  The command line
    -s 2 -x ustate=abc files two Sets on "ustate", "2" before "abc"; the
    replay calls the global-state setter with 2, refuses "abc" with a
    message, and the session ends with 0 and the queue empty.  The state
    that is stored is the one of the earlier Set; the later Set alone
    stores none. *)
Lemma later_ustate_set_does_not_win :
  head (final (argp_parse (@parse_setenv_opt envdata_h Model.world)
                 [(chr "s", "2"); (chr "x", "ustate=abc")]
                 zero_arguments Model.start))
  = [set_action "ustate" 0 (bytes_of "2");
     set_action "ustate" 32 (bytes_of "abc")]
  /\ global_states
       (trace (final (@bg_setenv envdata_h Model.world Model.layout 5
                        [(chr "s", "2"); (chr "x", "ustate=abc")]
                        Model.start)))
     = [2]
  /\ In (Stderr "Invalid value for ustate: abc")
        (trace (final (@bg_setenv envdata_h Model.world Model.layout 5
                         [(chr "s", "2"); (chr "x", "ustate=abc")]
                         Model.start)))
  /\ global_states
       (trace (final (@bg_setenv envdata_h Model.world Model.layout 3
                        [(chr "x", "ustate=abc")] Model.start)))
     = []
  /\ exists s',
       @bg_setenv envdata_h Model.world Model.layout 5
         [(chr "s", "2"); (chr "x", "ustate=abc")] Model.start = Val 0 s'
       /\ head s' = [].
Proof.
  split; [vm_compute; reflexivity|]. split; [vm_compute; reflexivity|].
  split; [vm_compute; tauto|]. split; [vm_compute; reflexivity|].
  eexists. split; [vm_compute; reflexivity | reflexivity].
Qed.

(** ** The automatic update *)

Section AutoUpdate.

Context {cfg : Config} {col : Collaborators} {lay : Layout}.

Lemma apply_all_untouched {X} (f : BGENV -> X) (q : list env_action)
    (env env' : BGENV) (e0 e : Z) (evs : list event) :
  (forall a env0 e0 env1 e1 evs,
      In a q -> apply_action env0 a e0 = Some (env1, e1, evs) ->
      f env1 = f env0) ->
  apply_all q env e0 = Some (env', e, evs) -> f env' = f env.
Proof.
  revert env e0 e evs. induction q as [|a q IH]; intros env e0 e evs Hf H.
  - cbn in H. now injection H as <- _ _.
  - cbn [apply_all] in H.
    destruct (apply_action env a e0) as [[[env1 e1] evs1]|] eqn:E1;
      [|discriminate].
    destruct (apply_all q env1 e1) as [[[env2 e2] evs2]|] eqn:E2;
      [|discriminate].
    injection H as <- _ _.
    rewrite (IH env1 e1 e2 evs2); [|intros; eapply Hf; eauto using in_cons|exact E2].
    eapply Hf; [now left | exact E1].
Qed.

(** A session with -u, without -p and -f, whose options are all taken and
    whose environment is set up, goes into the automatic update. *)
Lemma bg_setenv_auto_update (argc : Z) (opts : list (Z * string))
    (s s1 : proc) (a : arguments_setenv) :
  (argc <? 2) = false ->
  argp_parse parse_setenv_opt opts zero_arguments (with_head s []) =
    Val (0, a) s1 ->
  auto_update a = true ->
  part_specified (common a) = false ->
  envfilepath (common a) = None ->
  bgenv_init = true ->
  bg_setenv argc opts s =
    ((if verbosity (common a) then dump_envs else ret tt) ;;;
     clone_latest (verbosity (common a))) (log s1 [Init]).
Proof.
  intros Hargc Hparse Hu Hp Hf Hinit.
  unfold bg_setenv. rewrite Hargc.
  unfold bind at 1, set_head at 1. unfold bind at 1.
  change (mk_proc [] (errno s) (strtok_save s) (heap s) (trace s))
    with (with_head s []).
  rewrite Hparse. cbn [negb Z.eqb]. rewrite Hu, Hp, Hf, Hinit.
  cbn [andb negb]. unfold bind at 1, emit at 1.
  reflexivity.
Qed.

(** C1, as the code has it.  When the latest and the oldest slot are
    opened with their records, the automatic update makes the record of the
    new slot the copy of the latest record, all members alike, counts its
    revision up by one in [uint32_t] arithmetic (the revision plus one
    below 0xFFFFFFFF, and 0 at 0xFFFFFFFF) and then runs
    [update_environment] on it: the journal is applied to that baseline, and
    whatever view of the record no action of the journal changes is the
    view of the old latest record. *)
Theorem auto_update_clones_latest {X} (f : BGENV -> X) (verbose : bool)
    (s : proc) (env_current env_new : BGENV) (current old : BG_ENVDATA) :
  bgenv_open_latest = Some env_current ->
  bgenv_open_oldest = Some env_new ->
  edata env_current = Some current ->
  edata env_new = Some old ->
  untouched f (head s) ->
  f (mk_bgenv (desc env_new) (Some (baseline current)))
  = f (mk_bgenv (desc env_new) (Some current)) ->
  let target := mk_bgenv (desc env_new) (Some (baseline current)) in
  let st := log s [OpenLatest; OpenOldest; Close (Some env_current)] in
  clone_latest verbose s = store target verbose st
  /\ (kernelfile (baseline current) = kernelfile current
      /\ kernelparams (baseline current) = kernelparams current
      /\ in_progress (baseline current) = in_progress current
      /\ ustate (baseline current) = ustate current
      /\ watchdog_timeout_sec (baseline current)
         = watchdog_timeout_sec current
      /\ userdata (baseline current) = userdata current
      /\ crc32 (baseline current) = crc32 current)
  /\ revision (baseline current) = (revision current + 1) mod UINT32_WIDTH
  /\ (0 <= revision current < UINT32_WIDTH - 1 ->
      revision (baseline current) = revision current + 1)
  /\ (revision current = UINT32_WIDTH - 1 -> revision (baseline current) = 0)
  /\ (forall env' st',
         update_environment target verbose st = Val env' st' ->
         (exists env1 e evs,
             apply_all (head s) target (errno s) = Some (env1, e, evs)
             /\ seal env1 = Some env')
         /\ store target verbose st =
              (emit (Write env') ;;;
               if negb (bgenv_write env') then
                 emit (Stderr "Error storing environment.") ;;;
                 cleanup (Some env') 1
               else cleanup (Some env') 0) st'
         /\ f env' = f (mk_bgenv (desc env_new) (Some current))).
Proof.
  intros Hl Ho Hc Hn [Hact Hseal] Hrev target st.
  split; [|split; [|split; [|split; [|split]]]].
  - unfold clone_latest. rewrite Hl, Ho, Hc, Hn.
    unfold bind, emit. cbn [head errno strtok_save heap trace].
    destruct verbose; unfold ret, st, log; cbn [trace];
      rewrite <- !app_assoc; reflexivity.
  - now repeat split.
  - reflexivity.
  - intros H. cbn [baseline set_revision revision].
    apply Z.mod_small. lia.
  - intros H. cbn [baseline set_revision revision]. now rewrite H.
  - intros env' st' H. split; [|split].
    + apply update_environment_val in H as (env1 & e & evs & Ha & Hs & _).
      now exists env1, e, evs.
    + unfold store. unfold bind at 1. now rewrite H.
    + apply update_environment_val in H as (env1 & e & evs & Ha & Hs & _).
      rewrite (Hseal _ _ Hs).
      rewrite (apply_all_untouched f _ _ _ _ _ _ Hact Ha).
      exact Hrev.
Qed.

End AutoUpdate.

(** The witness of [auto_update_clones_latest]: the two-slot store, the
    command line -u -k vmlinuz-5, and the kernel arguments as the view that
    the journal leaves alone.  The session stores the copy of slot 1, the
    latest, with revision 6 in slot 0, the oldest. *)
Lemma auto_update_clones_latest_witness :
  @bg_setenv envdata_h Model.world Model.layout 4
    [(chr "u", ""); (chr "k", "vmlinuz-5")] Model.start
  = @store Model.world Model.layout
      (mk_bgenv 0 (Some (baseline
                           (mk_envdata "vmlinuz-4" "root=/dev/sda3" 0 0 60 5
                              [mk_uservar "owner" 32 (bytes_of "bob")] 99))))
      false
      (log (log (with_head Model.start
                   [set_action "kernelfile" 0 (bytes_of "vmlinuz-5")])
                [Init])
           [OpenLatest; OpenOldest; Close (Some Model.slot1)])
  /\ revision (baseline
                 (mk_envdata "vmlinuz-4" "root=/dev/sda3" 0 0 60 5
                    [mk_uservar "owner" 32 (bytes_of "bob")] 99))
     = (5 + 1) mod UINT32_WIDTH.
Proof.
  assert (U : @untouched Model.world Model.layout _
                (fun env => option_map kernelparams (edata env))
                [set_action "kernelfile" 0 (bytes_of "vmlinuz-5")]).
  { split.
    - intros a env0 e0 env1 e1 evs [<- | []] H. cbn in H.
      injection H as <- _ _. now destruct env0 as [dsc [d|]].
    - intros env0 env1 H. unfold seal in H.
      destruct env0 as [dsc [d|]]; [|discriminate].
      now injection H as <-. }
  pose proof (@auto_update_clones_latest Model.world Model.layout _
                (fun env => option_map kernelparams (edata env)) false
                (log (with_head Model.start
                        [set_action "kernelfile" 0 (bytes_of "vmlinuz-5")])
                     [Init])
                Model.slot1 Model.slot0 _ _
                eq_refl eq_refl eq_refl eq_refl U eq_refl) as W.
  split; [|exact (proj1 (proj2 (proj2 W)))].
  exact (eq_trans
           (@bg_setenv_auto_update envdata_h Model.world Model.layout 4
              [(chr "u", ""); (chr "k", "vmlinuz-5")] Model.start
              (with_head Model.start
                 [set_action "kernelfile" 0 (bytes_of "vmlinuz-5")])
              (mk_setenv (mk_common None false 0 false) true false)
              eq_refl eq_refl eq_refl eq_refl eq_refl eq_refl)
           (proj1 W)).
Defined.

(** C1, as the spec has it, fails at the greatest revision.  On a store
    whose latest slot holds revision 0xFFFFFFFF, the session -u -k vmlinuz-5
    returns 0 and writes the copy of the latest record with revision 0,
    which is neither the revision of the latest record plus one nor above
    it. *)
Lemma revision_wraps_at_UINT32_MAX :
  option_map revision (edata Model.slot_last) = Some 4294967295
  /\ exists env' st',
       @bg_setenv envdata_h Model.world_last Model.layout 4
         [(chr "u", ""); (chr "k", "vmlinuz-5")] Model.start = Val 0 st'
       /\ In (Write env') (trace st')
       /\ option_map revision (edata env') = Some 0
       /\ option_map kernelparams (edata env') = Some "root=/dev/sda3"
       /\ 0 <> 4294967295 + 1.
Proof.
  split; [reflexivity|]. do 2 eexists.
  split; [vm_compute; reflexivity|].
  split; [cbn [trace]; do 5 right; left; reflexivity|].
  split; [reflexivity|]. split; [reflexivity | discriminate].
Qed.

(** ** The payload of "ustate" *)

Section UstatePayload.

Context {cfg : Config} {col : Collaborators} {lay : Layout}.

(** C4, at the input that the code lets through.  The payload "2abc" of a
    Set on "ustate" is a number with text behind it.  [process_ustate]
    looks at where [strtol] stopped only to see that it moved at all: the
    global-state setter is called with 2 and nothing is reported.
    [parse_int], which reads the numbers of the command line, turns the
    same text down.  The empty payload, a payload without digits and one
    out of the range of [long] are refused. *)
Theorem ustate_payload_with_trailing_text (env : BGENV) (ty : Z) (s : proc) :
  journal_process_action env (set_action "ustate" ty (bytes_of "2abc")) s =
    Val (fst (ebg_env_setglobalstate env 2))
        (log (with_errno s 0)
             (SetGlobalState 2 ::
              if negb (snd (ebg_env_setglobalstate env 2) =? 0)
              then [Stderr "Error setting global state"] else []))
  /\ parse_int "2abc" s = Val (-1) (with_errno s EINVAL)
  /\ refused "" = true
  /\ refused "abc" = true
  /\ refused "99999999999999999999" = true.
Proof.
  split; [|split; [|now repeat split]].
  - rewrite (process_set_ustate env ty (bytes_of "2abc") "2abc" s eq_refl).
    exact (process_ustate_accepted env "2abc" s eq_refl).
  - now rewrite parse_int_spec.
Qed.

Lemma update_environment_drain (env : BGENV) (verbose : bool) (s : proc) :
  update_environment env verbose s =
    (env' <- drain (List.length (head s)) env ;;
     match edata env' with
     | None => fault
     | Some d => ret (mk_bgenv (desc env') (Some (set_crc32 d (checksum d))))
     end) s.
Proof. reflexivity. Qed.

(** X1.  A Set on "ustate" whose payload is refused is reported, and it
    changes neither the record nor the global state: the handle is
    returned as it was, the setter is not called, and
    [update_environment] goes on with the actions behind it as it would
    without the action. *)
Lemma refused_payload_is_skipped (env : BGENV) (ty : Z) (v : string)
    (rest : list env_action) (verbose : bool) (s : proc) :
  is_cstring v = true -> refused v = true ->
  head s = set_action "ustate" ty (bytes_of v) :: rest ->
  exists s1,
    journal_process_action env (set_action "ustate" ty (bytes_of v)) s
    = Val env s1
    /\ trace s1 = trace s ++ [Stderr ("Invalid value for ustate: " ++ v)]
    /\ head s1 = head s
    /\ update_environment env verbose s
       = update_environment env verbose (with_head s1 rest).
Proof.
  intros Hv Hr Hq.
  pose proof (process_set_ustate env ty (bytes_of v) v s (cstr_bytes_of v Hv))
    as P.
  rewrite (process_ustate_refused env v s Hr) in P.
  eexists. split; [exact P|]. split; [reflexivity|]. split; [reflexivity|].
  rewrite !update_environment_drain. cbn [head with_head].
  rewrite Hq. cbn [List.length].
  unfold bind. rewrite drain_round, Hq, P.
  cbn [head log with_errno]. rewrite Hq. cbn [tl]. reflexivity.
Qed.

End UstatePayload.

(** The witness of [refused_payload_is_skipped]: the payload "abc" in front
    of a Set of the kernel. *)
Lemma refused_payload_is_skipped_witness :
  exists s1,
    @journal_process_action Model.world Model.slot0
      (set_action "ustate" 0 (bytes_of "abc"))
      (with_head Model.start
         [set_action "ustate" 0 (bytes_of "abc");
          set_action "kernelfile" 0 (bytes_of "vmlinuz-5")])
    = Val Model.slot0 s1
    /\ trace s1 = trace Model.start ++ [Stderr "Invalid value for ustate: abc"]
    /\ head s1 = [set_action "ustate" 0 (bytes_of "abc");
                  set_action "kernelfile" 0 (bytes_of "vmlinuz-5")]
    /\ @update_environment Model.world Model.layout Model.slot0 false
         (with_head Model.start
            [set_action "ustate" 0 (bytes_of "abc");
             set_action "kernelfile" 0 (bytes_of "vmlinuz-5")])
       = @update_environment Model.world Model.layout Model.slot0 false
           (with_head s1
              [set_action "kernelfile" 0 (bytes_of "vmlinuz-5")]).
Proof.
  exact (@refused_payload_is_skipped Model.world Model.layout Model.slot0 0
           "abc" [set_action "kernelfile" 0 (bytes_of "vmlinuz-5")] false
           (with_head Model.start
              [set_action "ustate" 0 (bytes_of "abc");
               set_action "kernelfile" 0 (bytes_of "vmlinuz-5")])
           eq_refl eq_refl eq_refl).
Defined.

(** ** Invariants of a computation *)

Lemma hoare_ret {A} (P : proc -> Prop) (Q : A -> proc -> Prop) (a : A) :
  (forall s, P s -> Q a s) -> hoare P (ret a) Q.
Proof. intros H s Hs a' s' [= <- <-]. auto. Qed.

Lemma hoare_bind {A B} (P : proc -> Prop) (R : A -> proc -> Prop)
    (Q : B -> proc -> Prop) (m : M A) (f : A -> M B) :
  hoare P m R -> (forall a, hoare (R a) (f a) Q) -> hoare P (bind m f) Q.
Proof.
  intros Hm Hf s Hs b s' H. unfold bind in H.
  destruct (m s) as [a s1| |] eqn:E; try discriminate.
  exact (Hf a s1 (Hm s Hs a s1 E) b s' H).
Qed.

Lemma hoare_conseq {A} (P P' : proc -> Prop) (Q Q' : A -> proc -> Prop)
    (m : M A) :
  hoare P m Q -> (forall s, P' s -> P s) -> (forall a s, Q a s -> Q' a s) ->
  hoare P' m Q'.
Proof. intros H HP HQ s Hs a s' E. eauto. Qed.

Lemma hoare_exit {A} P (Q : A -> proc -> Prop) c : hoare P (exit c) Q.
Proof. intros s _ a s' [=]. Qed.

Lemma hoare_fault {A} P (Q : A -> proc -> Prop) : hoare P fault Q.
Proof. intros s _ a s' [=]. Qed.

Lemma keeps_ret {A} (a : A) : keeps_head (ret a).
Proof. intros q. now apply hoare_ret. Qed.

Lemma keeps_bind {A B} (m : M A) (f : A -> M B) :
  keeps_head m -> (forall a, keeps_head (f a)) -> keeps_head (bind m f).
Proof. intros Hm Hf q. eapply hoare_bind; [apply Hm | intros a; apply Hf]. Qed.

Lemma keeps_emit e : keeps_head (emit e).
Proof. intros q s Hs a s' [= _ <-]. exact Hs. Qed.

Lemma keeps_alloc : keeps_head alloc.
Proof.
  intros q s Hs a s'. unfold alloc.
  destruct (heap s); intros [= <- <-]; exact Hs.
Qed.

Lemma keeps_get_errno : keeps_head get_errno.
Proof. intros q s Hs a s' [= <- <-]. exact Hs. Qed.

Lemma keeps_set_errno e : keeps_head (set_errno e).
Proof. intros q s Hs a s' [= _ <-]. exact Hs. Qed.

Lemma keeps_get_save : keeps_head get_save.
Proof. intros q s Hs a s' [= <- <-]. exact Hs. Qed.

Lemma keeps_set_save p : keeps_head (set_save p).
Proof. intros q s Hs a s' [= _ <-]. exact Hs. Qed.

Lemma keeps_get_head : keeps_head get_head.
Proof. intros q s Hs a s' [= <- <-]. exact Hs. Qed.

Lemma keeps_exit {A} c : keeps_head (@exit A c).
Proof. intros q. apply hoare_exit. Qed.

Lemma keeps_fault {A} : keeps_head (@fault A).
Proof. intros q. apply hoare_fault. Qed.

Create HintDb keeps discriminated.
#[global] Hint Resolve keeps_emit keeps_alloc keeps_get_errno keeps_set_errno
  keeps_get_save keeps_set_save keeps_get_head keeps_exit keeps_fault
  : keeps.

Ltac keeps_step :=
  match goal with
  | |- keeps_head (bind _ _) => apply keeps_bind; [|intros ?]
  | |- keeps_head (ret _) => apply keeps_ret
  | |- keeps_head (if ?b then _ else _) => destruct b
  | |- keeps_head (match ?x with _ => _ end) => destruct x
  | |- keeps_head (let (_, _) := ?x in _) => destruct x
  | |- keeps_head _ => solve [eauto with keeps]
  end.

Ltac keeps_walk := repeat (keeps_step; cbn beta iota).

(** ** What the option parser files *)

Section ParserJournal.

Context {cfg : Config} {col : Collaborators} {lay : Layout}.

Lemma keeps_parse_int arg : keeps_head (parse_int arg).
Proof. unfold parse_int. keeps_walk. Qed.

Lemma keeps_parse_common_opt key arg compat a :
  keeps_head (parse_common_opt key arg compat a).
Proof. unfold parse_common_opt. keeps_walk. apply keeps_parse_int. Qed.

Lemma journal_add_action_files task key ty data datalen q :
  hoare (head_is q) (journal_add_action task key ty data datalen)
    (fun e s' =>
       (e = 0 /\ head s' = q ++ [filed task key ty data datalen])
       \/ (e = ENOMEM /\ head s' = q)).
Proof.
  intros s Hs e s'. unfold head_is in Hs. subst q.
  unfold journal_add_action, STAILQ_INSERT_TAIL, bind, alloc, ret,
    get_head, set_head, filed.
  destruct (heap s) as [|[|] h]; cbn;
    destruct key, data as [d|], datalen; cbn;
    repeat match goal with
           | |- context [match ?h with [] => _ | _ :: _ => _ end] =>
               destruct h as [|[|] ?]; cbn
           end;
    intros [= <- <-]; cbn; auto.
Qed.

Lemma hoare_journal_error (e : Z) (a : arguments_setenv) q
    (Q : Z * arguments_setenv -> proc -> Prop) :
  (forall s, head s = q -> Q (e, a) s) ->
  hoare (head_is q) (journal_error e a) Q.
Proof.
  intros H. unfold journal_error.
  apply (hoare_bind _ (fun _ => head_is q)).
  - destruct (negb (e =? 0)); [apply keeps_emit | apply keeps_ret].
  - intros _. apply hoare_ret. exact H.
Qed.

Lemma hoare_file (task : BGENV_TASK) key ty data datalen
    (a : arguments_setenv) q (Q : Z * arguments_setenv -> proc -> Prop) :
  (forall s, head s = q ++ [filed task key ty data datalen] -> Q (0, a) s) ->
  (forall s, head s = q -> Q (ENOMEM, a) s) ->
  hoare (head_is q)
    (e <- journal_add_action task key ty data datalen ;; journal_error e a) Q.
Proof.
  intros H0 H1.
  eapply hoare_bind; [apply journal_add_action_files|].
  intros e s [[-> Hs] | [-> Hs]] r s' E.
  - apply (hoare_journal_error 0 a (q ++ [filed task key ty data datalen]) Q H0
             s Hs r s' E).
  - apply (hoare_journal_error ENOMEM a q Q H1 s Hs r s' E).
Qed.

Lemma cstr_bytes_of_some (d : string) : exists v, cstr (bytes_of d) = Some v.
Proof.
  unfold bytes_of. induction d as [|c d [v IH]]; cbn.
  - now exists "".
  - destruct (Ascii.eqb c NUL); [now exists ""|].
    rewrite IH. now eexists.
Qed.

(** A Set that holds a copy of a whole string can be replayed. *)
Lemma filed_set_replayable (k d : string) (ty : Z) :
  replayable (filed ENV_TASK_SET (Some k) ty (Some d) (strlen d + 1)).
Proof.
  unfold replayable, filed. cbn [task key data].
  split; [discriminate|].
  destruct (cstr_bytes_of_some d) as [v Hv].
  exists (bytes_of d), v. split; [|exact Hv].
  rewrite <- memcpy_whole. now rewrite Nat.add_1_r.
Qed.

Lemma set_uservars_files arg q :
  hoare (head_is q) (set_uservars arg)
    (fun e s' =>
       head s' = q
       \/ (e = 0 /\ exists act, head s' = q ++ [act] /\ replayable act)).
Proof.
  unfold set_uservars.
  apply (hoare_bind _ (fun _ => head_is q)); [apply keeps_get_save|].
  intros save. destruct (strtok (Some arg) "=" save) as [key save1].
  apply (hoare_bind _ (fun _ => head_is q)); [apply keeps_set_save|].
  intros _. destruct key as [k|]; [|apply hoare_ret; now left].
  destruct (strtok None "=" save1) as [value save2].
  apply (hoare_bind _ (fun _ => head_is q)); [apply keeps_set_save|].
  intros _. destruct value as [v|].
  - eapply hoare_conseq;
      [apply (journal_add_action_files _ _ _ _ _ q) | now intros s |].
    intros e s [[-> Hs] | [_ Hs]]; [right | now left].
    split; [reflexivity|]. eexists. split; [exact Hs|].
    apply filed_set_replayable.
  - eapply hoare_conseq;
      [apply (journal_add_action_files _ _ _ _ _ q) | now intros s |].
    intros e s [[-> Hs] | [_ Hs]]; [right | now left].
    split; [reflexivity|]. eexists. split; [exact Hs|]. exact I.
Qed.

Lemma keeps_head_hoare {A} (m : M A) q :
  keeps_head m -> hoare (head_is q) m (fun _ => head_is q).
Proof. intros H. apply H. Qed.

#[local] Hint Resolve keeps_parse_int keeps_parse_common_opt : keeps.

Lemma hoare_uservars arg (a : arguments_setenv) q :
  hoare (head_is q) (e <- set_uservars arg ;; journal_error e a)
    (files_one q).
Proof.
  eapply hoare_bind; [apply set_uservars_files|].
  intros e s0 [Hs0 | (-> & act & Hs0 & Hact)] r s' E.
  - apply (hoare_journal_error e a q (files_one q)) with (s := s0) (2 := Hs0);
      [|exact E].
    intros s Hs. now left.
  - apply (hoare_journal_error 0 a (q ++ [act]) (files_one q))
      with (s := s0) (2 := Hs0); [|exact E].
    intros s Hs. right. split; [reflexivity|]. now exists act.
Qed.

Ltac file_leaf :=
  first
    [ left; assumption
    | right; split; [reflexivity|]; eexists; split; [eassumption|];
      first [apply filed_set_replayable | exact I
            | (split; [discriminate|]; do 2 eexists; split; reflexivity) ] ].

Lemma parse_setenv_opt_files key arg a q :
  hoare (head_is q) (parse_setenv_opt key arg a) (files_one q).
Proof.
  unfold parse_setenv_opt.
  repeat match goal with
  | |- hoare _ (bind (journal_add_action _ _ _ _ _) _) _ =>
      apply hoare_file; intros s Hs; unfold files_one; cbn [fst snd];
      file_leaf
  | |- hoare _ (journal_error _ _) _ =>
      apply hoare_journal_error; intros s Hs; now left
  | |- hoare _ (bind (set_uservars _) _) _ => apply hoare_uservars
  | |- hoare _ (bind (parse_common_opt _ _ _ _) _) _ =>
      apply (hoare_bind _ (fun _ => head_is q));
      [apply keeps_parse_common_opt |
       intros r; apply hoare_ret; intros s Hs; now left]
  | |- hoare _ argp_usage _ => apply hoare_exit
  | |- hoare _ (ret _) _ => apply hoare_ret; intros s Hs; now left
  | |- hoare _ (if ?b then _ else _) _ => destruct b
  | |- hoare _ (match ?x with _ => _ end) _ => destruct x
  | |- hoare _ (bind _ _) _ =>
      apply (hoare_bind _ (fun _ => head_is q));
      [ apply keeps_head_hoare; solve [keeps_walk] | intros ? ]
  end.
Qed.

Lemma argp_parse_files opts a q :
  hoare (head_is q) (argp_parse parse_setenv_opt opts a)
    (fun _ s' =>
       exists l, head s' = q ++ l /\ (List.length l <= List.length opts)%nat
                 /\ Forall replayable l).
Proof.
  revert a q. induction opts as [|[key arg] opts IH]; intros a q;
    cbn [argp_parse].
  - apply hoare_ret. intros s Hs. exists []. rewrite app_nil_r.
    split; [exact Hs | split; [apply le_n | constructor]].
  - eapply hoare_bind; [apply parse_setenv_opt_files|].
    intros r.
    assert (Hgo : forall q1 l1,
               q1 = q ++ l1 -> (List.length l1 <= 1)%nat ->
               Forall replayable l1 ->
               hoare (head_is q1)
                 (if (fst r =? 0) || (fst r =? ARGP_ERR_UNKNOWN)
                  then argp_parse parse_setenv_opt opts (snd r) else ret r)
                 (fun _ s' =>
                    exists l, head s' = q ++ l
                              /\ (List.length l <= S (List.length opts))%nat
                              /\ Forall replayable l)).
    { intros q1 l1 -> Hl1 Hr1. destruct (_ || _).
      - eapply hoare_conseq; [apply (IH (snd r) (q ++ l1)) | now intros s |].
        intros _ s (l & Hs & Hl & Hr). exists (l1 ++ l).
        rewrite Hs, app_assoc, length_app.
        split; [reflexivity | split; [lia | now apply Forall_app]].
      - apply hoare_ret. intros s Hs. exists l1.
        split; [exact Hs | split; [lia | exact Hr1]]. }
    intros s [Hs | (_ & act & Hs & Hact)].
    + apply (Hgo q []); [now rewrite app_nil_r | simpl; lia | constructor
                        | exact Hs].
    + apply (Hgo (q ++ [act]) [act]);
        [reflexivity | simpl; lia | now repeat constructor | exact Hs].
Qed.

Lemma replayable_apply (env : BGENV) (a : env_action) (e0 : Z) :
  replayable a -> exists env' e evs, apply_action env a e0 = Some (env', e, evs).
Proof.
  unfold replayable, apply_action. destruct (task a).
  - intros (Hk & buf & v & -> & ->). destruct (key a) as [k|]; [|now elim Hk].
    destruct (_ =? 0); [destruct (refused v)|]; do 3 eexists; reflexivity.
  - intros _. do 3 eexists. reflexivity.
Qed.

Lemma replayable_apply_all (q : list env_action) (env : BGENV) (e0 : Z) :
  Forall replayable q -> exists env' e evs, apply_all q env e0 = Some (env', e, evs).
Proof.
  intros H. revert env e0. induction H as [|a q Ha _ IH]; intros env e0.
  - do 3 eexists. reflexivity.
  - cbn [apply_all].
    destruct (replayable_apply env a e0 Ha) as (env1 & e1 & evs1 & ->).
    destruct (IH env1 e1) as (env2 & e2 & evs2 & ->).
    do 3 eexists. reflexivity.
Qed.

(** X4.  One call of [parse_setenv_opt] leaves the queue as it was or puts
    one action behind the actions that are there, and an option that it
    answers with anything but 0 files nothing. *)
Theorem option_files_at_most_one_action (key : Z) (arg : string)
    (a : arguments_setenv) (s : proc) (r : Z * arguments_setenv) (s' : proc) :
  parse_setenv_opt key arg a s = Val r s' ->
  (head s' = head s \/ exists act, head s' = head s ++ [act])
  /\ (fst r <> 0 -> head s' = head s).
Proof.
  intros H.
  destruct (parse_setenv_opt_files key arg a (head s) s eq_refl r s' H)
    as [Hs | (Hr & act & Hs & _)].
  - split; [now left | now intros _].
  - split; [right; now exists act | intros Hn; now elim Hn].
Qed.

(** X5.  Behind a parse that started on the empty queue, the queue holds at
    most one action for each option, and the loop of [update_environment]
    comes through it and leaves it empty: no action that the parser files
    lacks the key or the terminated payload that [journal_process_action]
    reads. *)
Theorem parsed_journal_replays (opts : list (Z * string))
    (a : arguments_setenv) (s : proc) (r : Z * arguments_setenv) (s' : proc)
    (env : BGENV) :
  head s = [] ->
  argp_parse parse_setenv_opt opts a s = Val r s' ->
  (List.length (head s') <= List.length opts)%nat
  /\ exists env' s'',
       drain (List.length (head s')) env s' = Val env' s'' /\ head s'' = [].
Proof.
  intros Hq H.
  destruct (argp_parse_files opts a [] s Hq r s' H) as (l & Hs & Hl & Hr).
  cbn [app] in Hs. rewrite Hs. split; [exact Hl|].
  pose proof (drain_apply_all (List.length l) env s') as D.
  rewrite Hs in D. specialize (D (le_n _)).
  destruct (replayable_apply_all l env (errno s') Hr) as (env1 & e1 & evs & E).
  rewrite E in D. do 2 eexists. split; [exact D | reflexivity].
Qed.

End ParserJournal.

(** The witness of [option_files_at_most_one_action]: -k vmlinuz-5. *)
Lemma option_files_at_most_one_action_witness :
  (head (with_head Model.start
           [set_action "kernelfile" 0 (bytes_of "vmlinuz-5")])
   = head Model.start
   \/ exists act,
        head (with_head Model.start
                [set_action "kernelfile" 0 (bytes_of "vmlinuz-5")])
        = head Model.start ++ [act])
  /\ (fst (0, zero_arguments) <> 0 ->
      head (with_head Model.start
              [set_action "kernelfile" 0 (bytes_of "vmlinuz-5")])
      = head Model.start).
Proof.
  exact (@option_files_at_most_one_action envdata_h Model.world
           (chr "k") "vmlinuz-5" zero_arguments Model.start
           (0, zero_arguments)
           (with_head Model.start
              [set_action "kernelfile" 0 (bytes_of "vmlinuz-5")])
           eq_refl).
Defined.

(** The witness of [parsed_journal_replays]: -k vmlinuz-5 -x owner=carol. *)
Lemma parsed_journal_replays_witness :
  (List.length
     (head (with_head Model.start
              [set_action "kernelfile" 0 (bytes_of "vmlinuz-5");
               set_action "owner" 32 (bytes_of "carol")])) <= 2)%nat
  /\ exists env' s'',
       @drain Model.world
         (List.length
            (head (with_head Model.start
                     [set_action "kernelfile" 0 (bytes_of "vmlinuz-5");
                      set_action "owner" 32 (bytes_of "carol")])))
         Model.slot0
         (with_head Model.start
            [set_action "kernelfile" 0 (bytes_of "vmlinuz-5");
             set_action "owner" 32 (bytes_of "carol")])
       = Val env' s''
       /\ head s'' = [].
Proof.
  exact (@parsed_journal_replays envdata_h Model.world
           [(chr "k", "vmlinuz-5"); (chr "x", "owner=carol")]
           zero_arguments Model.start (0, zero_arguments)
           (with_head Model.start
              [set_action "kernelfile" 0 (bytes_of "vmlinuz-5");
               set_action "owner" 32 (bytes_of "carol")])
           Model.slot0 eq_refl eq_refl).
Defined.

(** ** The arguments behind the parse *)

Lemma hoare_any {A} (P : proc -> Prop) (m : M A) :
  hoare P m (fun _ _ => True).
Proof. now intros s _ a s' _. Qed.

(** A flag of the arguments that no option takes back is set behind a parse
    that came through an option that sets it. *)
Lemma argp_parse_flag {A} (parser : Z -> string -> A -> M (Z * A))
    (flag : A -> Prop) (key0 : Z) (arg0 : string) :
  (forall key arg a s r s',
      parser key arg a s = Val r s' -> goes_on (fst r) -> flag a ->
      flag (snd r)) ->
  (forall a s r s',
      parser key0 arg0 a s = Val r s' -> goes_on (fst r) -> flag (snd r)) ->
  forall opts a s r s',
    In (key0, arg0) opts ->
    argp_parse parser opts a s = Val r s' -> fst r = 0 -> flag (snd r).
Proof.
  intros Hkeep Hset opts.
  assert (Hrest : forall opts a s r s',
             flag a -> argp_parse parser opts a s = Val r s' -> fst r = 0 ->
             flag (snd r)).
  { clear opts. induction opts as [|[key arg] opts IH];
      intros a s r s' Ha H Hr; cbn [argp_parse] in H.
    - injection H as <- _. exact Ha.
    - unfold bind in H.
      destruct (parser key arg a s) as [r1 s1| |] eqn:E; try discriminate.
      destruct ((fst r1 =? 0) || (fst r1 =? ARGP_ERR_UNKNOWN)) eqn:G.
      + apply (IH _ _ _ _ (Hkeep _ _ _ _ _ _ E
                  ltac:(apply orb_prop in G as [G|G]; apply Z.eqb_eq in G;
                        [now left | now right]) Ha) H Hr).
      + injection H as <- _. apply orb_false_elim in G as [G _].
        apply Z.eqb_neq in G. contradiction. }
  induction opts as [|[key arg] opts IH]; intros a s r s' Hin H Hr;
    [contradiction|].
  cbn [argp_parse] in H. unfold bind in H.
  destruct (parser key arg a s) as [r1 s1| |] eqn:E; try discriminate.
  destruct ((fst r1 =? 0) || (fst r1 =? ARGP_ERR_UNKNOWN)) eqn:G.
  - assert (G' : goes_on (fst r1)).
    { apply orb_prop in G as [G|G]; apply Z.eqb_eq in G;
        [now left | now right]. }
    destruct Hin as [[= -> ->] | Hin].
    + exact (Hrest _ _ _ _ _ (Hset _ _ _ _ E G') H Hr).
    + exact (IH _ _ _ _ Hin H Hr).
  - injection H as <- _. apply orb_false_elim in G as [G _].
    apply Z.eqb_neq in G. contradiction.
Qed.

Section Flags.

Context {cfg : Config} {col : Collaborators} {lay : Layout}.

(** What [parse_common_opt] does to the arguments. *)
Lemma parse_common_opt_args key arg compat a :
  hoare (fun _ => True) (parse_common_opt key arg compat a)
    (fun r _ =>
       (part_specified a = true -> part_specified (snd r) = true)
       /\ (key = chr "p" -> fst r = 0 -> part_specified (snd r) = true)
       /\ (envfilepath a <> None -> goes_on (fst r) ->
           envfilepath (snd r) <> None)
       /\ (key = chr "f" -> goes_on (fst r) -> envfilepath (snd r) <> None)).
Proof.
  unfold parse_common_opt, goes_on.
  destruct (key =? chr "f") eqn:Kf.
  { apply Z.eqb_eq in Kf. subst key.
    apply (hoare_bind _ (fun _ _ => True)); [apply hoare_any|]. intros dir.
    destruct dir;
      repeat (apply (hoare_bind _ (fun _ _ => True)); [apply hoare_any|];
              intros ?);
      match goal with |- hoare _ (if ?b then _ else _) _ => destruct b end;
      apply hoare_ret; intros _; cbn [fst snd envfilepath part_specified];
      unfold ENOMEM, ARGP_ERR_UNKNOWN;
      repeat split; try tauto; try discriminate; intros;
      first [lia | discriminate]. }
  destruct (key =? chr "p") eqn:Kp.
  { apply Z.eqb_eq in Kp. subst key.
    apply (hoare_bind _ (fun _ _ => True)); [apply hoare_any|]. intros i.
    apply (hoare_bind _ (fun _ _ => True)); [apply hoare_any|]. intros e.
    destruct (negb (e =? 0)).
    { apply (hoare_bind _ (fun _ _ => True)); [apply hoare_any|]. intros _.
      apply hoare_ret; intros _; cbn [fst snd];
        unfold ARGP_ERR_UNKNOWN;
        repeat split; try tauto; try discriminate; intros; lia. }
    destruct (_ && _).
    { apply hoare_ret; intros _; cbn [fst snd envfilepath part_specified];
        repeat split; try tauto; discriminate. }
    apply (hoare_bind _ (fun _ _ => True)); [apply hoare_any|]. intros _.
    apply hoare_ret; intros _; cbn [fst snd];
      unfold ARGP_ERR_UNKNOWN;
      repeat split; try tauto; try discriminate; intros; lia. }
  apply Z.eqb_neq in Kf, Kp.
  destruct (key =? chr "v").
  { apply (hoare_bind _ (fun _ _ => True)); [apply hoare_any|]. intros _.
    apply hoare_ret; intros _; cbn [fst snd envfilepath part_specified].
    repeat split; tauto. }
  destruct (key =? chr "V"); [apply hoare_exit|].
  apply hoare_ret; intros _; cbn [fst snd]. repeat split; tauto.
Qed.

Lemma journal_error_args (e : Z) (a : arguments_setenv) P
    (Q : Z * arguments_setenv -> Prop) :
  Q (e, a) -> hoare P (journal_error e a) (fun r _ => Q r).
Proof.
  intros H. unfold journal_error.
  apply (hoare_bind _ (fun _ _ => True)); [apply hoare_any|]. intros _.
  apply hoare_ret. intros s _. exact H.
Qed.

Ltac args_leaf :=
  unfold setenv_args_step;
  cbn [fst snd auto_update preserve_env common];
  repeat split; intros; try assumption; try discriminate; try tauto.

Lemma parse_setenv_opt_args key arg a :
  hoare (fun _ => True) (parse_setenv_opt key arg a)
    (fun r _ => setenv_args_step key a r).
Proof.
  unfold parse_setenv_opt.
  repeat match goal with
  | |- hoare _ (if key =? ?c then _ else _) _ =>
      let E := fresh "K" in
      destruct (key =? c) eqn:E;
      [apply Z.eqb_eq in E; subst key | apply Z.eqb_neq in E]
  end.
  12: { eapply hoare_bind; [apply parse_common_opt_args|]. intros r.
        apply hoare_ret. intros _ (H1 & H2 & H3 & H4).
        unfold setenv_args_step. cbn [fst snd auto_update common].
        repeat split; intros; try assumption; try contradiction; auto. }
  all: repeat match goal with
  | |- hoare _ (journal_error _ _) _ => apply journal_error_args; args_leaf
  | |- hoare _ (ret _) _ => apply hoare_ret; intros _ _; args_leaf
  | |- hoare _ argp_usage _ => apply hoare_exit
  | |- hoare _ (if ?b then _ else _) _ => destruct b
  | |- hoare _ (match ?x with _ => _ end) _ => destruct x
  | |- hoare _ (bind _ _) _ =>
      apply (hoare_bind _ (fun _ _ => True)); [apply hoare_any | intros ?]
  end.
Qed.

End Flags.

(** ** -u and -p *)

Section Exclusive.

Context {cfg : Config} {col : Collaborators} {lay : Layout}.

Lemma setenv_flag_u opts a s r s' x :
  In (chr "u", x) opts ->
  argp_parse parse_setenv_opt opts a s = Val r s' -> fst r = 0 ->
  auto_update (snd r) = true.
Proof.
  apply (argp_parse_flag parse_setenv_opt (fun a => auto_update a = true)).
  - intros key arg a0 s0 r0 s0' E _ Ha.
    exact (proj1 (parse_setenv_opt_args key arg a0 s0 I r0 s0' E) Ha).
  - intros a0 s0 r0 s0' E _.
    exact (proj1 (proj2 (parse_setenv_opt_args _ x a0 s0 I r0 s0' E)) eq_refl).
Qed.

Lemma setenv_flag_p opts a s r s' y :
  In (chr "p", y) opts ->
  argp_parse parse_setenv_opt opts a s = Val r s' -> fst r = 0 ->
  part_specified (common (snd r)) = true.
Proof.
  apply (argp_parse_flag parse_setenv_opt
           (fun a => part_specified (common a) = true)).
  - intros key arg a0 s0 r0 s0' E _ Ha.
    exact (proj1 (proj2 (proj2 (parse_setenv_opt_args key arg a0 s0 I r0 s0' E)))
             Ha).
  - intros a0 s0 r0 s0' E G.
    destruct (parse_setenv_opt_args _ y a0 s0 I r0 s0' E)
      as (_ & _ & _ & Hp & _).
    destruct G as [G | G]; [exact (Hp eq_refl G)|].
    (* -p never answers ARGP_ERR_UNKNOWN *)
    exfalso. rewrite parse_setenv_opt_p, parse_common_opt_p in E.
    destruct (int_text y); [destruct (_ && _)|]; injection E as <- _;
      discriminate G.
Qed.

Lemma setenv_flag_f opts a s r s' path :
  In (chr "f", path) opts ->
  argp_parse parse_setenv_opt opts a s = Val r s' -> fst r = 0 ->
  envfilepath (common (snd r)) <> None.
Proof.
  apply (argp_parse_flag parse_setenv_opt
           (fun a => envfilepath (common a) <> None)).
  - intros key arg a0 s0 r0 s0' E G Ha.
    destruct (parse_setenv_opt_args key arg a0 s0 I r0 s0' E)
      as (_ & _ & _ & _ & Hf & _). exact (Hf Ha G).
  - intros a0 s0 r0 s0' E G.
    destruct (parse_setenv_opt_args _ path a0 s0 I r0 s0' E)
      as (_ & _ & _ & _ & _ & Hf). exact (Hf eq_refl G).
Qed.

(** [bg_setenv] up to the end of the parse. *)
Lemma bg_setenv_parsed (argc : Z) (opts : list (Z * string)) (st : proc) :
  bg_setenv argc opts st =
    if argc <? 2 then Val 1 st
    else
      match argp_parse parse_setenv_opt opts zero_arguments
                       (with_head st []) with
      | Val (e, arguments) st' =>
          if negb (e =? 0) then Val e st'
          else if auto_update arguments && part_specified (common arguments)
          then Val 1 (log st' [Stderr "Error, both automatic and manual partition selection. Cannot use -p and -u simultaneously."])
          else
            (match envfilepath (common arguments) with
            | Some path =>
                dumpenv_to_file path (verbosity (common arguments))
                                (preserve_env arguments)
            | None =>
                emit Init ;;;
                 if negb bgenv_init then
                   emit (Stderr "Error initializing FAT environment.") ;;;
                   ret 1
                 else
                   (if verbosity (common arguments) then dump_envs
                    else ret tt) ;;;
                   if auto_update arguments then
                     clone_latest (verbosity (common arguments))
                   else
                     env_new <-
                       (if part_specified (common arguments) then
                          emit (OpenByIndex (which_part (common arguments))) ;;;
                          ret (bgenv_open_by_index
                                 (which_part (common arguments)))
                        else emit OpenLatest ;;; ret bgenv_open_latest) ;;
                     match env_new with
                     | None =>
                         emit (Stderr "Failed to retrieve environment by index.") ;;;
                         cleanup None 1
                     | Some env_new =>
                         store env_new (verbosity (common arguments))
                     end
            end) st'
      | Exit c st' => Exit c st'
      | Fault st' => Fault st'
      end.
Proof.
  unfold bg_setenv. destruct (argc <? 2); [reflexivity|].
  unfold bind at 1. unfold set_head at 1. unfold bind at 1.
  change (mk_proc [] (errno st) (strtok_save st) (heap st) (trace st))
    with (with_head st []).
  destruct (argp_parse parse_setenv_opt opts zero_arguments (with_head st []))
    as [[e a] st'| |]; try reflexivity.
  destruct (negb (e =? 0)); [reflexivity|].
  destruct (auto_update a && part_specified (common a)); reflexivity.
Qed.

(** What the parse of [bg_setenv] leaves in the trace. *)
Lemma setenv_parse_trace (opts : list (Z * string)) (a : arguments_setenv)
    (st : proc) :
  exists evs,
    trace (final (argp_parse parse_setenv_opt opts a st)) = trace st ++ evs
    /\ Forall parser_event evs.
Proof.
  exact (proj1 (emits_argp_parse parse_setenv_opt opts a
                  emits_parse_setenv_opt st)).
Qed.

(** X6.  -u and -p exclude each other: a run of bg_setenv whose command
    line holds both, in any order and among any other options, does not end
    with 0 and makes no call of the storage layer. *)
Theorem update_and_part_exclude (argc : Z) (opts : list (Z * string))
    (x y : string) (st : proc) :
  In (chr "u", x) opts -> In (chr "p", y) opts ->
  stops_before_io (bg_setenv argc opts) st.
Proof.
  intros Hu Hp. unfold stops_before_io. rewrite bg_setenv_parsed.
  destruct (argc <? 2).
  { split; [discriminate|]. exists []. simpl. rewrite app_nil_r. now split. }
  destruct (setenv_parse_trace opts zero_arguments (with_head st []))
    as (evs & Ht & He).
  apply parser_event_no_storage in He.
  destruct (argp_parse parse_setenv_opt opts zero_arguments (with_head st []))
    as [[e a] st'| |] eqn:E; cbn [final] in Ht.
  - destruct (e =? 0) eqn:He0; cbn [negb].
    + apply Z.eqb_eq in He0. subst e.
      pose proof (setenv_flag_u _ _ _ _ _ x Hu E eq_refl) as Fu.
      pose proof (setenv_flag_p _ _ _ _ _ y Hp E eq_refl) as Fp.
      cbn [snd] in Fu, Fp. rewrite Fu, Fp. cbn [andb].
      split; [discriminate|].
      eexists. cbn [final log trace]. rewrite Ht, <- app_assoc.
      split; [reflexivity|]. apply Forall_app. split; [exact He|].
      repeat constructor. now intros [].
    + apply Z.eqb_neq in He0. split.
      * intros st'' [= H _]. contradiction.
      * exists evs. now split.
  - split; [discriminate|]. exists evs. now split.
  - split; [discriminate|]. exists evs. now split.
Qed.

End Exclusive.

(** The witness of [update_and_part_exclude]: -u -p 1. *)
Lemma update_and_part_exclude_witness :
  stops_before_io
    (@bg_setenv envdata_h Model.world Model.layout 4
       [(chr "u", ""); (chr "p", "1")])
    Model.start.
Proof.
  exact (@update_and_part_exclude envdata_h Model.world Model.layout 4
           [(chr "u", ""); (chr "p", "1")] "" "1" Model.start
           (or_introl eq_refl) (or_intror (or_introl eq_refl))).
Defined.

(** ** The options of bg_printenv *)

Section Printenv.

Context {cfg : Config} {col : Collaborators} {lay : Layout}.

Lemma parse_printenv_opt_args key arg a :
  hoare (fun _ => True) (parse_printenv_opt key arg a)
    (fun r _ => printenv_args_step key a r).
Proof.
  unfold parse_printenv_opt.
  repeat match goal with
  | |- hoare _ (if key =? ?c then _ else _) _ =>
      let E := fresh "K" in
      destruct (key =? c) eqn:E;
      [apply Z.eqb_eq in E; subst key | apply Z.eqb_neq in E]
  end.
  - apply hoare_ret. intros _ _. unfold printenv_args_step.
    cbn [fst snd current pcommon].
    repeat split; intros; try assumption; try discriminate; tauto.
  - apply (hoare_bind _ (fun _ _ => True)); [apply hoare_any|]. intros r.
    apply hoare_ret. intros _ _. unfold printenv_args_step.
    cbn [fst snd current pcommon].
    repeat split; intros; try assumption; try discriminate; tauto.
  - apply hoare_exit.
  - eapply hoare_bind; [apply parse_common_opt_args|]. intros r.
    apply hoare_ret. intros _ (H1 & H2 & H3 & H4).
    unfold printenv_args_step. cbn [fst snd current pcommon].
    repeat split; intros; try assumption; try contradiction; auto.
Qed.

Lemma printenv_flag_c opts a s r s' x :
  In (chr "c", x) opts ->
  argp_parse parse_printenv_opt opts a s = Val r s' -> fst r = 0 ->
  current (snd r) = true.
Proof.
  apply (argp_parse_flag parse_printenv_opt (fun a => current a = true)).
  - intros key arg a0 s0 r0 s0' E _ Ha.
    exact (proj1 (parse_printenv_opt_args key arg a0 s0 I r0 s0' E) Ha).
  - intros a0 s0 r0 s0' E _.
    exact (proj1 (proj2 (parse_printenv_opt_args _ x a0 s0 I r0 s0' E))
             eq_refl).
Qed.

Lemma printenv_flag_p opts a s r s' y :
  In (chr "p", y) opts ->
  argp_parse parse_printenv_opt opts a s = Val r s' -> fst r = 0 ->
  part_specified (pcommon (snd r)) = true.
Proof.
  apply (argp_parse_flag parse_printenv_opt
           (fun a => part_specified (pcommon a) = true)).
  - intros key arg a0 s0 r0 s0' E _ Ha.
    exact (proj1 (proj2 (proj2 (parse_printenv_opt_args key arg a0 s0 I r0 s0' E)))
             Ha).
  - intros a0 s0 r0 s0' E G.
    destruct (parse_printenv_opt_args _ y a0 s0 I r0 s0' E)
      as (_ & _ & _ & Hp & _).
    destruct G as [G | G]; [exact (Hp eq_refl G)|].
    exfalso. rewrite parse_printenv_opt_p, parse_common_opt_p in E.
    destruct (int_text y); [destruct (_ && _)|]; injection E as <- _;
      discriminate G.
Qed.

Lemma printenv_flag_f opts a s r s' path :
  In (chr "f", path) opts ->
  argp_parse parse_printenv_opt opts a s = Val r s' -> fst r = 0 ->
  envfilepath (pcommon (snd r)) <> None.
Proof.
  apply (argp_parse_flag parse_printenv_opt
           (fun a => envfilepath (pcommon a) <> None)).
  - intros key arg a0 s0 r0 s0' E G Ha.
    destruct (parse_printenv_opt_args key arg a0 s0 I r0 s0' E)
      as (_ & _ & _ & _ & Hf & _). exact (Hf Ha G).
  - intros a0 s0 r0 s0' E G.
    destruct (parse_printenv_opt_args _ path a0 s0 I r0 s0' E)
      as (_ & _ & _ & _ & _ & Hf). exact (Hf eq_refl G).
Qed.

(** [bg_printenv] up to the end of the parse. *)
Lemma bg_printenv_parsed (argc : Z) (opts : list (Z * string)) (st : proc) :
  bg_printenv argc opts st =
    match argp_parse parse_printenv_opt opts
            (mk_printenv (mk_common None false 0 false) false ALL_FIELDS)
            st with
    | Val (e, arguments) st' =>
        if negb (e =? 0) then Val e st'
        else
          let c := pcommon arguments in
          if (match envfilepath c with Some _ => 1 | None => 0 end)
             + (if part_specified c then 1 else 0)
             + (if current arguments then 1 else 0) >? 1
          then Val 1 (log st' [Stderr "Error, only one of -c/-f/-p can be set."])
          else
            (match envfilepath c with
             | Some path => printenv_from_file path
             | None =>
                 emit Init ;;;
                 if negb bgenv_init then
                   emit (Stderr "Error initializing FAT environment.") ;;;
                   ret 1
                 else
                   (if current arguments then dump_latest_env
                    else if part_specified c
                         then dump_env_by_index (which_part c)
                         else dump_envs) ;;;
                   emit Finalize ;;;
                   ret 0
             end) st'
    | Exit c st' => Exit c st'
    | Fault st' => Fault st'
    end.
Proof.
  unfold bg_printenv. unfold bind at 1.
  destruct (argp_parse parse_printenv_opt opts _ st) as [[e a] st'| |];
    try reflexivity.
  destruct (negb (e =? 0)); [reflexivity|]. cbv zeta.
  destruct (_ >? 1); reflexivity.
Qed.

Lemma printenv_parse_trace (opts : list (Z * string))
    (a : arguments_printenv) (st : proc) :
  exists evs,
    trace (final (argp_parse parse_printenv_opt opts a st)) = trace st ++ evs
    /\ Forall parser_event evs.
Proof.
  exact (proj1 (emits_argp_parse parse_printenv_opt opts a
                  emits_parse_printenv_opt st)).
Qed.

(** X7.  Of -c, -f and -p bg_printenv takes one: a run whose command line
    holds two of them does not end with 0 and makes no call of the storage
    layer. *)
Theorem printenv_selectors_exclude (argc : Z) (opts : list (Z * string))
    (x y z : string) (st : proc) :
  (In (chr "c", x) opts /\ In (chr "p", y) opts)
  \/ (In (chr "c", x) opts /\ In (chr "f", z) opts)
  \/ (In (chr "p", y) opts /\ In (chr "f", z) opts) ->
  stops_before_io (bg_printenv argc opts) st.
Proof.
  intros Hin. unfold stops_before_io. rewrite bg_printenv_parsed.
  destruct (printenv_parse_trace opts
              (mk_printenv (mk_common None false 0 false) false ALL_FIELDS) st)
    as (evs & Ht & He).
  apply parser_event_no_storage in He.
  destruct (argp_parse parse_printenv_opt opts _ st)
    as [[e a] st'| |] eqn:E; cbn [final] in Ht.
  - destruct (e =? 0) eqn:He0; cbn [negb].
    + apply Z.eqb_eq in He0. subst e. cbv zeta.
      assert (Hc : ((match envfilepath (pcommon a) with
                     | Some _ => 1 | None => 0 end)
                    + (if part_specified (pcommon a) then 1 else 0)
                    + (if current a then 1 else 0) >? 1) = true).
      { destruct Hin as [[Hc Hp] | [[Hc Hf] | [Hp Hf]]].
        - pose proof (printenv_flag_c _ _ _ _ _ x Hc E eq_refl) as Fc.
          pose proof (printenv_flag_p _ _ _ _ _ y Hp E eq_refl) as Fp.
          cbn [snd] in Fc, Fp. rewrite Fc, Fp.
          now destruct (envfilepath (pcommon a)).
        - pose proof (printenv_flag_c _ _ _ _ _ x Hc E eq_refl) as Fc.
          pose proof (printenv_flag_f _ _ _ _ _ z Hf E eq_refl) as Ff.
          cbn [snd] in Fc, Ff. rewrite Fc.
          destruct (envfilepath (pcommon a)); [|now elim Ff].
          now destruct (part_specified (pcommon a)).
        - pose proof (printenv_flag_p _ _ _ _ _ y Hp E eq_refl) as Fp.
          pose proof (printenv_flag_f _ _ _ _ _ z Hf E eq_refl) as Ff.
          cbn [snd] in Fp, Ff. rewrite Fp.
          destruct (envfilepath (pcommon a)); [|now elim Ff].
          now destruct (current a). }
      rewrite Hc. split; [discriminate|].
      eexists. cbn [final log trace]. rewrite Ht, <- app_assoc.
      split; [reflexivity|]. apply Forall_app. split; [exact He|].
      repeat constructor. now intros [].
    + apply Z.eqb_neq in He0. split.
      * intros st'' [= H _]. contradiction.
      * exists evs. now split.
  - split; [discriminate|]. exists evs. now split.
  - split; [discriminate|]. exists evs. now split.
Qed.

(** X8.  bg_printenv changes nothing: however a run ends, it has called
    neither [bgenv_set] nor the global-state setter, and it has written no
    slot and no file. *)
Theorem bg_printenv_is_read_only (argc : Z) (opts : list (Z * string))
    (st : proc) :
  exists evs,
    trace (final (bg_printenv argc opts st)) = trace st ++ evs
    /\ Forall (fun e => ~ mutating e) evs.
Proof.
  assert (D : forall n i, emits (fun e => ~ mutating e) any
                            (dump_envs_from n i)).
  { induction n as [|n IH]; intros i; cbn [dump_envs_from].
    - now apply emits_ret.
    - emits_walk; now intros []. }
  assert (E : emits (fun e => ~ mutating e) any (bg_printenv argc opts)).
  { unfold bg_printenv.
    apply (emits_bind _ any).
    { eapply emits_weaken;
        [apply emits_argp_parse, emits_parse_printenv_opt| |auto].
      intros e He. now destruct e. }
    intros [e a] _.
    destruct (negb (e =? 0)); [now apply emits_ret|]. cbv zeta.
    destruct (_ >? 1); [emits_walk; now intros []|].
    unfold printenv_from_file, get_env, dump_latest_env, dump_env_by_index,
      dump_envs.
    destruct (envfilepath (pcommon a)) as [path|].
    - emits_walk; now intros [].
    - emits_walk; try (now intros []); apply D. }
  exact (proj1 (E st)).
Qed.

End Printenv.

(** The witness of [printenv_selectors_exclude]: -c -p 0. *)
Lemma printenv_selectors_exclude_witness :
  stops_before_io
    (@bg_printenv envdata_h Model.world 4 [(chr "c", ""); (chr "p", "0")])
    Model.start.
Proof.
  exact (@printenv_selectors_exclude envdata_h Model.world 4
           [(chr "c", ""); (chr "p", "0")] "" "0" "" Model.start
           (or_introl (conj (or_introl eq_refl)
                            (or_intror (or_introl eq_refl))))).
Defined.

(** ** The answer 0 of bg_setenv *)

Lemma emits_since {A} P (Q : A -> Prop) (m : M A) (t0 : list event) :
  emits P Q m -> hoare (since t0) m (fun _ => since t0).
Proof.
  intros H s (e0 & Hs) a s' E. destruct (H s) as [(evs & Ht & _) _].
  rewrite E in Ht. cbn in Ht. exists (e0 ++ evs).
  now rewrite Ht, Hs, app_assoc.
Qed.

Section Written.

Context {cfg : Config} {col : Collaborators} {lay : Layout}.

Lemma emits_wrote {A} P (Q : A -> Prop) (m : M A) (t0 : list event) :
  emits P Q m -> hoare (wrote_since t0) m (fun _ => wrote_since t0).
Proof.
  intros H s (e0 & Hs & Hw) a s' E. destruct (H s) as [(evs & Ht & _) _].
  rewrite E in Ht. cbn in Ht. exists (e0 ++ evs). split.
  - now rewrite Ht, Hs, app_assoc.
  - apply Exists_app. now left.
Qed.

Lemma emit_written (e : event) (t0 : list event) :
  written e -> hoare (since t0) (emit e) (fun _ => wrote_since t0).
Proof.
  intros W s (e0 & Hs) a s' [= _ <-]. exists (e0 ++ [e]). split.
  - cbn. now rewrite Hs, app_assoc.
  - apply Exists_app. right. now constructor.
Qed.

(** A computation whose every answer is not 0. *)
Ltac not_zero :=
  repeat match goal with
  | |- hoare _ (ret _) _ => apply hoare_ret; intros ? ? ?; discriminate
  | |- hoare _ fault _ => apply hoare_fault
  | |- hoare _ (if ?b then _ else _) _ => destruct b
  | |- hoare _ (bind _ _) _ =>
      apply (hoare_bind _ (fun _ _ => True)); [apply hoare_any | intros ?]
  end.

Lemma store_zero env verbose t0 :
  hoare (since t0) (store env verbose) (fun r s' => r = 0 -> wrote_since t0 s').
Proof.
  unfold store.
  apply (hoare_bind _ (fun _ => since t0));
    [eapply emits_since, emits_update_environment|].
  intros env'. destruct (bgenv_write env') eqn:W; cbn [negb].
  - apply (hoare_bind _ (fun _ => wrote_since t0));
      [now apply emit_written|].
    intros _.
    apply (hoare_conseq (wrote_since t0) _ (fun _ => wrote_since t0));
      [eapply emits_wrote, emits_cleanup | auto | auto].
  - unfold cleanup. not_zero.
Qed.

Lemma clone_latest_zero verbose t0 :
  hoare (since t0) (clone_latest verbose)
    (fun r s' => r = 0 -> wrote_since t0 s').
Proof.
  unfold clone_latest.
  apply (hoare_bind _ (fun _ => since t0));
    [eapply emits_since, (emits_emit (fun _ => True)), I|]. intros _.
  destruct bgenv_open_latest as [env_current|];
    [|unfold cleanup; not_zero].
  apply (hoare_bind _ (fun _ => since t0));
    [eapply emits_since, (emits_emit (fun _ => True)), I|]. intros _.
  destruct bgenv_open_oldest as [env_new|];
    [|unfold cleanup; not_zero].
  apply (hoare_bind _ (fun _ => since t0)).
  { destruct verbose; [|eapply emits_since, (emits_ret (fun _ => True) any), I].
    destruct (edata env_new);
      [eapply emits_since, (emits_ret (fun _ => True) any), I
      | apply hoare_fault]. }
  intros _.
  destruct (edata env_current) as [current|];
    [|unfold cleanup; not_zero].
  destruct (edata env_new) as [old|]; [|unfold cleanup; not_zero].
  apply (hoare_bind _ (fun _ => since t0));
    [eapply emits_since, (emits_emit (fun _ => True)), I|]. intros _.
  apply store_zero.
Qed.

Lemma dumpenv_to_file_zero path verbose preserve t0 :
  hoare (since t0) (dumpenv_to_file path verbose preserve)
    (fun r s' => r = 0 -> wrote_since t0 s').
Proof.
  unfold dumpenv_to_file.
  apply (hoare_bind _ (fun _ => since t0)).
  { destruct preserve;
      [eapply emits_since, emits_get_env
      | eapply emits_since, (emits_ret (fun _ => True) any), I]. }
  intros [data|]; [|not_zero].
  apply (hoare_bind _ (fun _ => since t0));
    [eapply emits_since, emits_update_environment|].
  intros env. destruct (edata env) as [d|]; [|apply hoare_fault].
  destruct (fopen_wb path); [|not_zero].
  destruct (fwrite_envdata path d) eqn:W; cbn [negb].
  2: { apply (hoare_bind _ (fun _ _ => True)); [apply hoare_any|]. intros _.
       apply (hoare_bind _ (fun r _ => r = 1)).
       { do 3 (apply (hoare_bind _ (fun _ _ => True)); [apply hoare_any|];
               intros ?).
         now apply hoare_ret. }
       intros r. destruct (negb (fclose_ok path)); [not_zero|].
       apply hoare_ret. intros s -> [=]. }
  apply (hoare_bind _ (fun _ => wrote_since t0));
    [now apply emit_written|].
  intros _.
  apply (hoare_bind _ (fun r s => wrote_since t0 s));
    [eapply emits_wrote, (emits_ret (fun _ => True) any), I|].
  intros r. destruct (negb (fclose_ok path)); [not_zero|].
  apply hoare_ret. auto.
Qed.

Lemma bg_setenv_zero argc opts t0 :
  hoare (since t0) (bg_setenv argc opts)
    (fun r s' => r = 0 -> wrote_since t0 s').
Proof.
  unfold bg_setenv. destruct (argc <? 2); [not_zero|].
  apply (hoare_bind _ (fun _ => since t0));
    [eapply emits_since, (emits_set_head (fun _ => True))|]. intros _.
  apply (hoare_bind _ (fun _ => since t0));
    [eapply emits_since, emits_argp_parse, emits_parse_setenv_opt|].
  intros [e a].
  destruct (e =? 0) eqn:He; cbn [negb].
  2: { apply hoare_ret. intros s _ ->. discriminate He. }
  destruct (_ && _); [not_zero|].
  destruct (envfilepath (common a)) as [path|];
    [apply dumpenv_to_file_zero|].
  apply (hoare_bind _ (fun _ => since t0));
    [eapply emits_since, (emits_emit (fun _ => True)), I|]. intros _.
  destruct (negb bgenv_init); [not_zero|].
  apply (hoare_bind _ (fun _ => since t0)).
  { destruct (verbosity (common a));
      [eapply emits_since, emits_dump_envs_from
      | eapply emits_since, (emits_ret (fun _ => True) any), I]. }
  intros _.
  destruct (auto_update a); [apply clone_latest_zero|].
  apply (hoare_bind _ (fun _ => since t0)).
  { destruct (part_specified (common a)); eapply emits_since;
      (apply (emits_bind (fun _ => True) any any);
       [now apply emits_emit | intros ? _; apply emits_ret; exact I]). }
  intros [env_new|]; [apply store_zero | unfold cleanup; not_zero].
Qed.

(** X9.  bg_setenv answers 0 only behind a write that was done: when a run
    returns 0, its trace holds a [bgenv_write] that answered true or an
    [fwrite] of the record that wrote its item. *)
Theorem bg_setenv_zero_means_written (argc : Z) (opts : list (Z * string))
    (st st' : proc) :
  bg_setenv argc opts st = Val 0 st' ->
  exists evs, trace st' = trace st ++ evs /\ Exists written evs.
Proof.
  intros H.
  apply (bg_setenv_zero argc opts (trace st) st) with (a := 0);
    [|exact H | reflexivity].
  exists []. now rewrite app_nil_r.
Qed.

End Written.

(** The witness of [bg_setenv_zero_means_written]: -k vmlinuz-5 on the
    two-slot store. *)
Lemma bg_setenv_zero_means_written_witness :
  exists evs,
    trace (final (@bg_setenv envdata_h Model.world Model.layout 3
                    [(chr "k", "vmlinuz-5")] Model.start))
    = trace Model.start ++ evs
    /\ Exists (@written Model.world) evs.
Proof.
  apply (@bg_setenv_zero_means_written envdata_h Model.world Model.layout 3
           [(chr "k", "vmlinuz-5")] Model.start).
  vm_compute. reflexivity.
Defined.

(** ** The name of the program *)

Lemma starts_with_app (needle post : string) :
  starts_with needle (needle ++ post) = true.
Proof.
  induction needle as [|c n IH]; [reflexivity|].
  cbn. now rewrite Ascii.eqb_refl.
Qed.

Lemma strstr_app (pre needle post : string) :
  strstr (pre ++ needle ++ post) needle = true.
Proof.
  induction pre as [|c pre IH].
  - cbn [String.append]. destruct (needle ++ post)%string eqn:E;
      cbn [strstr]; rewrite <- E, starts_with_app; reflexivity.
  - cbn [String.append strstr]. rewrite IH. apply orb_true_r.
Qed.

Lemma starts_with_split (needle s : string) :
  starts_with needle s = true -> exists post, s = (needle ++ post)%string.
Proof.
  revert s. induction needle as [|c n IH]; intros s H.
  - now exists s.
  - destruct s as [|b s]; [discriminate|]. cbn in H.
    apply andb_prop in H as [Hc Hs]. apply Ascii.eqb_eq in Hc. subst b.
    destruct (IH s Hs) as [post ->]. now exists post.
Qed.

Lemma strstr_split (s needle : string) :
  strstr s needle = true ->
  exists pre post, s = (pre ++ needle ++ post)%string.
Proof.
  induction s as [|c s IH]; cbn [strstr]; intros H.
  - rewrite orb_false_r in H. apply starts_with_split in H as [post ->].
    now exists "", post.
  - apply orb_prop in H as [H | H].
    + apply starts_with_split in H as [post ->]. now exists "", post.
    + destruct (IH H) as (pre & post & ->). now exists (String c pre), post.
Qed.

Section Tools.

Context {cfg : Config} {col : Collaborators} {lay : Layout}.

(** X10.  [main] runs bg_setenv exactly when the name the program was
    called under holds the text bg_setenv, at its end or anywhere else, and
    bg_printenv otherwise. *)
Theorem main_looks_for_bg_setenv (argv0 : string) (argc : Z)
    (opts : list (Z * string)) :
  ((exists pre post, argv0 = (pre ++ "bg_setenv" ++ post)%string) ->
   main argv0 argc opts = bg_setenv argc opts)
  /\ ((forall pre post, argv0 <> (pre ++ "bg_setenv" ++ post)%string) ->
      main argv0 argc opts = bg_printenv argc opts).
Proof.
  unfold main. split.
  - intros (pre & post & ->). now rewrite strstr_app.
  - intros H. destruct (strstr argv0 "bg_setenv") eqn:E; [|reflexivity].
    apply strstr_split in E as (pre & post & E). now elim (H pre post).
Qed.

Lemma trace_after {A} (P : event -> Prop) (m : M A) (st st' : proc)
    (evs1 : list event) :
  trace st' = trace st ++ evs1 -> Forall P evs1 -> emits P any m ->
  exists evs, trace (final (m st')) = trace st ++ evs /\ Forall P evs.
Proof.
  intros Ht H1 Hm. destruct (Hm st') as [(evs2 & Ht2 & H2) _].
  exists (evs1 ++ evs2). rewrite Ht2, Ht, app_assoc. split; [reflexivity|].
  now apply Forall_app.
Qed.

Lemma parser_event_no_fat (e : event) : parser_event e -> ~ fat_event e.
Proof. now destruct e. Qed.

Lemma emits_dumpenv_to_file_off path verbose preserve :
  emits (fun e => ~ fat_event e) any (dumpenv_to_file path verbose preserve).
Proof.
  unfold dumpenv_to_file, get_env.
  apply (emits_bind _ any).
  { destruct preserve; emits_walk; now intros []. }
  intros [data|] _; [|now apply emits_ret].
  apply (emits_bind _ any).
  { eapply emits_weaken;
      [apply emits_update_environment | | intros a _; exact I].
    intros e He. now destruct e. }
  intros env _. emits_walk; now intros [].
Qed.

Lemma emits_printenv_from_file_off path :
  emits (fun e => ~ fat_event e) any (printenv_from_file path).
Proof. unfold printenv_from_file, get_env. emits_walk; now intros []. Qed.

(** With -f no slot is touched. *)
Lemma main_file_mode_off_slots (argv0 : string) (argc : Z)
    (opts : list (Z * string)) (path : string) (st : proc) :
  In (chr "f", path) opts ->
  exists evs,
    trace (final (main argv0 argc opts st)) = trace st ++ evs
    /\ Forall (fun e => ~ fat_event e) evs.
Proof.
  intros Hf. unfold main. destruct (strstr argv0 "bg_setenv").
  - rewrite bg_setenv_parsed.
    destruct (argc <? 2).
    { exists []. simpl. rewrite app_nil_r. now split. }
    destruct (setenv_parse_trace opts zero_arguments (with_head st []))
      as (evs & Ht & He).
    assert (He' : Forall (fun e => ~ fat_event e) evs)
      by (eapply Forall_impl; [apply parser_event_no_fat | exact He]).
    destruct (argp_parse parse_setenv_opt opts zero_arguments
                (with_head st [])) as [[e a] st'| |] eqn:E;
      cbn [final] in Ht; try (exists evs; now split).
    destruct (e =? 0) eqn:He0; cbn [negb]; [|exists evs; now split].
    apply Z.eqb_eq in He0. subst e.
    destruct (_ && _).
    { eexists. cbn [final log trace]. rewrite Ht, <- app_assoc.
      split; [reflexivity|]. apply Forall_app. split; [exact He'|].
      repeat constructor. now intros []. }
    pose proof (setenv_flag_f _ _ _ _ _ path Hf E eq_refl) as Ff.
    cbn [snd] in Ff.
    destruct (envfilepath (common a)) as [p|]; [|now elim Ff].
    exact (trace_after _ _ st st' evs Ht He'
             (emits_dumpenv_to_file_off p _ _)).
  - rewrite bg_printenv_parsed.
    destruct (printenv_parse_trace opts
                (mk_printenv (mk_common None false 0 false) false ALL_FIELDS)
                st) as (evs & Ht & He).
    assert (He' : Forall (fun e => ~ fat_event e) evs)
      by (eapply Forall_impl; [apply parser_event_no_fat | exact He]).
    destruct (argp_parse parse_printenv_opt opts _ st)
      as [[e a] st'| |] eqn:E;
      cbn [final] in Ht; try (exists evs; now split).
    destruct (e =? 0) eqn:He0; cbn [negb]; [|exists evs; now split].
    apply Z.eqb_eq in He0. subst e. cbv zeta.
    destruct (_ >? 1).
    { eexists. cbn [final log trace]. rewrite Ht, <- app_assoc.
      split; [reflexivity|]. apply Forall_app. split; [exact He'|].
      repeat constructor. now intros []. }
    pose proof (printenv_flag_f _ _ _ _ _ path Hf E eq_refl) as Ff.
    cbn [snd] in Ff.
    destruct (envfilepath (pcommon a)) as [p|]; [|now elim Ff].
    exact (trace_after _ _ st st' evs Ht He'
             (emits_printenv_from_file_off p)).
Qed.

Lemma ordinary_apply (env : BGENV) (a : env_action) (e0 : Z) :
  ordinary a ->
  exists env' e evs,
    apply_action env a e0 = Some (env', e, evs)
    /\ Forall off_environment evs.
Proof.
  intros (Hr & k & Hkey & Hk & Hne).
  unfold replayable in Hr. unfold apply_action. rewrite Hkey.
  destruct (task a).
  - destruct Hr as (_ & buf & v & -> & ->).
    destruct (strncmp k "ustate" (strlen "ustate" + 1) =? 0) eqn:E.
    + apply Z.eqb_eq in E. apply (strncmp_exact "ustate" k eq_refl Hk) in E.
      contradiction.
    + do 3 eexists. split; [reflexivity|]. repeat constructor. now intros [].
  - do 3 eexists. split; [reflexivity|]. repeat constructor. now intros [].
Qed.

Lemma ordinary_apply_all (q : list env_action) (env : BGENV) (e0 : Z) :
  Forall ordinary q ->
  exists env' e evs,
    apply_all q env e0 = Some (env', e, evs)
    /\ Forall off_environment evs.
Proof.
  intros H. revert env e0. induction H as [|a q Ha _ IH]; intros env e0.
  - do 3 eexists. split; [reflexivity | constructor].
  - cbn [apply_all].
    destruct (ordinary_apply env a e0 Ha) as (env1 & e1 & evs1 & -> & H1).
    destruct (IH env1 e1) as (env2 & e2 & evs2 & -> & H2).
    do 3 eexists. split; [reflexivity | now apply Forall_app].
Qed.

(** The replay of a queue of such actions, and what comes behind it. *)
Lemma update_then_off {B} (env : BGENV) (verbose : bool) (K : BGENV -> M B)
    (s : proc) :
  Forall ordinary (head s) ->
  (forall env', emits off_environment any (K env')) ->
  exists evs,
    trace (final ((env' <- update_environment env verbose ;; K env') s))
    = trace s ++ evs
    /\ Forall off_environment evs.
Proof.
  intros Hq HK.
  pose proof (update_environment_apply_all env verbose s) as U.
  destruct (ordinary_apply_all (head s) env (errno s) Hq)
    as (env1 & e & evs & Ha & He).
  rewrite Ha in U. unfold bind. rewrite U.
  destruct (edata env1) as [d|].
  - destruct (HK (mk_bgenv (desc env1) (Some (set_crc32 d (checksum d))))
                (with_head (log (with_errno s e) evs) []))
      as [(evs2 & Ht & H2) _].
    exists (evs ++ evs2). rewrite Ht. cbn [trace with_head log with_errno].
    rewrite app_assoc. split; [reflexivity | now apply Forall_app].
  - exists evs. split; [reflexivity | exact He].
Qed.

Lemma dumpenv_to_file_off (path : string) (verbose preserve : bool)
    (s : proc) :
  Forall ordinary (head s) ->
  exists evs,
    trace (final (dumpenv_to_file path verbose preserve s)) = trace s ++ evs
    /\ Forall off_environment evs.
Proof.
  intros Hq. unfold dumpenv_to_file.
  assert (HK : forall env' : BGENV,
             emits off_environment any
               (match edata env' with
                | Some data =>
                    if fopen_wb path
                    then
                      emit (FileWrite path data) ;;;
                      result <- (if negb (fwrite_envdata path data)
                                 then
                                   set_errno (fwrite_errno path data) ;;;
                                   e <- get_errno ;;
                                   emit (Stderr
                                           ("Error writing to output file: "
                                            ++ strerror e)) ;;;
                                   ret 1
                                 else ret 0) ;;
                      if negb (fclose_ok path)
                      then
                        set_errno (fclose_errno path) ;;;
                        emit (Stderr "Error closing output file.") ;;; ret 1
                      else ret result
                    else
                      set_errno (fopen_errno path) ;;;
                      e <- get_errno ;;
                      emit (Stderr ("Error opening output file " ++ path
                                    ++ " (" ++ strerror e ++ ").")) ;;;
                      ret 1
                | None => fault
                end)).
  { intros env'. emits_walk; try exact I; (split; [now intros [] | exact I]). }
  destruct preserve.
  - unfold bind at 1, get_env. unfold bind at 1, emit at 1.
    destruct (negb (open_config_file path)); unfold ret at 1.
    + eexists. cbn [final trace]. split; [reflexivity|].
      repeat constructor. now intros [].
    + destruct (fread_envdata path) as [data|].
      * destruct (update_then_off (mk_bgenv 0 (Some data)) verbose _
                    (mk_proc (head s) (errno s) (strtok_save s) (heap s)
                       (trace s ++ [FileRead path])) Hq HK)
          as (evs & Ht & He).
        exists (FileRead path :: evs). rewrite Ht. cbn [trace].
        rewrite <- app_assoc. split; [reflexivity|].
        constructor; [split; [now intros [] | exact I] | exact He].
      * eexists. cbn [final trace]. split; [reflexivity|].
        repeat constructor. now intros [].
  - unfold bind at 1, ret at 1.
    exact (update_then_off (mk_bgenv 0 (Some zero_envdata)) verbose _ s Hq HK).
Qed.

(** What an option other than -c, -s and -x files is such an action. *)
Lemma parse_setenv_opt_ordinary key arg a q :
  ~ files_ustate key ->
  hoare (head_is q) (parse_setenv_opt key arg a)
    (fun _ s' =>
       head s' = q \/ exists act, head s' = q ++ [act] /\ ordinary act).
Proof.
  intros Hkey.
  assert (Hset : forall k d ty,
             is_cstring k = true -> k <> "ustate" ->
             ordinary (filed ENV_TASK_SET (Some k) ty (Some d) (strlen d + 1))).
  { intros k d ty Hk Hne. split; [apply filed_set_replayable|].
    exists k. now repeat split. }
  unfold parse_setenv_opt.
  repeat match goal with
  | |- hoare _ (if key =? ?c then _ else _) _ =>
      let E := fresh "K" in
      destruct (key =? c) eqn:E;
      [apply Z.eqb_eq in E; subst key | apply Z.eqb_neq in E]
  end;
  try (exfalso; apply Hkey; unfold files_ustate; tauto).
  all: repeat match goal with
  | |- hoare _ (bind (journal_add_action _ _ _ _ _) _) _ =>
      apply hoare_file; intros s Hs;
      [ right; eexists; split; [exact Hs|]; apply Hset;
        [reflexivity | discriminate]
      | now left ]
  | |- hoare _ (journal_error _ _) _ =>
      apply hoare_journal_error; intros s Hs; now left
  | |- hoare _ (bind (parse_common_opt _ _ _ _) _) _ =>
      apply (hoare_bind _ (fun _ => head_is q));
      [apply keeps_parse_common_opt |
       intros r; apply hoare_ret; intros s Hs; now left]
  | |- hoare _ argp_usage _ => apply hoare_exit
  | |- hoare _ (ret _) _ => apply hoare_ret; intros s Hs; now left
  | |- hoare _ (if ?b then _ else _) _ => destruct b
  | |- hoare _ (match ?x with _ => _ end) _ => destruct x
  | |- hoare _ (bind _ _) _ =>
      apply (hoare_bind _ (fun _ => head_is q));
      [ apply keeps_head_hoare; solve [keeps_walk; apply keeps_parse_int]
      | intros ? ]
  end.
Qed.

Lemma argp_parse_ordinary opts a :
  (forall k x, In (k, x) opts -> ~ files_ustate k) ->
  hoare (fun s => Forall ordinary (head s))
    (argp_parse parse_setenv_opt opts a)
    (fun _ s' => Forall ordinary (head s')).
Proof.
  revert a. induction opts as [|[key arg] opts IH]; intros a Hopts;
    cbn [argp_parse].
  - apply hoare_ret. auto.
  - intros s Hs r s' E. unfold bind in E.
    destruct (parse_setenv_opt key arg a s) as [r1 s1| |] eqn:E1;
      try discriminate.
    assert (H1 : Forall ordinary (head s1)).
    { destruct (parse_setenv_opt_ordinary key arg a (head s)
                  (Hopts key arg (or_introl eq_refl)) s eq_refl r1 s1 E1)
        as [H1 | (act & H1 & Hact)]; rewrite H1; [exact Hs|].
      apply Forall_app. split; [exact Hs|].
      constructor; [exact Hact | constructor]. }
    destruct (_ || _).
    + exact (IH (snd r1) (fun k x Hin => Hopts k x (or_intror Hin))
               s1 H1 r s' E).
    + now injection E as _ <-.
Qed.

Lemma parser_event_off (e : event) : parser_event e -> off_environment e.
Proof.
  destruct e; cbn; try contradiction; intros _;
    (split; [now intros [] | exact I]).
Qed.

(** The session of bg_setenv with -f, when no option files an action for
    the global-state setter. *)
Lemma bg_setenv_file_mode_off (argc : Z) (opts : list (Z * string))
    (path : string) (st : proc) :
  In (chr "f", path) opts ->
  (forall k x, In (k, x) opts -> ~ files_ustate k) ->
  exists evs,
    trace (final (bg_setenv argc opts st)) = trace st ++ evs
    /\ Forall off_environment evs.
Proof.
  intros Hf Hopts. rewrite bg_setenv_parsed.
  destruct (argc <? 2).
  { exists []. simpl. rewrite app_nil_r. now split. }
  destruct (setenv_parse_trace opts zero_arguments (with_head st []))
    as (evs & Ht & He).
  assert (He' : Forall off_environment evs)
    by (eapply Forall_impl; [apply parser_event_off | exact He]).
  destruct (argp_parse parse_setenv_opt opts zero_arguments
              (with_head st [])) as [[e a] st'| |] eqn:E;
    cbn [final] in Ht; try (exists evs; now split).
  destruct (e =? 0) eqn:He0; cbn [negb]; [|exists evs; now split].
  apply Z.eqb_eq in He0. subst e.
  destruct (_ && _).
  { eexists. cbn [final log trace]. rewrite Ht, <- app_assoc.
    split; [reflexivity|]. apply Forall_app. split; [exact He'|].
    repeat constructor. now intros []. }
  pose proof (setenv_flag_f _ _ _ _ _ path Hf E eq_refl) as Ff.
  cbn [snd] in Ff.
  destruct (envfilepath (common a)) as [p|]; [|now elim Ff].
  pose proof (argp_parse_ordinary opts zero_arguments Hopts
                (with_head st []) (Forall_nil _) _ _ E) as Hq.
  destruct (dumpenv_to_file_off p (verbosity (common a)) (preserve_env a)
              st' Hq) as (evs2 & Ht2 & He2).
  exists (evs ++ evs2). rewrite Ht2, Ht. cbn [trace with_head].
  rewrite app_assoc. split; [reflexivity | now apply Forall_app].
Qed.

(** The session of bg_printenv with -f. *)
Lemma bg_printenv_file_mode_off (argc : Z) (opts : list (Z * string))
    (path : string) (st : proc) :
  In (chr "f", path) opts ->
  exists evs,
    trace (final (bg_printenv argc opts st)) = trace st ++ evs
    /\ Forall off_environment evs.
Proof.
  intros Hf. rewrite bg_printenv_parsed.
  destruct (printenv_parse_trace opts
              (mk_printenv (mk_common None false 0 false) false ALL_FIELDS)
              st) as (evs & Ht & He).
  assert (He' : Forall off_environment evs)
    by (eapply Forall_impl; [apply parser_event_off | exact He]).
  destruct (argp_parse parse_printenv_opt opts _ st)
    as [[e a] st'| |] eqn:E;
    cbn [final] in Ht; try (exists evs; now split).
  destruct (e =? 0) eqn:He0; cbn [negb]; [|exists evs; now split].
  apply Z.eqb_eq in He0. subst e. cbv zeta.
  destruct (_ >? 1).
  { eexists. cbn [final log trace]. rewrite Ht, <- app_assoc.
    split; [reflexivity|]. apply Forall_app. split; [exact He'|].
    repeat constructor. now intros []. }
  pose proof (printenv_flag_f _ _ _ _ _ path Hf E eq_refl) as Ff.
  cbn [snd] in Ff.
  destruct (envfilepath (pcommon a)) as [p|]; [|now elim Ff].
  assert (Hp : emits off_environment any (printenv_from_file p)).
  { unfold printenv_from_file, get_env.
    emits_walk; try exact I; (split; [now intros [] | exact I]). }
  exact (trace_after _ _ st st' evs Ht He' Hp).
Qed.

(** X11.  With -f on the command line neither tool sets up or shuts down
    the FAT environment, and no slot is opened, closed or written, however
    the run ends.  bg_printenv does not call the global-state setter
    either, and bg_setenv does not unless the command line holds -c, -s or
    -x: a Set on "ustate" is replayed through [ebg_env_setglobalstate] in
    file mode as well. *)
Theorem file_mode_keeps_off_the_slots (argv0 : string) (argc : Z)
    (opts : list (Z * string)) (path : string) (st : proc) :
  In (chr "f", path) opts ->
  exists evs,
    trace (final (main argv0 argc opts st)) = trace st ++ evs
    /\ Forall (fun e => ~ fat_event e) evs
    /\ (strstr argv0 "bg_setenv" = false
        \/ (forall k x, In (k, x) opts -> ~ files_ustate k) ->
        Forall no_global_state evs).
Proof.
  intros Hf.
  destruct (main_file_mode_off_slots argv0 argc opts path st Hf)
    as (evs & Ht & Hfat).
  exists evs. split; [exact Ht|]. split; [exact Hfat|].
  intros Hcase.
  assert (Hoff : exists evs',
             trace (final (main argv0 argc opts st)) = trace st ++ evs'
             /\ Forall off_environment evs').
  { unfold main. destruct (strstr argv0 "bg_setenv") eqn:S.
    - destruct Hcase as [Hp | Ho]; [discriminate Hp|].
      exact (bg_setenv_file_mode_off argc opts path st Hf Ho).
    - exact (bg_printenv_file_mode_off argc opts path st Hf). }
  destruct Hoff as (evs' & Ht' & Hoff).
  rewrite Ht in Ht'. apply app_inv_head in Ht'. subst evs'.
  eapply Forall_impl; [|exact Hoff]. now intros e [_ H].
Qed.

(** X12.  [update_environment] is idempotent: behind a call that returned,
    a second call, with no action filed in between, returns the same handle
    and leaves the state as it is (the checksum does not cover the member it
    is stored in). *)
Theorem update_environment_twice (env env' : BGENV) (verbose : bool)
    (s s' : proc) :
  crc32_is_last_member ->
  update_environment env verbose s = Val env' s' ->
  update_environment env' verbose s' = Val env' s'.
Proof.
  intros L H.
  pose proof (update_environment_apply_all env verbose s) as U.
  destruct (apply_all (head s) env (errno s)) as [[[env1 e] evs]|];
    [|destruct U as [s0 U]; rewrite U in H; discriminate].
  rewrite U in H. destruct (edata env1) as [d|]; [|discriminate].
  injection H as <- <-.
  pose proof (update_environment_apply_all
                (mk_bgenv (desc env1) (Some (set_crc32 d (checksum d))))
                verbose (with_head (log (with_errno s e) evs) [])) as U2.
  cbn [head with_head apply_all edata desc] in U2. rewrite U2.
  f_equal.
  - unfold checksum at 2. rewrite L. fold (checksum d). now destruct d.
  - unfold with_head, log, with_errno. cbn. now rewrite app_nil_r.
Qed.

End Tools.

(** The witness of [main_looks_for_bg_setenv]: a link to the tool under
    another name is bg_setenv as long as the name holds the text, and the
    name bg_printenv does not hold it. *)
Lemma main_looks_for_bg_setenv_witness :
  @main envdata_h Model.world Model.layout "/usr/bin/bg_setenv.old" 1 []
  = @bg_setenv envdata_h Model.world Model.layout 1 []
  /\ @main envdata_h Model.world Model.layout "/usr/bin/bg_printenv" 1 []
     = @bg_printenv envdata_h Model.world 1 [].
Proof.
  split.
  - apply (proj1 (@main_looks_for_bg_setenv envdata_h Model.world
                    Model.layout "/usr/bin/bg_setenv.old" 1 [])).
    exists "/usr/bin/", ".old". reflexivity.
  - apply (proj2 (@main_looks_for_bg_setenv envdata_h Model.world
                    Model.layout "/usr/bin/bg_printenv" 1 [])).
    intros pre post E.
    pose proof (strstr_app pre "bg_setenv" post) as H.
    rewrite <- E in H. discriminate H.
Defined.

(** The witness of [file_mode_keeps_off_the_slots]: -f /boot/BGENV.DAT -k
    vmlinuz-5 calls nothing of the FAT environment, and -f /boot/BGENV.DAT
    -c calls the global-state setter. *)
Lemma file_mode_keeps_off_the_slots_witness :
  (exists evs,
      trace (final (@main envdata_h Model.world Model.layout "bg_setenv" 5
                      [(chr "f", "/boot/BGENV.DAT"); (chr "k", "vmlinuz-5")]
                      Model.start))
      = trace Model.start ++ evs
      /\ Forall (fun e => ~ fat_event e) evs
      /\ Forall no_global_state evs)
  /\ trace (final (@main envdata_h Model.world Model.layout "bg_setenv" 4
                     [(chr "f", "/boot/BGENV.DAT"); (chr "c", "")]
                     Model.start))
     = [Stat "/boot/BGENV.DAT"; SetGlobalState 0;
        FileWrite "/boot/BGENV.DAT"
          (set_crc32 zero_envdata
             (@checksum Model.world Model.layout zero_envdata))].
Proof.
  split; [|vm_compute; reflexivity].
  destruct (@file_mode_keeps_off_the_slots envdata_h Model.world Model.layout
              "bg_setenv" 5
              [(chr "f", "/boot/BGENV.DAT"); (chr "k", "vmlinuz-5")]
              "/boot/BGENV.DAT" Model.start (or_introl eq_refl))
    as (evs & Ht & Hfat & Hglob).
  exists evs. split; [exact Ht|]. split; [exact Hfat|].
  apply Hglob. right. intros k x [[= <- _] | [[= <- _] | []]];
    unfold files_ustate; intros [H | [H | H]]; discriminate H.
Defined.

(** The witness of [update_environment_twice]: the kernel of slot 0 is set,
    and the record is updated a second time. *)
Lemma update_environment_twice_witness :
  @update_environment Model.world Model.layout
    (mk_bgenv 0
       (Some (set_crc32
                (mk_envdata "vmlinuz-5" "root=/dev/sda2" 0 0 30 2
                   [mk_uservar "owner" 32 (bytes_of "ann")] 17)
                (@checksum Model.world Model.layout
                   (mk_envdata "vmlinuz-5" "root=/dev/sda2" 0 0 30 2
                      [mk_uservar "owner" 32 (bytes_of "ann")] 17)))))
    false
    (with_head
       (log (with_head Model.start
               [set_action "kernelfile" 0 (bytes_of "vmlinuz-5")])
            [BgenvSet (Some "kernelfile") 0 "vmlinuz-5" 10]) [])
  = Val (mk_bgenv 0
       (Some (set_crc32
                (mk_envdata "vmlinuz-5" "root=/dev/sda2" 0 0 30 2
                   [mk_uservar "owner" 32 (bytes_of "ann")] 17)
                (@checksum Model.world Model.layout
                   (mk_envdata "vmlinuz-5" "root=/dev/sda2" 0 0 30 2
                      [mk_uservar "owner" 32 (bytes_of "ann")] 17)))))
        (with_head
           (log (with_head Model.start
                   [set_action "kernelfile" 0 (bytes_of "vmlinuz-5")])
                [BgenvSet (Some "kernelfile") 0 "vmlinuz-5" 10]) []).
Proof.
  apply (@update_environment_twice Model.world Model.layout Model.slot0
           (mk_bgenv 0
       (Some (set_crc32
                (mk_envdata "vmlinuz-5" "root=/dev/sda2" 0 0 30 2
                   [mk_uservar "owner" 32 (bytes_of "ann")] 17)
                (@checksum Model.world Model.layout
                   (mk_envdata "vmlinuz-5" "root=/dev/sda2" 0 0 30 2
                      [mk_uservar "owner" 32 (bytes_of "ann")] 17))))) false
           (with_head Model.start
              [set_action "kernelfile" 0 (bytes_of "vmlinuz-5")])
           _ model_crc32_is_last_member).
  vm_compute. reflexivity.
Defined.

(** ** Key and value of -x *)

Lemma split_token_at_delim (k rest : string) :
  has_delim "=" k = false ->
  split_token "=" (k ++ String "=" rest)%string = (k, rest).
Proof.
  induction k as [|c k IH]; intros H.
  - reflexivity.
  - cbn [has_delim] in H. apply orb_false_elim in H as [Hc Hk].
    cbn [String.append split_token]. rewrite Hc, (IH Hk). reflexivity.
Qed.

Lemma split_token_whole (k : string) :
  has_delim "=" k = false -> split_token "=" k = (k, "").
Proof.
  induction k as [|c k IH]; intros H.
  - reflexivity.
  - cbn [has_delim] in H. apply orb_false_elim in H as [Hc Hk].
    cbn [split_token]. rewrite Hc, (IH Hk). reflexivity.
Qed.

Lemma append_nil_r (s : string) : (s ++ "")%string = s.
Proof. induction s as [|c s IH]; [reflexivity|]. cbn. now rewrite IH. Qed.

(** The token in front of [tail], which is empty or begins with '='. *)
Lemma strtok_token (n : nat) (k tail : string) (str : option string)
    (save : string) :
  k <> "" -> has_delim "=" k = false ->
  tail = "" \/ (exists r, tail = String "=" r) ->
  (eqs n ++ k ++ tail)%string = match str with Some s => s | None => save end ->
  strtok str "=" save
  = (Some k, match tail with String _ r => r | EmptyString => "" end).
Proof.
  intros Hk Hd Ht E. unfold strtok. rewrite <- E, skip_delims_eqs.
  destruct k as [|c k]; [now elim Hk|].
  pose proof Hd as Hd'. cbn [has_delim] in Hd'.
  apply orb_false_elim in Hd' as [Hc _].
  cbn [String.append skip_delims]. rewrite Hc.
  change (String c (k ++ tail)%string) with (String c k ++ tail)%string.
  destruct Ht as [-> | [r ->]].
  - rewrite append_nil_r. now rewrite (split_token_whole _ Hd).
  - now rewrite (split_token_at_delim _ r Hd).
Qed.

Section OptionValues.

Context {cfg : Config} {col : Collaborators} {lay : Layout}.

Lemma set_uservars_key_value (k v tail : string) (n m : nat) (s : proc) :
  k <> "" -> has_delim "=" k = false ->
  v <> "" -> has_delim "=" v = false ->
  tail = "" \/ (exists r, tail = String "=" r) ->
  serves 3 s ->
  set_uservars (eqs n ++ k ++ eqs (S m) ++ v ++ tail)%string s =
    Val 0 (with_head
             (served 3 (with_save s match tail with
                                    | String _ r => r
                                    | EmptyString => ""
                                    end))
             (head s ++ [set_action k (Z.lor USERVAR_TYPE_DEFAULT
                                             USERVAR_TYPE_STRING_ASCII)
                                    (bytes_of v)])).
Proof.
  intros Hk Hdk Hv Hdv Ht Hs. unfold set_uservars.
  unfold bind at 1, get_save at 1.
  rewrite (strtok_token n k (eqs (S m) ++ v ++ tail)%string
             (Some (eqs n ++ k ++ eqs (S m) ++ v ++ tail)%string)
             (strtok_save s) Hk Hdk
             ltac:(right; eexists; reflexivity) eq_refl).
  cbn [eqs String.append].
  unfold bind at 1, set_save at 1.
  rewrite (strtok_token m v tail None (eqs m ++ v ++ tail)%string Hv Hdv Ht
             eq_refl).
  unfold bind at 1, set_save at 1.
  apply (add_set k v _
           (mk_proc (head s) (errno s)
              match tail with String _ r => r | EmptyString => "" end
              (heap s) (trace s))).
  exact Hs.
Qed.

(** X13.  -x KEY=VALUE files a Set of KEY to VALUE, of the type
    [USERVAR_TYPE_DEFAULT | USERVAR_TYPE_STRING_ASCII].  The '=' in front of
    the key and between key and value may be repeated, and the value ends
    at the next '=': what follows it is dropped, and nothing is printed. *)
Theorem uservar_value_ends_at_second_equals (k v tail : string) (n m : nat)
    (a : arguments_setenv) (s : proc) :
  k <> "" -> has_delim "=" k = false ->
  v <> "" -> has_delim "=" v = false ->
  tail = "" \/ (exists r, tail = String "=" r) ->
  serves 3 s ->
  exists s',
    parse_setenv_opt (chr "x") (eqs n ++ k ++ eqs (S m) ++ v ++ tail)%string
      a s = Val (0, a) s'
    /\ head s' = head s ++ [set_action k (Z.lor USERVAR_TYPE_DEFAULT
                                                USERVAR_TYPE_STRING_ASCII)
                                       (bytes_of v)]
    /\ trace s' = trace s.
Proof.
  intros Hk Hdk Hv Hdv Ht Hs. eexists.
  assert (E : parse_setenv_opt (chr "x")
                (eqs n ++ k ++ eqs (S m) ++ v ++ tail)%string a s
              = (e <- set_uservars
                        (eqs n ++ k ++ eqs (S m) ++ v ++ tail)%string ;;
                 journal_error e a) s) by reflexivity.
  rewrite E. unfold bind at 1.
  rewrite (set_uservars_key_value k v tail n m s Hk Hdk Hv Hdv Ht Hs).
  split; [reflexivity|]. split; reflexivity.
Qed.

Lemma mod_long_uint16 (x : Z) :
  (x mod ULONG_WIDTH) mod UINT16_WIDTH = x mod UINT16_WIDTH.
Proof.
  apply Z.mod_mod_divide. exists (2 ^ 48). reflexivity.
Qed.

(** X14.  The state given as -x ustate=N is not held against the range
    0..3 that -s checks: any text that [strtol] reads a number from is
    filed, and the replay calls the global-state setter with that number cut
    to 16 bits. *)
Theorem uservar_ustate_skips_range_check (v : string) (env : BGENV)
    (a : arguments_setenv) (s : proc) :
  v <> "" -> has_delim "=" v = false -> is_cstring v = true ->
  refused v = false ->
  serves 3 s -> head s = [] ->
  let u := value (strtol v) mod UINT16_WIDTH in
  exists s1 env' s2,
    parse_setenv_opt (chr "x") ("ustate=" ++ v)%string a s = Val (0, a) s1
    /\ drain (List.length (head s1)) env s1 = Val env' s2
    /\ trace s2 = trace s
                  ++ SetGlobalState u
                     :: (if negb (snd (ebg_env_setglobalstate env u) =? 0)
                         then [Stderr "Error setting global state"] else [])
    /\ head s2 = [].
Proof.
  intros Hv Hdv Hc Hr Hs Hq u.
  assert (E : parse_setenv_opt (chr "x") ("ustate=" ++ v)%string a s
              = (e <- set_uservars ("ustate=" ++ v)%string ;;
                 journal_error e a) s) by reflexivity.
  pose proof (set_uservars_key_value "ustate" v "" 0 0 s
                ltac:(discriminate) eq_refl Hv Hdv (or_introl eq_refl) Hs)
    as F.
  cbn [eqs String.append] in F. rewrite append_nil_r in F.
  change (String "u" (String "s" (String "t" (String "a" (String "t"
            (String "e" (String "=" v)))))))
    with ("ustate=" ++ v)%string in F.
  rewrite E. unfold bind at 1. rewrite F, Hq. cbn [app].
  eexists. exists (fst (ebg_env_setglobalstate env u)). eexists.
  split; [reflexivity|].
  set (s1 := with_head (served 3 (with_save s "")) _).
  pose proof (drain_apply_all 1 env s1 (le_n _)) as D.
  cbn [head s1 with_head apply_all] in D.
  rewrite (apply_set_ustate_accepted env v _ _ Hc Hr) in D.
  cbv zeta in D. rewrite mod_long_uint16 in D. fold u in D.
  cbn [apply_all] in D. split; [exact D|].
  split; [|reflexivity].
  cbn. now rewrite app_nil_r.
Qed.

(** X15.  -k and -a take a text of up to [ENV_STRING_LENGTH] characters,
    the bound included, and file it with its terminator, one byte more than
    the text is long; a longer text is answered with 1 and a message, and
    the queue is as it was. *)
Theorem kernel_options_length_bound (arg : string) (a : arguments_setenv)
    (s : proc) :
  serves 3 s ->
  (Z.of_nat (strlen arg) <= ENV_STRING_LENGTH ->
   parse_setenv_opt (chr "k") arg a s =
     Val (0, a) (with_head (served 3 s)
                   (head s ++ [set_action "kernelfile" 0 (bytes_of arg)]))
   /\ parse_setenv_opt (chr "a") arg a s =
        Val (0, a) (with_head (served 3 s)
                      (head s ++ [set_action "kernelparams" 0 (bytes_of arg)]))
   /\ List.length (bytes_of arg) = S (strlen arg))
  /\ (ENV_STRING_LENGTH < Z.of_nat (strlen arg) ->
      parse_setenv_opt (chr "k") arg a s =
        Val (1, a) (log s [Stderr "Error, kernel filename is too long."])
      /\ parse_setenv_opt (chr "a") arg a s =
           Val (1, a)
               (log s [Stderr "Error, kernel arguments string is too long."])).
Proof.
  intros Hs.
  assert (Ek : parse_setenv_opt (chr "k") arg a s =
               (if Z.of_nat (strlen arg) >? ENV_STRING_LENGTH then
                  emit (Stderr "Error, kernel filename is too long.") ;;;
                  ret (1, a)
                else
                  e <- journal_add_action ENV_TASK_SET (Some "kernelfile") 0
                         (Some arg) (strlen arg + 1) ;;
                  journal_error e a) s) by reflexivity.
  assert (Ea : parse_setenv_opt (chr "a") arg a s =
               (if Z.of_nat (strlen arg) >? ENV_STRING_LENGTH then
                  emit (Stderr "Error, kernel arguments string is too long.") ;;;
                  ret (1, a)
                else
                  e <- journal_add_action ENV_TASK_SET (Some "kernelparams") 0
                         (Some arg) (strlen arg + 1) ;;
                  journal_error e a) s) by reflexivity.
  rewrite Ek, Ea. rewrite Z.gtb_ltb. split; intros H.
  - replace (ENV_STRING_LENGTH <? Z.of_nat (strlen arg)) with false
      by (symmetry; apply Z.ltb_ge; lia).
    unfold bind. rewrite !add_set by exact Hs.
    split; [reflexivity|]. split; [reflexivity|].
    unfold bytes_of, strlen. rewrite length_app. cbn.
    rewrite Nat.add_1_r. f_equal.
    clear. induction arg as [|c r IH]; [reflexivity|]. cbn. now rewrite IH.
  - replace (ENV_STRING_LENGTH <? Z.of_nat (strlen arg)) with true
      by (symmetry; apply Z.ltb_lt; lia).
    split; reflexivity.
Qed.

End OptionValues.

(** The witness of [uservar_value_ends_at_second_equals]: -x a=b=c sets a
    to b. *)
Lemma uservar_value_ends_at_second_equals_witness :
  exists s',
    @parse_setenv_opt envdata_h Model.world (chr "x") "a=b=c" zero_arguments
      Model.start = Val (0, zero_arguments) s'
    /\ head s' = head Model.start ++ [set_action "a" 32 (bytes_of "b")]
    /\ trace s' = trace Model.start.
Proof.
  exact (@uservar_value_ends_at_second_equals envdata_h Model.world
           "a" "b" "=c" 0 0 zero_arguments Model.start
           ltac:(discriminate) eq_refl ltac:(discriminate) eq_refl
           (or_intror (ex_intro _ "c" eq_refl)) eq_refl).
Defined.

(** The witness of [uservar_ustate_skips_range_check]: -x ustate=70000
    sets the state 4464. *)
Lemma uservar_ustate_skips_range_check_witness :
  exists s1 env' s2,
    @parse_setenv_opt envdata_h Model.world (chr "x") "ustate=70000"
      zero_arguments Model.start = Val (0, zero_arguments) s1
    /\ @drain Model.world (List.length (head s1)) Model.slot0 s1
       = Val env' s2
    /\ trace s2 = trace Model.start ++ [SetGlobalState 4464]
    /\ head s2 = [].
Proof.
  exact (@uservar_ustate_skips_range_check envdata_h Model.world
           "70000" Model.slot0 zero_arguments Model.start
           ltac:(discriminate) eq_refl eq_refl eq_refl eq_refl eq_refl).
Defined.

(** The witness of [kernel_options_length_bound]: a name of nine
    characters. *)
Lemma kernel_options_length_bound_witness :
  @parse_setenv_opt envdata_h Model.world (chr "k") "vmlinuz-5"
    zero_arguments Model.start =
    Val (0, zero_arguments)
        (with_head (served 3 Model.start)
           (head Model.start
            ++ [set_action "kernelfile" 0 (bytes_of "vmlinuz-5")]))
  /\ @parse_setenv_opt envdata_h Model.world (chr "a") "vmlinuz-5"
       zero_arguments Model.start =
       Val (0, zero_arguments)
           (with_head (served 3 Model.start)
              (head Model.start
               ++ [set_action "kernelparams" 0 (bytes_of "vmlinuz-5")]))
  /\ List.length (bytes_of "vmlinuz-5") = S (strlen "vmlinuz-5").
Proof.
  apply (proj1 (@kernel_options_length_bound envdata_h Model.world
                  "vmlinuz-5" zero_arguments Model.start eq_refl)).
  simpl. lia.
Defined.

(** ** Numbers and flags of bg_setenv *)

Section Numbers.

Context {cfg : Config} {col : Collaborators} {lay : Layout}.

(** Filing the text of a number that [asprintf] made. *)
Lemma add_number (k tmp : string) (a : arguments_setenv) (s : proc) :
  serves 4 s ->
  (ok <- alloc ;;
   if negb ok then ret (ENOMEM, a)
   else
     e <- journal_add_action ENV_TASK_SET (Some k) 0
            (Some tmp) (strlen tmp + 1) ;;
     journal_error e a) s
  = Val (0, a) (with_head (served 4 s)
                  (head s ++ [set_action k 0 (bytes_of tmp)])).
Proof.
  intros Hs. destruct (alloc_served 3 _ Hs) as [E1 H1].
  unfold bind at 1. rewrite E1. cbn [negb].
  unfold bind at 1. rewrite (add_set k tmp 0 _ H1).
  unfold journal_error. run. rewrite served_served. reflexivity.
Qed.

(** X16.  -i takes the texts of the numbers 0 and 1 and nothing else; what
    it files under in_progress is the numeral 0 or 1, however the number was
    written. *)
Theorem in_progress_option_normalises (arg : string) (a : arguments_setenv)
    (s : proc) :
  serves 4 s ->
  parse_setenv_opt (chr "i") arg a s =
    if int_text arg then
      if (value (strtol arg) =? 0) || (value (strtol arg) =? 1) then
        Val (0, a)
            (with_head (served 4 (with_errno s 0))
               (head s ++ [set_action "in_progress" 0
                             (bytes_of (if value (strtol arg) =? 0
                                        then "0" else "1"))]))
      else
        Val (1, a)
            (log (with_errno s 0)
               [Stderr "Invalid value specified. Possible values: 0 (no), 1 (yes)"])
    else
      Val (1, a) (log (with_errno s EINVAL)
                    [Stderr "Invalid value specified."]).
Proof.
  intros Hs.
  assert (E : parse_setenv_opt (chr "i") arg a s =
    (i <- parse_int arg ;;
     e <- get_errno ;;
     if negb (e =? 0) then
       emit (Stderr "Invalid value specified.") ;;; ret (1, a)
     else if (i <? 0) || (i >? 1) then
       emit (Stderr "Invalid value specified. Possible values: 0 (no), 1 (yes)") ;;;
       ret (1, a)
     else
       ok <- alloc ;;
       if negb ok then ret (ENOMEM, a)
       else
         let tmp := utoa i in
         e <- journal_add_action ENV_TASK_SET (Some "in_progress") 0
                (Some tmp) (strlen tmp + 1) ;;
         journal_error e a) s) by reflexivity.
  rewrite E. unfold bind at 1. rewrite parse_int_spec.
  destruct (int_text arg); [|reflexivity].
  unfold bind at 1, get_errno at 1. cbn [errno with_errno].
  change (negb (0 =? 0)) with false. cbv iota.
  destruct (value (strtol arg) =? 0) eqn:E0.
  { apply Z.eqb_eq in E0. rewrite E0. cbn [orb Z.ltb Z.gtb Z.compare].
    cbv zeta. exact (add_number "in_progress" (utoa 0) a (with_errno s 0) Hs). }
  destruct (value (strtol arg) =? 1) eqn:E1.
  { apply Z.eqb_eq in E1. rewrite E1. cbn [orb Z.ltb Z.gtb Z.compare].
    cbv zeta. exact (add_number "in_progress" (utoa 1) a (with_errno s 0) Hs). }
  apply Z.eqb_neq in E0, E1.
  replace ((value (strtol arg) <? 0) || (value (strtol arg) >? 1)) with true;
    [reflexivity|].
  symmetry. apply orb_true_iff. rewrite Z.gtb_ltb, Z.ltb_lt, Z.ltb_lt. lia.
Qed.

(** X17.  -r takes the text of any [int], a negative one as well, and -w
    the text of an [int] that is not negative; both file the text as it was
    given. *)
Theorem revision_and_watchdog_options (arg : string) (a : arguments_setenv)
    (s : proc) :
  serves 3 s ->
  parse_setenv_opt (chr "r") arg a s =
    (if int_text arg then
       Val (0, a)
           (with_head (served 3 (with_errno s 0))
              (head s ++ [set_action "revision" 0 (bytes_of arg)]))
     else
       Val (1, a) (log (with_errno s EINVAL)
                     [Stderr "Invalid revision specified."]))
  /\ parse_setenv_opt (chr "w") arg a s =
       (if int_text arg && (0 <=? value (strtol arg)) then
          Val (0, a)
              (with_head (served 3 (with_errno s 0))
                 (head s ++ [set_action "watchdog_timeout_sec" 0
                               (bytes_of arg)]))
        else
          Val (1, a)
              (log (with_errno s (if int_text arg then 0 else EINVAL))
                 [Stderr "Invalid watchdog timeout specified."])).
Proof.
  intros Hs.
  assert (Er : parse_setenv_opt (chr "r") arg a s =
    (i <- parse_int arg ;;
     e <- get_errno ;;
     if negb (e =? 0) then
       emit (Stderr "Invalid revision specified.") ;;; ret (1, a)
     else
       e <- journal_add_action ENV_TASK_SET (Some "revision") 0
              (Some arg) (strlen arg + 1) ;;
       journal_error e a) s) by reflexivity.
  assert (Ew : parse_setenv_opt (chr "w") arg a s =
    (i <- parse_int arg ;;
     e <- get_errno ;;
     if negb (e =? 0) || (i <? 0) then
       emit (Stderr "Invalid watchdog timeout specified.") ;;; ret (1, a)
     else
       e <- journal_add_action ENV_TASK_SET (Some "watchdog_timeout_sec") 0
              (Some arg) (strlen arg + 1) ;;
       journal_error e a) s) by reflexivity.
  assert (Hs0 : serves 3 (with_errno s 0)) by exact Hs.
  split.
  - rewrite Er. unfold bind at 1. rewrite parse_int_spec.
    destruct (int_text arg); [|reflexivity].
    unfold bind at 1, get_errno at 1. cbn [errno with_errno].
    change (negb (0 =? 0)) with false. cbv iota.
    unfold bind at 1. rewrite (add_set _ _ _ _ Hs0). reflexivity.
  - rewrite Ew. unfold bind at 1. rewrite parse_int_spec.
    destruct (int_text arg); cbn [andb]; [|reflexivity].
    unfold bind at 1, get_errno at 1. cbn [errno with_errno].
    change (negb (0 =? 0)) with false. cbn [orb].
    rewrite Z.ltb_antisym.
    destruct (0 <=? value (strtol arg)); cbn [negb]; [|reflexivity].
    unfold bind at 1. rewrite (add_set _ _ _ _ Hs0). reflexivity.
Qed.

(** X18.  -c files what -s 0 and -s OK file: a Set of ustate to the
    numeral 0. *)
Theorem confirm_files_ustate_0 (x arg : string) (a : arguments_setenv)
    (s : proc) :
  header_ustates cfg ->
  serves 4 s ->
  (int_text arg = true /\ value (strtol arg) = 0)
  \/ (int_text arg = false /\ first_match arg = 0) ->
  exists sc ss,
    parse_setenv_opt (chr "c") x a s = Val (0, a) sc
    /\ parse_setenv_opt (chr "s") arg a s = Val (0, a) ss
    /\ head sc = head s ++ [set_action "ustate" 0 (bytes_of "0")]
    /\ head ss = head sc.
Proof.
  intros Hh Hs Harg.
  assert (Ec : parse_setenv_opt (chr "c") x a s =
    (e <- journal_add_action ENV_TASK_SET (Some "ustate") 0 (Some "0") 2 ;;
     journal_error e a) s) by reflexivity.
  rewrite Ec. unfold bind at 1.
  pose proof (add_set "ustate" "0" 0 s (serves_le 3 4 s ltac:(lia) Hs)) as Ac.
  change (strlen "0" + 1)%nat with 2%nat in Ac. rewrite Ac.
  rewrite (parse_setenv_opt_s arg a s Hh).
  assert (F : forall e0,
             (ok <- alloc ;;
              if negb ok then ret (ENOMEM, a)
              else
                e <- journal_add_action ENV_TASK_SET (Some "ustate") 0
                       (Some (utoa 0)) (strlen (utoa 0) + 1) ;;
                journal_error e a) (with_errno s e0)
             = Val (0, a)
                   (with_head (served 4 (with_errno s e0))
                      (head s ++ [set_action "ustate" 0 (bytes_of "0")])))
    by (intros e0; exact (add_number "ustate" "0" a (with_errno s e0) Hs)).
  destruct Harg as [[-> ->] | [-> ->]]; cbn [Z.eqb orb Z.ltb Z.gtb Z.compare];
    cbv iota; rewrite F; do 2 eexists;
    (split; [reflexivity|]); (split; [reflexivity|]); split; reflexivity.
Qed.

End Numbers.

(** The witness of [in_progress_option_normalises]: -i +1 files the
    numeral 1. *)
Lemma in_progress_option_normalises_witness :
  @parse_setenv_opt envdata_h Model.world (chr "i") "+1" zero_arguments
    Model.start =
    Val (0, zero_arguments)
        (with_head (served 4 (with_errno Model.start 0))
           (head Model.start ++ [set_action "in_progress" 0 (bytes_of "1")])).
Proof.
  exact (@in_progress_option_normalises envdata_h Model.world "+1"
           zero_arguments Model.start eq_refl).
Defined.

(** The witness of [revision_and_watchdog_options]: -r -5 is taken, and
    -w -5 is not. *)
Lemma revision_and_watchdog_options_witness :
  @parse_setenv_opt envdata_h Model.world (chr "r") "-5" zero_arguments
    Model.start =
    Val (0, zero_arguments)
        (with_head (served 3 (with_errno Model.start 0))
           (head Model.start ++ [set_action "revision" 0 (bytes_of "-5")]))
  /\ @parse_setenv_opt envdata_h Model.world (chr "w") "-5" zero_arguments
       Model.start =
       Val (1, zero_arguments)
           (log (with_errno Model.start 0)
              [Stderr "Invalid watchdog timeout specified."]).
Proof.
  exact (@revision_and_watchdog_options envdata_h Model.world "-5"
           zero_arguments Model.start eq_refl).
Defined.

(** The witness of [confirm_files_ustate_0]: -c and -s ok. *)
Lemma confirm_files_ustate_0_witness :
  exists sc ss,
    @parse_setenv_opt envdata_h Model.world (chr "c") "" zero_arguments
      Model.start = Val (0, zero_arguments) sc
    /\ @parse_setenv_opt envdata_h Model.world (chr "s") "ok" zero_arguments
         Model.start = Val (0, zero_arguments) ss
    /\ head sc = head Model.start ++ [set_action "ustate" 0 (bytes_of "0")]
    /\ head ss = head sc.
Proof.
  exact (@confirm_files_ustate_0 envdata_h Model.world "" "ok"
           zero_arguments Model.start envdata_h_ustates eq_refl
           (or_intror (conj eq_refl eq_refl))).
Defined.

(** ** The list of -o *)

Lemma strcmp_eqb (a b : string) :
  is_cstring a = true -> is_cstring b = true ->
  (strcmp a b =? 0) = String.eqb a b.
Proof.
  revert b. induction a as [|x a IH]; intros [|y b] Ha Hb;
    cbn [strcmp String.eqb is_cstring] in *.
  - reflexivity.
  - apply andb_prop in Hb as [Hy _]. apply negb_true_iff, eqb_NUL_code in Hy.
    apply Z.eqb_neq. lia.
  - apply andb_prop in Ha as [Hx _]. apply negb_true_iff, eqb_NUL_code in Hx.
    apply Z.eqb_neq. lia.
  - apply andb_prop in Ha as [_ Ha]. apply andb_prop in Hb as [_ Hb].
    destruct (code x =? code y) eqn:E.
    + apply Z.eqb_eq, code_inj in E. subst y. rewrite Ascii.eqb_refl.
      now apply IH.
    + apply Z.eqb_neq in E.
      destruct (Ascii.eqb x y) eqn:F.
      * apply Ascii.eqb_eq in F. subst y. now elim E.
      * apply Z.eqb_neq. lia.
Qed.

(** [strsep] takes the first of the tokens. *)
Lemma sep_token_tokens (s : string) :
  tokens s = fst (sep_token "," s)
             :: match snd (sep_token "," s) with
                | Some r => tokens r
                | None => []
                end.
Proof.
  induction s as [|c s IH]; [reflexivity|].
  cbn [tokens sep_token is_delim]. rewrite orb_false_r.
  destruct (Ascii.eqb c ","); [reflexivity|].
  rewrite IH. destruct (sep_token "," s) as [tok rest]. reflexivity.
Qed.

Lemma sep_token_cstring (s : string) :
  is_cstring s = true ->
  is_cstring (fst (sep_token "," s)) = true
  /\ match snd (sep_token "," s) with
     | Some r => is_cstring r = true /\ (strlen r < strlen s)%nat
     | None => True
     end.
Proof.
  unfold strlen.
  induction s as [|c s IH]; intros H; [now split|].
  cbn [is_cstring] in H. apply andb_prop in H as [Hc Hs].
  cbn [sep_token is_delim]. rewrite orb_false_r.
  destruct (Ascii.eqb c ",").
  - cbn. split; [reflexivity|]. split; [exact Hs | lia].
  - destruct (IH Hs) as [H1 H2].
    destruct (sep_token "," s) as [tok [r|]];
      cbn [fst snd is_cstring String.length] in *.
    + rewrite Hc, H1. split; [reflexivity|]. split; [tauto | lia].
    + now rewrite Hc, H1.
Qed.

Section OutputFields.

Context {cfg : Config} {col : Collaborators} {lay : Layout}.

Lemma fields_eta (o : fields) :
  mk_fields (f_in_progress o) (f_revision o) (f_kernel o) (f_kernelargs o)
            (f_wdog_timeout o) (f_ustate o) (f_user o) = o.
Proof. now destruct o. Qed.

Lemma parse_output_fields_from_scan (n : nat) (rest : option string)
    (o : fields) (s : proc) :
  match rest with
  | Some r => is_cstring r = true /\ (strlen r + 2 <= n)%nat
  | None => True
  end ->
  parse_output_fields_from n rest o s =
    scan (match rest with Some r => tokens r | None => [] end) o s.
Proof.
  revert rest o. induction n as [|n IH]; intros rest o H.
  - destruct rest as [r|]; [lia|reflexivity].
  - destruct rest as [r|]; [|reflexivity].
    destruct H as [Hr Hn].
    cbn [parse_output_fields_from strsep].
    rewrite (sep_token_tokens r).
    destruct (sep_token_cstring r Hr) as [Ht Hrest].
    destruct (sep_token "," r) as [tok rest']. cbn [fst snd] in *.
    assert (Hnext : forall o',
               parse_output_fields_from n rest' o' s =
               scan (match rest' with Some r0 => tokens r0 | None => [] end)
                    o' s).
    { intros o'. apply IH. destruct rest' as [r'|]; [|exact I].
      destruct Hrest. split; [assumption | lia]. }
    cbn [scan].
    rewrite !(strcmp_eqb tok) by (exact Ht || reflexivity).
    destruct tok as [|c tok].
    { cbn. apply Hnext. }
    cbn [is_cstring] in Ht. apply andb_prop in Ht as [Hc _].
    apply negb_true_iff in Hc.
    change (char_at (String c tok) 0) with c. rewrite Hc.
    change (String.eqb (String c tok) "") with false. cbv iota.
    cbn [existsb field_names]. rewrite orb_false_r.
    unfold set_field.
    destruct (String.eqb (String c tok) "in_progress") eqn:E1.
    { apply String.eqb_eq in E1. rewrite E1. cbn [orb String.eqb Ascii.eqb Bool.eqb andb].
      rewrite !orb_false_r, !orb_true_r. apply Hnext. }
    destruct (String.eqb (String c tok) "revision") eqn:E2.
    { apply String.eqb_eq in E2. rewrite E2. cbn [orb String.eqb Ascii.eqb Bool.eqb andb].
      rewrite !orb_false_r, !orb_true_r. apply Hnext. }
    destruct (String.eqb (String c tok) "kernel") eqn:E3.
    { apply String.eqb_eq in E3. rewrite E3. cbn [orb String.eqb Ascii.eqb Bool.eqb andb].
      rewrite !orb_false_r, !orb_true_r. apply Hnext. }
    destruct (String.eqb (String c tok) "kernelargs") eqn:E4.
    { apply String.eqb_eq in E4. rewrite E4. cbn [orb String.eqb Ascii.eqb Bool.eqb andb].
      rewrite !orb_false_r, !orb_true_r. apply Hnext. }
    destruct (String.eqb (String c tok) "watchdog_timeout") eqn:E5.
    { apply String.eqb_eq in E5. rewrite E5. cbn [orb String.eqb Ascii.eqb Bool.eqb andb].
      rewrite !orb_false_r, !orb_true_r. apply Hnext. }
    destruct (String.eqb (String c tok) "ustate") eqn:E6.
    { apply String.eqb_eq in E6. rewrite E6. cbn [orb String.eqb Ascii.eqb Bool.eqb andb].
      rewrite !orb_false_r, !orb_true_r. apply Hnext. }
    destruct (String.eqb (String c tok) "user") eqn:E7.
    { apply String.eqb_eq in E7. rewrite E7. cbn [orb String.eqb Ascii.eqb Bool.eqb andb].
      rewrite !orb_false_r, !orb_true_r. apply Hnext. }
    cbn [orb]. reflexivity.
Qed.

Lemma merge_set_field (t : string) (o : fields) (l : list string) :
  merge (set_field t o) l = merge o (t :: l).
Proof.
  unfold merge, set_field, named. cbn [existsb f_in_progress f_revision
    f_kernel f_kernelargs f_wdog_timeout f_ustate f_user].
  rewrite !(String.eqb_sym t). now rewrite !orb_assoc.
Qed.

Lemma merge_empty_token (o : fields) (l : list string) :
  merge o ("" :: l) = merge o l.
Proof. reflexivity. Qed.

Lemma known_name (t : string) :
  In t field_names -> String.eqb t "" = false
                      /\ existsb (String.eqb t) field_names = true.
Proof.
  intros H. cbn in H.
  repeat (destruct H as [<- | H]; [now split|]). contradiction.
Qed.

Lemma unknown_name (t : string) :
  ~ known t -> String.eqb t "" = false
               /\ existsb (String.eqb t) field_names = false.
Proof.
  intros H. split.
  - apply String.eqb_neq. intros ->. apply H. now left.
  - apply not_true_is_false. intros E. apply existsb_exists in E
      as (name & Hin & E). apply String.eqb_eq in E. subst name.
    apply H. now right.
Qed.

Lemma scan_known (l : list string) (o : fields) (s : proc) :
  Forall known l -> scan l o s = Val (0, merge o l) s.
Proof.
  intros H. revert o. induction H as [|t l Ht _ IH]; intros o.
  - cbn [scan]. unfold merge, named. cbn [existsb].
    rewrite !orb_false_r. now rewrite fields_eta.
  - cbn [scan]. destruct Ht as [-> | Ht].
    + cbn [String.eqb]. rewrite IH. now rewrite merge_empty_token.
    + destruct (known_name t Ht) as [-> ->]. rewrite IH.
      now rewrite merge_set_field.
Qed.

Lemma scan_unknown (l1 l2 : list string) (t : string) (o : fields)
    (s : proc) :
  Forall known l1 -> ~ known t ->
  scan (l1 ++ t :: l2) o s =
    Val (1, merge o l1) (log s [Stderr ("Unknown output field: " ++ t)]).
Proof.
  intros H Ht. revert o. induction H as [|x l1 Hx _ IH]; intros o.
  - cbn [app scan]. destruct (unknown_name t Ht) as [-> ->].
    unfold merge, named. cbn [existsb]. rewrite !orb_false_r.
    now rewrite fields_eta.
  - cbn [app scan]. destruct Hx as [-> | Hx].
    + cbn [String.eqb]. rewrite IH. now rewrite merge_empty_token.
    + destruct (known_name x Hx) as [-> ->]. rewrite IH.
      now rewrite merge_set_field.
Qed.

Lemma parse_output_fields_scan (arg : string) (s : proc) :
  is_cstring arg = true ->
  parse_output_fields arg s =
    scan (tokens arg) (mk_fields false false false false false false false) s.
Proof.
  intros H. unfold parse_output_fields.
  apply (parse_output_fields_from_scan _ (Some arg)). now split.
Qed.

(** X19.  -o takes a list of field names with commas between them.  When
    every text between two commas is a field name or empty, the answer is 0
    and exactly the named fields are selected, whatever their order and
    however often they are named, and the selection of an earlier -o is
    gone; otherwise the first text that is no field name is reported, the
    answer is 1, and the fields named in front of it are the ones selected.
    The [strlen (arg) + 2] rounds of the model are enough for the loop. *)
Theorem output_fields_selection (arg : string) (a : arguments_printenv)
    (s : proc) :
  is_cstring arg = true ->
  (Forall known (tokens arg) ->
   parse_output_fields arg s = Val (0, selects (tokens arg)) s
   /\ parse_printenv_opt (chr "o") arg a s =
        Val (0, mk_printenv (pcommon a) (current a) (selects (tokens arg))) s)
  /\ (forall l1 t l2,
         tokens arg = l1 ++ t :: l2 -> Forall known l1 -> ~ known t ->
         parse_output_fields arg s =
           Val (1, selects l1)
               (log s [Stderr ("Unknown output field: " ++ t)])).
Proof.
  intros H. split.
  - intros Hk.
    assert (E : parse_output_fields arg s = Val (0, selects (tokens arg)) s).
    { rewrite (parse_output_fields_scan arg s H), (scan_known _ _ _ Hk).
      reflexivity. }
    split; [exact E|].
    assert (P : parse_printenv_opt (chr "o") arg a s =
                (r <- parse_output_fields arg ;;
                 ret (fst r, mk_printenv (pcommon a) (current a) (snd r))) s)
      by reflexivity.
    rewrite P. unfold bind. now rewrite E.
  - intros l1 t l2 Ht Hk Hu.
    rewrite (parse_output_fields_scan arg s H), Ht,
      (scan_unknown _ _ _ _ _ Hk Hu).
    reflexivity.
Qed.

End OutputFields.

(** The witness of [output_fields_selection]: -o ustate,,kernel selects two
    fields. *)
Lemma output_fields_selection_witness :
  @parse_output_fields "ustate,,kernel" Model.start =
    Val (0, mk_fields false false true false false true false) Model.start
  /\ @parse_printenv_opt envdata_h Model.world (chr "o") "ustate,,kernel"
       (mk_printenv (mk_common None false 0 false) false ALL_FIELDS)
       Model.start =
     Val (0, mk_printenv (mk_common None false 0 false) false
               (mk_fields false false true false false true false))
         Model.start.
Proof.
  apply (proj1 (@output_fields_selection envdata_h Model.world
                  "ustate,,kernel"
                  (mk_printenv (mk_common None false 0 false) false ALL_FIELDS)
                  Model.start eq_refl)).
  repeat constructor; cbn; tauto.
Defined.

(** ** Handles *)

Section Handles.

Context {cfg : Config} {col : Collaborators} {lay : Layout}.

Lemma filter_none {A} (f : A -> bool) (l : list A) :
  Forall (fun x => f x = false) l -> filter f l = [].
Proof.
  induction 1 as [|x l Hx _ IH]; [reflexivity|]. cbn. now rewrite Hx.
Qed.

Lemma emits_handles {A} (Q : A -> Prop) (m : M A) (t0 : list event) (k : nat) :
  emits neutral Q m ->
  hoare (open_handles t0 k) m (fun _ => open_handles t0 k).
Proof.
  intros H s (e0 & Hs & Hb) a s' E. destruct (H s) as [(evs & Ht & Hn) _].
  rewrite E in Ht. cbn in Ht. exists (e0 ++ evs). split.
  - now rewrite Ht, Hs, app_assoc.
  - rewrite !filter_app, !length_app.
    rewrite (filter_none opened evs), (filter_none closed evs).
    + cbn. lia.
    + eapply Forall_impl; [|exact Hn]. now intros e [_ ?].
    + eapply Forall_impl; [|exact Hn]. now intros e [? _].
Qed.

Lemma emit_neutral (e : event) (t0 : list event) (k : nat) :
  neutral e -> hoare (open_handles t0 k) (emit e) (fun _ => open_handles t0 k).
Proof.
  intros H. apply (emits_handles any). now apply emits_emit.
Qed.

Lemma emit_opened (e : event) (t0 : list event) (k : nat) :
  opened e = true ->
  hoare (open_handles t0 k) (emit e) (fun _ => open_handles t0 (S k)).
Proof.
  intros H s (e0 & Hs & Hb) a s' [= _ <-]. exists (e0 ++ [e]). split.
  - cbn. now rewrite Hs, app_assoc.
  - rewrite !filter_app, !length_app. cbn [filter]. rewrite H.
    assert (C : closed e = false) by (destruct e; try discriminate H; reflexivity).
    rewrite C. cbn. lia.
Qed.

Lemma emit_closed (env : BGENV) (t0 : list event) (k : nat) :
  hoare (open_handles t0 (S k)) (emit (Close (Some env)))
    (fun _ => open_handles t0 k).
Proof.
  intros s (e0 & Hs & Hb) a s' [= _ <-]. exists (e0 ++ [Close (Some env)]).
  split.
  - cbn. now rewrite Hs, app_assoc.
  - rewrite !filter_app, !length_app. cbn. lia.
Qed.

Lemma parser_event_neutral (e : event) : parser_event e -> neutral e.
Proof. now destruct e. Qed.

Lemma replay_event_neutral (e : event) : replay_event e -> neutral e.
Proof. now destruct e. Qed.

Lemma off_slots_neutral (e : event) : ~ fat_event e -> neutral e.
Proof. destruct e; cbn; intros H; try (now split); now elim H. Qed.

Ltac drop_value :=
  let u := fresh "u" in intros u; cbv beta; clear u.

Ltac neutral_emit :=
  apply emit_neutral; split; reflexivity.

Lemma cleanup_closes env result t0 :
  hoare (open_handles t0 1) (cleanup (Some env) result)
    (fun _ => open_handles t0 0).
Proof.
  unfold cleanup.
  eapply hoare_bind; [apply emit_closed|]. drop_value.
  eapply hoare_bind; [neutral_emit|]. drop_value.
  now apply hoare_ret.
Qed.

Lemma cleanup_none result t0 :
  hoare (open_handles t0 0) (cleanup None result)
    (fun _ => open_handles t0 0).
Proof.
  unfold cleanup.
  eapply hoare_bind; [neutral_emit|]. drop_value.
  eapply hoare_bind; [neutral_emit|]. drop_value.
  now apply hoare_ret.
Qed.

Lemma store_closes env verbose t0 :
  hoare (open_handles t0 1) (store env verbose) (fun _ => open_handles t0 0).
Proof.
  unfold store.
  apply (hoare_bind _ (fun _ => open_handles t0 1)).
  { apply (emits_handles sealed_handle).
    eapply emits_weaken; [apply emits_update_environment | | auto].
    apply replay_event_neutral. }
  intros env'.
  eapply hoare_bind; [neutral_emit|]. drop_value.
  destruct (negb (bgenv_write env')); [|apply cleanup_closes].
  eapply hoare_bind; [neutral_emit|]. drop_value. apply cleanup_closes.
Qed.

(** An attempt to open a slot, and what it leaves open. *)
Lemma emit_open_attempt (e : event) (t0 : list event) :
  (opened e = true \/ neutral e) ->
  hoare (open_handles t0 0) (emit e)
    (fun _ => open_handles t0 (if opened e then 1 else 0)).
Proof.
  intros [H | H].
  - rewrite H. now apply emit_opened.
  - rewrite (proj1 H). now apply emit_neutral.
Qed.

Lemma clone_latest_closes verbose t0 :
  hoare (open_handles t0 0) (clone_latest verbose)
    (fun _ => open_handles t0 0).
Proof.
  unfold clone_latest.
  destruct bgenv_open_latest as [env_current|] eqn:L.
  2: { eapply hoare_bind;
         [apply emit_neutral; split; [cbn; now rewrite L | reflexivity]|].
       drop_value. eapply hoare_bind; [neutral_emit|]. drop_value.
       apply cleanup_none. }
  eapply hoare_bind; [apply emit_opened; cbn; now rewrite L|]. drop_value.
  destruct bgenv_open_oldest as [env_new|] eqn:O.
  2: { eapply hoare_bind;
         [apply emit_neutral; split; [cbn; now rewrite O | reflexivity]|].
       drop_value. eapply hoare_bind; [neutral_emit|]. drop_value.
       eapply hoare_bind; [apply emit_closed|]. drop_value.
       apply cleanup_none. }
  eapply hoare_bind; [apply emit_opened; cbn; now rewrite O|]. drop_value.
  apply (hoare_bind _ (fun _ => open_handles t0 2)).
  { destruct verbose; [destruct (edata env_new)|];
      first [now apply hoare_ret | apply hoare_fault]. }
  drop_value.
  destruct (edata env_current) as [current|].
  - destruct (edata env_new) as [old|].
    + eapply hoare_bind; [apply emit_closed|]. drop_value. apply store_closes.
    + eapply hoare_bind; [neutral_emit|]. drop_value.
      eapply hoare_bind; [apply emit_closed|]. drop_value. apply cleanup_closes.
  - eapply hoare_bind; [neutral_emit|]. drop_value.
    eapply hoare_bind; [apply emit_closed|]. drop_value. apply cleanup_closes.
Qed.

Lemma dump_envs_from_closes n i t0 :
  hoare (open_handles t0 0) (dump_envs_from n i)
    (fun _ => open_handles t0 0).
Proof.
  revert i. induction n as [|n IH]; intros i; cbn [dump_envs_from].
  - now apply hoare_ret.
  - destruct (bgenv_open_by_index i) as [env|] eqn:E.
    + eapply hoare_bind; [apply emit_opened; cbn; now rewrite E|]. drop_value.
      destruct (edata env); [|apply hoare_fault].
      eapply hoare_bind; [apply emit_closed|]. drop_value. apply IH.
    + eapply hoare_bind;
        [apply emit_neutral; split; [cbn; now rewrite E | reflexivity]|].
      drop_value. neutral_emit.
Qed.

Lemma bg_setenv_closes argc opts t0 :
  hoare (open_handles t0 0) (bg_setenv argc opts)
    (fun _ => open_handles t0 0).
Proof.
  unfold bg_setenv. destruct (argc <? 2); [now apply hoare_ret|].
  apply (hoare_bind _ (fun _ => open_handles t0 0));
    [apply (emits_handles any), emits_set_head|]. drop_value.
  apply (hoare_bind _ (fun _ => open_handles t0 0)).
  { apply (emits_handles any).
    eapply emits_weaken;
      [apply emits_argp_parse, emits_parse_setenv_opt | | auto].
    apply parser_event_neutral. }
  intros [e a].
  destruct (negb (e =? 0)); [now apply hoare_ret|].
  destruct (_ && _).
  { eapply hoare_bind; [neutral_emit|]. drop_value. now apply hoare_ret. }
  destruct (envfilepath (common a)) as [path|].
  { apply (emits_handles any).
    eapply emits_weaken; [apply emits_dumpenv_to_file_off | | auto].
    apply off_slots_neutral. }
  eapply hoare_bind; [neutral_emit|]. drop_value.
  destruct (negb bgenv_init).
  { eapply hoare_bind; [neutral_emit|]. drop_value. now apply hoare_ret. }
  apply (hoare_bind _ (fun _ => open_handles t0 0)).
  { destruct (verbosity (common a));
      [apply dump_envs_from_closes | now apply hoare_ret]. }
  drop_value.
  destruct (auto_update a); [apply clone_latest_closes|].
  destruct (part_specified (common a)).
  - destruct (bgenv_open_by_index (which_part (common a))) as [env|] eqn:E.
    + apply (hoare_bind _ (fun r => match r with
                                    | Some _ => open_handles t0 1
                                    | None => open_handles t0 0
                                    end)).
      { eapply hoare_bind; [apply emit_opened; cbn; now rewrite E|].
        drop_value. now apply hoare_ret. }
      intros [env'|]; [apply store_closes|].
      eapply hoare_bind; [neutral_emit|]. drop_value. apply cleanup_none.
    + apply (hoare_bind _ (fun r => match r with
                                    | Some _ => open_handles t0 1
                                    | None => open_handles t0 0
                                    end)).
      { eapply hoare_bind;
          [apply emit_neutral; split; [cbn; now rewrite E | reflexivity]|].
        drop_value. now apply hoare_ret. }
      intros [env'|]; [apply store_closes|].
      eapply hoare_bind; [neutral_emit|]. drop_value. apply cleanup_none.
  - destruct bgenv_open_latest as [env|] eqn:E.
    + apply (hoare_bind _ (fun r => match r with
                                    | Some _ => open_handles t0 1
                                    | None => open_handles t0 0
                                    end)).
      { eapply hoare_bind; [apply emit_opened; cbn; now rewrite E|].
        drop_value. now apply hoare_ret. }
      intros [env'|]; [apply store_closes|].
      eapply hoare_bind; [neutral_emit|]. drop_value. apply cleanup_none.
    + apply (hoare_bind _ (fun r => match r with
                                    | Some _ => open_handles t0 1
                                    | None => open_handles t0 0
                                    end)).
      { eapply hoare_bind;
          [apply emit_neutral; split; [cbn; now rewrite E | reflexivity]|].
        drop_value. now apply hoare_ret. }
      intros [env'|]; [apply store_closes|].
      eapply hoare_bind; [neutral_emit|]. drop_value. apply cleanup_none.
Qed.

Lemma bg_printenv_closes argc opts t0 :
  hoare (open_handles t0 0) (bg_printenv argc opts)
    (fun _ => open_handles t0 0).
Proof.
  unfold bg_printenv.
  apply (hoare_bind _ (fun _ => open_handles t0 0)).
  { apply (emits_handles any).
    eapply emits_weaken;
      [apply emits_argp_parse, emits_parse_printenv_opt | | auto].
    apply parser_event_neutral. }
  intros [e a].
  destruct (negb (e =? 0)); [now apply hoare_ret|]. cbv zeta.
  destruct (_ >? 1).
  { eapply hoare_bind; [neutral_emit|]. drop_value. now apply hoare_ret. }
  destruct (envfilepath (pcommon a)) as [path|].
  { apply (emits_handles any).
    eapply emits_weaken; [apply emits_printenv_from_file_off | | auto].
    apply off_slots_neutral. }
  eapply hoare_bind; [neutral_emit|]. drop_value.
  destruct (negb bgenv_init).
  { eapply hoare_bind; [neutral_emit|]. drop_value. now apply hoare_ret. }
  apply (hoare_bind _ (fun _ => open_handles t0 0)).
  { destruct (current a); [|destruct (part_specified (pcommon a))].
    - unfold dump_latest_env.
      destruct bgenv_open_latest as [env|] eqn:E.
      + eapply hoare_bind; [apply emit_opened; cbn; now rewrite E|].
        drop_value. destruct (edata env); [apply emit_closed | apply hoare_fault].
      + eapply hoare_bind;
          [apply emit_neutral; split; [cbn; now rewrite E | reflexivity]|].
        drop_value. neutral_emit.
    - unfold dump_env_by_index.
      destruct (bgenv_open_by_index (which_part (pcommon a))) as [env|] eqn:E.
      + eapply hoare_bind; [apply emit_opened; cbn; now rewrite E|].
        drop_value. destruct (edata env); [apply emit_closed | apply hoare_fault].
      + eapply hoare_bind;
          [apply emit_neutral; split; [cbn; now rewrite E | reflexivity]|].
        drop_value. neutral_emit.
    - apply dump_envs_from_closes. }
  drop_value.
  eapply hoare_bind; [neutral_emit|]. drop_value. now apply hoare_ret.
Qed.


End Handles.


(** ** The listing of bg_printenv *)

Section Listing.

Context {cfg : Config} {col : Collaborators} {lay : Layout}.

Lemma listed_S (i : Z) (k : nat) :
  listed i (S k)
  = OpenByIndex i :: Close (bgenv_open_by_index i) :: listed (i + 1) k.
Proof.
  unfold listed. cbn [seq map flat_map app]. rewrite Z.add_0_r.
  do 2 f_equal. rewrite <- seq_shift, map_map. f_equal.
  apply map_ext. intros j. lia.
Qed.

Lemma dump_envs_from_listed (k n : nat) (i : Z) (s : proc) :
  (k <= n)%nat ->
  (forall j, (j < k)%nat -> readable (i + Z.of_nat j)) ->
  ((k < n)%nat -> bgenv_open_by_index (i + Z.of_nat k) = None) ->
  dump_envs_from n i s =
    Val tt (log s (listed i k
                   ++ if (k <? n)%nat
                      then [OpenByIndex (i + Z.of_nat k);
                            Stderr "Error, could not read environment for index"]
                      else [])).
Proof.
  revert n i s. induction k as [|k IH]; intros n i s Hk Hr Hn.
  - destruct n as [|n].
    + cbn. now rewrite log_nil.
    + specialize (Hn ltac:(lia)). rewrite Z.add_0_r in Hn.
      cbn [dump_envs_from]. rewrite Hn. cbn. rewrite Z.add_0_r.
      unfold bind, emit, log. cbn. now rewrite <- app_assoc.
  - destruct n as [|n]; [lia|].
    destruct (Hr 0%nat ltac:(lia)) as (env & d & Ho & Hd).
    rewrite Z.add_0_r in Ho.
    cbn [dump_envs_from]. rewrite Ho, Hd.
    unfold bind at 1, emit at 1. unfold bind at 1, emit at 1.
    rewrite (IH n (i + 1)).
    + rewrite listed_S, Ho. unfold log. cbn [trace head errno strtok_save heap].
      replace (i + 1 + Z.of_nat k) with (i + Z.of_nat (S k)) by lia.
      change (S k <? S n)%nat with (k <? n)%nat.
      f_equal. f_equal. rewrite <- !app_assoc. reflexivity.
    + lia.
    + intros j Hj. replace (i + 1 + Z.of_nat j) with (i + Z.of_nat (S j))
        by lia. apply Hr. lia.
    + intros Hlt. replace (i + 1 + Z.of_nat k) with (i + Z.of_nat (S k))
        by lia. apply Hn. lia.
Qed.


Lemma init_is_no_parser_event (evs : list event) :
  Forall parser_event evs -> ~ In Init evs.
Proof.
  intros H Hin. rewrite Forall_forall in H. exact (H Init Hin).
Qed.


End Listing.



(** ** The file of -f *)

Section Files.

Context {cfg : Config} {col : Collaborators} {lay : Layout}.

(** [dumpenv_to_file] from [fopen] on. *)
Lemma file_tail_after (path : string) (d : BG_ENVDATA) (s : proc) :
  exists s',
    (if fopen_wb path then
       emit (FileWrite path d) ;;;
       result <- (if negb (fwrite_envdata path d) then
                    set_errno (fwrite_errno path d) ;;;
                    e <- get_errno ;;
                    emit (Stderr ("Error writing to output file: "
                                  ++ strerror e)) ;;;
                    ret 1
                  else ret 0) ;;
       if negb (fclose_ok path) then
         set_errno (fclose_errno path) ;;;
         emit (Stderr "Error closing output file.") ;;; ret 1
       else ret result
     else
       set_errno (fopen_errno path) ;;;
       e <- get_errno ;;
       emit (Stderr ("Error opening output file " ++ path
                     ++ " (" ++ strerror e ++ ").")) ;;;
       ret 1) s
    = Val (if file_done path d then 0 else 1) s'
    /\ trace s' = trace s ++ file_written path d
    /\ head s' = head s.
Proof.
  unfold file_done, file_written.
  destruct (fopen_wb path); cbn [andb].
  - destruct (fwrite_envdata path d); cbn [negb andb];
      destruct (fclose_ok path); cbn [negb andb];
      (eexists; split; [reflexivity|]);
      cbn [trace head app]; rewrite <- ?app_assoc; split; reflexivity.
  - eexists. split; [reflexivity|]. split; reflexivity.
Qed.


End Files.



(** ** Names and numbers of the states *)

Section Names.

Context {cfg : Config}.

(** X25.  With the constants of the headers, [str2ustate] reads back the
    name that [ustate2str] gives a state.  The state reaches [ustate2str]
    as a [uint8_t]: the states 0..3 come back as they are, every greater
    value of the eight bits comes back as 4, the index of UNKNOWN, and a
    wider value comes back as its low eight bits do. *)
Theorem ustate_names_round_trip (u : Z) :
  header_ustates cfg ->
  exists name,
    ustate2str u = Some name
    /\ str2ustate (Some name) = Some (Z.min (u mod UINT8_WIDTH) 4).
Proof.
  intros Hh. pose proof Hh as (_ & Hmax & _).
  pose proof (Z.mod_pos_bound u UINT8_WIDTH eq_refl) as B.
  rewrite (ustate2str_uint8 u Hmax).
  set (w := u mod UINT8_WIDTH) in *.
  assert (C : w = 0 \/ w = 1 \/ w = 2 \/ w = 3 \/ 3 < w) by lia.
  destruct C as [-> | [-> | [-> | [-> | H]]]].
  - exists "OK". split; [reflexivity|].
    now rewrite (str2ustate_first_match _ Hh).
  - exists "INSTALLED". split; [reflexivity|].
    now rewrite (str2ustate_first_match _ Hh).
  - exists "TESTING". split; [reflexivity|].
    now rewrite (str2ustate_first_match _ Hh).
  - exists "FAILED". split; [reflexivity|].
    now rewrite (str2ustate_first_match _ Hh).
  - exists "UNKNOWN". rewrite Z.min_r by lia. split; [reflexivity|].
    now rewrite (str2ustate_first_match _ Hh).
Qed.

End Names.

(** The witness of [ustate_names_round_trip]: the state 2, and the value
    257, whose low eight bits are the state 1. *)
Lemma ustate_names_round_trip_witness :
  (exists name,
      @ustate2str envdata_h 2 = Some name
      /\ @str2ustate envdata_h (Some name) = Some (Z.min (2 mod UINT8_WIDTH) 4))
  /\ (exists name,
         @ustate2str envdata_h 257 = Some name
         /\ @str2ustate envdata_h (Some name)
            = Some (Z.min (257 mod UINT8_WIDTH) 4)).
Proof.
  split.
  - exact (@ustate_names_round_trip envdata_h 2 envdata_h_ustates).
  - exact (@ustate_names_round_trip envdata_h 257 envdata_h_ustates).
Defined.

(** ** The update in place *)

Section InPlace.

Context {cfg : Config} {col : Collaborators} {lay : Layout}.

Lemma keeps_dump_envs_from n i : keeps_head (dump_envs_from n i).
Proof.
  revert i. induction n as [|n IH]; intros i; cbn [dump_envs_from].
  - apply keeps_ret.
  - keeps_walk; try apply IH.
Qed.

(** What -v adds in front of an update: the slots are listed. *)
Lemma listing_keeps (verbose : bool) (s s' : proc) :
  (if verbose then dump_envs else ret tt) s = Val tt s' ->
  head s' = head s /\ errno s' = errno s
  /\ (verbose = false -> s' = s).
Proof.
  intros H. split; [|split].
  - destruct verbose.
    + exact (keeps_dump_envs_from _ _ (head s) s eq_refl tt s' H).
    + now injection H as <-.
  - destruct verbose; [|now injection H as <-].
    unfold dump_envs in H. revert H. generalize 0.
    generalize (Z.to_nat ENV_NUM_CONFIG_PARTS). intros n. revert s.
    induction n as [|n IH]; intros s i H; cbn [dump_envs_from] in H.
    + now injection H as <-.
    + unfold bind at 1, emit at 1 in H.
      destruct (bgenv_open_by_index i) as [env|].
      * destruct (edata env); [|discriminate H].
        unfold bind at 1, emit at 1 in H.
        apply IH in H. exact H.
      * now injection H as <-.
  - intros ->. now injection H as <-.
Qed.

(** X26.  Without -u, bg_setenv updates a slot in place, with -v as
    without it: behind the listing of the slots that -v asks for (which is
    assumed to return: no slot that opens lacks its record), the slot that
    -p names, or else the latest one, is opened, the journal is replayed
    on the record of that slot and the record is written back.
    Nothing is copied and the revision is not counted up: whatever view of
    the record no action of the journal changes is the view of the record
    as it was opened.  The answer is 0 exactly when [bgenv_write]
    succeeded. *)
Theorem plain_update_is_in_place {X} (f : BGENV -> X) (argc : Z)
    (opts : list (Z * string)) (st st1 stv : proc) (a : arguments_setenv)
    (target : BGENV) :
  (argc <? 2) = false ->
  argp_parse parse_setenv_opt opts zero_arguments (with_head st []) =
    Val (0, a) st1 ->
  auto_update a = false ->
  envfilepath (common a) = None ->
  bgenv_init = true ->
  (if verbosity (common a) then dump_envs else ret tt) (log st1 [Init])
  = Val tt stv ->
  (if part_specified (common a)
   then bgenv_open_by_index (which_part (common a))
   else bgenv_open_latest) = Some target ->
  untouched f (head st1) ->
  let asked := if part_specified (common a)
               then OpenByIndex (which_part (common a)) else OpenLatest in
  (verbosity (common a) = false -> stv = log st1 [Init])
  /\ bg_setenv argc opts st
     = store target (verbosity (common a)) (log stv [asked])
  /\ forall env' st2,
       update_environment target (verbosity (common a)) (log stv [asked])
       = Val env' st2 ->
       (exists env1 e evs,
           apply_all (head st1) target (errno st1) = Some (env1, e, evs)
           /\ seal env1 = Some env')
       /\ f env' = f target
       /\ bg_setenv argc opts st =
            Val (if bgenv_write env' then 0 else 1)
                (log st2 (Write env'
                          :: (if bgenv_write env' then []
                              else [Stderr "Error storing environment."])
                          ++ [Close (Some env'); Finalize])).
Proof.
  intros Hargc Hparse Hu Hf Hinit Hlist Hopen [Hact Hseal] asked.
  destruct (listing_keeps _ _ _ Hlist) as (Hh & He & Hq).
  cbn [head errno log] in Hh, He.
  split; [exact Hq|].
  assert (E : bg_setenv argc opts st
              = store target (verbosity (common a)) (log stv [asked])).
  { rewrite bg_setenv_parsed, Hargc, Hparse. cbn [negb Z.eqb].
    rewrite Hu, Hf, Hinit. cbn [andb negb].
    unfold bind at 1, emit at 1.
    change (mk_proc (head st1) (errno st1) (strtok_save st1) (heap st1)
              (trace st1 ++ [Init]))
      with (log st1 [Init]).
    unfold bind at 1. rewrite Hlist. unfold bind at 1.
    unfold asked. destruct (part_specified (common a)); rewrite Hopen;
      unfold bind, emit, ret, log; cbn [head errno strtok_save heap trace];
      reflexivity. }
  split; [exact E|].
  intros env' st2 H.
  pose proof H as H'.
  apply update_environment_val in H' as (env1 & e & evs & Ha & Hs & _).
  cbn [head errno log] in Ha. rewrite Hh, He in Ha.
  split; [now exists env1, e, evs|]. split.
  - rewrite (Hseal _ _ Hs).
    exact (apply_all_untouched f _ _ _ _ _ _ Hact Ha).
  - rewrite E. unfold store. unfold bind at 1. rewrite H.
    unfold cleanup.
    destruct (bgenv_write env'); cbn [negb];
      unfold bind, emit, ret, log; cbn [head errno strtok_save heap trace];
      rewrite <- !app_assoc; reflexivity.
Qed.

End InPlace.

(** The witness of [plain_update_is_in_place]: -v -k vmlinuz-5 on the
    two-slot store lists the two slots, changes the kernel of slot 1, the
    latest, and leaves its revision at 5. *)
Lemma plain_update_is_in_place_witness :
  exists env' st',
    @bg_setenv envdata_h Model.world Model.layout 4
      [(chr "v", ""); (chr "k", "vmlinuz-5")] Model.start = Val 0 st'
    /\ In (Write env') (trace st')
    /\ option_map revision (edata env') = Some 5
    /\ option_map kernelfile (edata env') = Some "vmlinuz-5".
Proof.
  assert (U : @untouched Model.world Model.layout _
                (fun env => option_map revision (edata env))
                [set_action "kernelfile" 0 (bytes_of "vmlinuz-5")]).
  { split.
    - intros a env0 e0 env1 e1 evs [<- | []] H. cbn in H.
      injection H as <- _ _. now destruct env0 as [dsc [d|]].
    - intros env0 env1 H. unfold seal in H.
      destruct env0 as [dsc [d|]]; [|discriminate].
      now injection H as <-. }
  pose proof (@plain_update_is_in_place envdata_h Model.world Model.layout _
                (fun env => option_map revision (edata env)) 4
                [(chr "v", ""); (chr "k", "vmlinuz-5")] Model.start
                (log (with_head Model.start
                        [set_action "kernelfile" 0 (bytes_of "vmlinuz-5")])
                     [BeVerbose])
                (log (with_head Model.start
                        [set_action "kernelfile" 0 (bytes_of "vmlinuz-5")])
                     [BeVerbose; Init;
                      OpenByIndex 0; Close (Some Model.slot0);
                      OpenByIndex 1; Close (Some Model.slot1)])
                (mk_setenv (mk_common None true 0 false) false false)
                Model.slot1
                eq_refl eq_refl eq_refl eq_refl eq_refl eq_refl eq_refl U)
    as (_ & _ & W).
  cbv zeta in W.
  destruct (@update_environment Model.world Model.layout Model.slot1 true
              (log (log (with_head Model.start
                      [set_action "kernelfile" 0 (bytes_of "vmlinuz-5")])
                     [BeVerbose; Init;
                      OpenByIndex 0; Close (Some Model.slot0);
                      OpenByIndex 1; Close (Some Model.slot1)])
                   [OpenLatest])) as [env' st2| |] eqn:E;
    try (vm_compute in E; discriminate E).
  destruct (W env' st2 E) as (_ & Hf & Hrun).
  exists env'. eexists. split; [exact Hrun|]. split.
  - cbn [trace log]. apply in_or_app. right. now left.
  - split; [exact Hf|].
    vm_compute in E. injection E as <- _. reflexivity.
Defined.

(** ** Options that end the program *)

(** An option at which the parser leaves the program: [argp_parse] does
    not answer 0. *)
Lemma argp_parse_exits {A} (parser : Z -> string -> A -> M (Z * A))
    (before after : list (Z * string)) (key : Z) (arg : string) (a : A)
    (st : proc) :
  (forall a st, exists c st', parser key arg a st = Exit c st') ->
  forall r st',
    argp_parse parser (before ++ (key, arg) :: after) a st = Val r st' ->
    fst r <> 0.
Proof.
  intros Hexit. revert a st.
  induction before as [|[key0 arg0] before IH]; intros a st r st' H.
  - cbn [app argp_parse] in H. unfold bind in H.
    destruct (Hexit a st) as (c & st1 & E). rewrite E in H. discriminate.
  - cbn [app argp_parse] in H. unfold bind in H.
    destruct (parser key0 arg0 a st) as [r0 st0| |];
      try discriminate.
    destruct ((fst r0 =? 0) || (fst r0 =? ARGP_ERR_UNKNOWN)) eqn:E.
    + exact (IH _ _ _ _ H).
    + injection H as <- _. apply orb_false_elim in E as [E _].
      now apply Z.eqb_neq.
Qed.

Section Leaving.

Context {cfg : Config} {col : Collaborators} {lay : Layout}.

Lemma bg_setenv_stops_on_parse (argc : Z) (opts : list (Z * string))
    (st : proc) :
  (forall r st',
      argp_parse parse_setenv_opt opts zero_arguments (with_head st [])
      = Val r st' -> fst r <> 0) ->
  stops_before_io (bg_setenv argc opts) st.
Proof.
  intros Hstop.
  pose proof (bg_setenv_parse_error argc _ st Hstop) as Hrun.
  split.
  - intros st' H. rewrite Hrun in H.
    destruct (argc <? 2); [discriminate|].
    destruct (argp_parse _ _ _ _) as [r s1| |] eqn:E; try discriminate.
    injection H as H _. exact (Hstop r s1 eq_refl H).
  - rewrite Hrun.
    destruct (argc <? 2).
    { exists []. simpl. rewrite app_nil_r. now split. }
    destruct (setenv_parse_trace opts zero_arguments (with_head st []))
      as (evs & Ht & Hp).
    exists evs. split.
    + destruct (argp_parse _ _ _ _); exact Ht.
    + now apply parser_event_no_storage.
Qed.

Lemma bg_printenv_stops_on_parse (argc : Z) (opts : list (Z * string))
    (st : proc) :
  (forall r st',
      argp_parse parse_printenv_opt opts
        (mk_printenv (mk_common None false 0 false) false ALL_FIELDS) st
      = Val r st' -> fst r <> 0) ->
  stops_before_io (bg_printenv argc opts) st.
Proof.
  intros Hstop.
  pose proof (bg_printenv_parse_error argc _ st Hstop) as Hrun.
  split.
  - intros st' H. rewrite Hrun in H.
    destruct (argp_parse _ _ _ _) as [r s1| |] eqn:E; try discriminate.
    injection H as H _. exact (Hstop r s1 eq_refl H).
  - rewrite Hrun.
    destruct (printenv_parse_trace opts
                (mk_printenv (mk_common None false 0 false) false ALL_FIELDS)
                st) as (evs & Ht & Hp).
    exists evs. split.
    + destruct (argp_parse _ _ _ _); exact Ht.
    + now apply parser_event_no_storage.
Qed.

(** X27.  At -V the option parser leaves the program with the status 0, and
    at an argument that is no option with the status of [argp_usage].  A
    run of either tool whose command line holds one of the two makes no
    call of the storage layer, and [main] does not return 0: the run ends
    at that option, or at an option in front of it that is turned
    down. *)
Theorem version_and_usage_stop_before_io (key : Z) (x : string)
    (argv0 : string) (argc : Z) (before after : list (Z * string))
    (a : arguments_setenv) (p : arguments_printenv) (st : proc) :
  key = chr "V" \/ key = ARGP_KEY_ARG ->
  let status := if key =? chr "V" then 0 else 64 in
  parse_setenv_opt key x a st = Exit status st
  /\ parse_printenv_opt key x p st = Exit status st
  /\ stops_before_io (main argv0 argc (before ++ (key, x) :: after)) st.
Proof.
  intros Hkey status.
  assert (Es : forall a st, parse_setenv_opt key x a st = Exit status st).
  { intros a0 st0. unfold status. destruct Hkey as [-> | ->]; reflexivity. }
  assert (Ep : forall p st, parse_printenv_opt key x p st = Exit status st).
  { intros p0 st0. unfold status. destruct Hkey as [-> | ->]; reflexivity. }
  split; [apply Es|]. split; [apply Ep|].
  unfold main. destruct (strstr argv0 "bg_setenv").
  - apply bg_setenv_stops_on_parse.
    apply (argp_parse_exits parse_setenv_opt before after key x).
    intros a0 st0. exists status, st0. apply Es.
  - apply bg_printenv_stops_on_parse.
    apply (argp_parse_exits parse_printenv_opt before after key x).
    intros p0 st0. exists status, st0. apply Ep.
Qed.

End Leaving.

(** The witness of [version_and_usage_stop_before_io]: -k vmlinuz-5 -V. *)
Lemma version_and_usage_stop_before_io_witness :
  @parse_setenv_opt envdata_h Model.world (chr "V") "" zero_arguments
    Model.start = Exit 0 Model.start
  /\ @parse_printenv_opt envdata_h Model.world (chr "V") ""
       (mk_printenv (mk_common None false 0 false) false ALL_FIELDS)
       Model.start = Exit 0 Model.start
  /\ stops_before_io
       (@main envdata_h Model.world Model.layout "bg_setenv" 4
          ([(chr "k", "vmlinuz-5")] ++ (chr "V", "") :: []))
       Model.start.
Proof.
  exact (@version_and_usage_stop_before_io envdata_h Model.world Model.layout
           (chr "V") "" "bg_setenv" 4 [(chr "k", "vmlinuz-5")] []
           zero_arguments
           (mk_printenv (mk_common None false 0 false) false ALL_FIELDS)
           Model.start (or_introl eq_refl)).
Defined.
